(** * Handy Mechanic AI: the diagnosis path, embedded and checked

    Sources embedded here:
    - the client-side diagnosis of the React prototype
      ([performAIDiagnosis], [getFallbackDiagnosis]);
    - the [POST /api/diagnose] route handler (credit gate, field
      validation, engine call, credit deduction, persistence);
    - the SQL functions [decrement_user_credits] and [add_user_credits],
      on unbounded balances and on the column's 32-bit [INTEGER];
    - the image uploader and the VIN scanner components;
    - the prototype application around the diagnosis ([runDiagnosis],
      sign-in, purchase, the results screen's videos), handler by
      handler and with the work its handlers leave pending;
    - the history route [GET /api/diagnose], with the [JSONB] column it
      reads, and the client's [handleSubmitDiagnosis];
    - the route handler among overlapping requests;
    - the payment webhook and its three handlers;
    - the Express server's route [POST /api/diagnosis/analyze];
    - the registration and login routes.

    The retrieval-augmented engine called by the route handler
    ([EnhancedDiagnosticRAG], module [lib/rag/diagnostic-rag]) is not among
    the sources; its query composition and its retrieval are modelled
    from the specification in module [Engine] and marked as such. *)

From Stdlib Require Import String Ascii List ZArith QArith Qround Bool Lia.
From Stdlib Require Import Sorted.
From Stdlib Require OrderedTypeEx.
From stdpp Require Import base option list strings pretty gmap.
Import ListNotations.

Close Scope Q_scope.
Open Scope string_scope.
Set Warnings "-register-all".

(** ** Results of code that may throw *)

Inductive result (A : Type) : Type :=
| Ok (a : A)
| Throw (e : string).
Arguments Ok {A} a.
Arguments Throw {A} e.

Definition rbind {A B} (m : result A) (k : A -> result B) : result B :=
  match m with
  | Ok a => k a
  | Throw e => Throw e
  end.

(** [try { body } catch (error) { handler }] *)
Definition try_catch {A} (body : result A) (handler : string -> result A)
  : result A :=
  match body with
  | Ok a => Ok a
  | Throw e => handler e
  end.

(** [x ← m; k] (stdpp's bind notation) sequences code that may throw. *)
#[global] Instance result_ret : MRet result := fun _ a => Ok a.
#[global] Instance result_bind : MBind result := fun _ _ k m => rbind m k.

(** ** JSON values, as [JSON.parse] produces them *)

Module Json.

(** Numbers are kept as the exact rational their decimal literal denotes. *)
Inductive json : Type :=
| JNull
| JBool (b : bool)
| JNum (q : Q)
| JStr (s : string)
| JArr (items : list json)
| JObj (props : list (string * json)).

(** Own-property lookup of an object's property list; [None] is
    [undefined]. *)
Fixpoint lookup_prop (k : string) (props : list (string * json))
  : option json :=
  match props with
  | [] => None
  | (k', v) :: rest => if String.eqb k k' then Some v else lookup_prop k rest
  end.

(** Property assignment during parsing: a repeated key overwrites the value
    in place, a new key is appended. *)
Fixpoint set_prop (k : string) (v : json) (props : list (string * json))
  : list (string * json) :=
  match props with
  | [] => [(k, v)]
  | (k', v') :: rest =>
      if String.eqb k k' then (k', v) :: rest
      else (k', v') :: set_prop k v rest
  end.

(** [v.k] for a key that is not a built-in property: a [TypeError] on
    [null], the own property on an object, [undefined] on anything else. *)
Definition get_prop (v : json) (k : string) : result (option json) :=
  match v with
  | JNull => Throw "TypeError"
  | JObj props => Ok (lookup_prop k props)
  | _ => Ok None
  end.

(** [o.k] where [o] may be [undefined], as used on report objects. *)
Definition field (k : string) (v : json) : option json :=
  match v with
  | JObj props => lookup_prop k props
  | _ => None
  end.

(** JavaScript truthiness, with [None] for [undefined]. *)
Definition truthy (v : option json) : bool :=
  match v with
  | None => false
  | Some JNull => false
  | Some (JBool b) => b
  | Some (JNum q) => negb (Qeq_bool q 0)
  | Some (JStr s) => negb (String.eqb s "")
  | Some (JArr _) => true
  | Some (JObj _) => true
  end.

End Json.
Export Json.

(** ** A reference [JSON.parse]

    The diagnosis code is stated over an arbitrary [JSON.parse]
    (a section variable below).  Concrete runs use this reference
    implementation of the JSON grammar: a lexer and a recursive-descent
    parser.  [None] stands for the thrown [SyntaxError]. *)

Module JsonParse.

Inductive token : Type :=
| TLBrace | TRBrace | TLBrack | TRBrack | TColon | TComma
| TString (s : string)
| TNumber (q : Q)
| TTrue | TFalse | TNull.

Definition is_ws (c : ascii) : bool :=
  let n := nat_of_ascii c in
  Nat.eqb n 32 || Nat.eqb n 9 || Nat.eqb n 10 || Nat.eqb n 13.

Definition digit_of (c : ascii) : option Z :=
  let n := nat_of_ascii c in
  if Nat.leb 48 n && Nat.leb n 57 then Some (Z.of_nat (n - 48)) else None.

Definition hex_of (c : ascii) : option Z :=
  let n := nat_of_ascii c in
  if Nat.leb 48 n && Nat.leb n 57 then Some (Z.of_nat (n - 48))
  else if Nat.leb 97 n && Nat.leb n 102 then Some (Z.of_nat (n - 87))
  else if Nat.leb 65 n && Nat.leb n 70 then Some (Z.of_nat (n - 55))
  else None.

Definition byte (z : Z) : ascii := ascii_of_nat (Z.to_nat z).

(** UTF-8 bytes of one UTF-16 code unit (a value below 65536). *)
Definition utf8 (u : Z) : string :=
  if Z.ltb u 128 then String (byte u) ""
  else if Z.ltb u 2048 then
    String (byte (192 + Z.shiftr u 6))
      (String (byte (128 + Z.land u 63)) "")
  else
    String (byte (224 + Z.shiftr u 12))
      (String (byte (128 + Z.land (Z.shiftr u 6) 63))
        (String (byte (128 + Z.land u 63)) "")).

(** The body of a string literal, after its opening quote: the decoded
    contents and what follows the closing quote. *)
Fixpoint lex_string (s : string) : option (string * string) :=
  match s with
  | EmptyString => None
  | String c r =>
      if Ascii.eqb c "034" then Some ("", r)
      else if Ascii.eqb c "\" then
        match r with
        | EmptyString => None
        | String e r' =>
            let plain (d : ascii) :=
              match lex_string r' with
              | Some (body, rest) => Some (String d body, rest)
              | None => None
              end in
            if Ascii.eqb e "034" then plain "034"%char
            else if Ascii.eqb e "\" then plain "\"%char
            else if Ascii.eqb e "/" then plain "/"%char
            else if Ascii.eqb e "b" then plain "008"%char
            else if Ascii.eqb e "f" then plain "012"%char
            else if Ascii.eqb e "n" then plain "010"%char
            else if Ascii.eqb e "r" then plain "013"%char
            else if Ascii.eqb e "t" then plain "009"%char
            else if Ascii.eqb e "u" then
              match r' with
              | String h1 (String h2 (String h3 (String h4 r''))) =>
                  match hex_of h1, hex_of h2, hex_of h3, hex_of h4 with
                  | Some a, Some b, Some c', Some d =>
                      match lex_string r'' with
                      | Some (body, rest) =>
                          Some (utf8 (((a * 16 + b) * 16 + c') * 16 + d)
                                  +:+ body, rest)
                      | None => None
                      end
                  | _, _, _, _ => None
                  end
              | _ => None
              end
            else None
        end
      else if Nat.ltb (nat_of_ascii c) 32 then None
      else
        match lex_string r with
        | Some (body, rest) => Some (String c body, rest)
        | None => None
        end
  end.

(** A maximal run of decimal digits: its value, its length, the rest. *)
Fixpoint lex_digits (s : string) (acc : Z) (n : nat) : Z * nat * string :=
  match s with
  | EmptyString => (acc, n, s)
  | String c r =>
      match digit_of c with
      | Some d => lex_digits r (acc * 10 + d)%Z (S n)
      | None => (acc, n, s)
      end
  end.

Definition starts_with_zero (s : string) : bool :=
  match s with
  | String c _ => Ascii.eqb c "0"
  | EmptyString => false
  end.

Definition pow10 (n : nat) : Z := (10 ^ Z.of_nat n)%Z.

(** [mant * 10^e] as a rational. *)
Definition scale (mant : Z) (e : Z) : Q :=
  if Z.leb 0 e then Qmake (mant * 10 ^ e) 1
  else Qmake mant (Z.to_pos (10 ^ (- e))).

(** number = [-] int [frac] [exp], with no leading zero in a multi-digit
    int. *)
Definition lex_number (s : string) : option (Q * string) :=
  let '(neg, s1) :=
    match s with
    | String c r => if Ascii.eqb c "-" then (true, r) else (false, s)
    | EmptyString => (false, s)
    end in
  let '(ip, ni, s2) := lex_digits s1 0%Z 0%nat in
  if Nat.eqb ni 0 then None
  else if starts_with_zero s1 && Nat.ltb 1 ni then None
  else
    let frac :=
      match s2 with
      | String c r =>
          if Ascii.eqb c "." then
            let '(fp, nf, s3) := lex_digits r 0%Z 0%nat in
            if Nat.eqb nf 0 then None else Some (fp, nf, s3)
          else Some (0%Z, 0%nat, s2)
      | EmptyString => Some (0%Z, 0%nat, s2)
      end in
    match frac with
    | None => None
    | Some (fp, nf, s3) =>
        let mant := (ip * pow10 nf + fp)%Z in
        let mant := if neg then (- mant)%Z else mant in
        let expo :=
          match s3 with
          | String c r =>
              if Ascii.eqb c "e" || Ascii.eqb c "E" then
                let '(eneg, r1) :=
                  match r with
                  | String c' r' =>
                      if Ascii.eqb c' "-" then (true, r')
                      else if Ascii.eqb c' "+" then (false, r')
                      else (false, r)
                  | EmptyString => (false, r)
                  end in
                let '(ev, ne, s4) := lex_digits r1 0%Z 0%nat in
                if Nat.eqb ne 0 then None
                else Some ((if eneg then - ev else ev)%Z, s4)
              else Some (0%Z, s3)
          | EmptyString => Some (0%Z, s3)
          end in
        match expo with
        | None => None
        | Some (ev, s4) => Some (scale mant (ev - Z.of_nat nf), s4)
        end
    end.

Definition strip_prefix (p s : string) : option string :=
  if String.prefix p s
  then Some (String.substring (String.length p)
               (String.length s - String.length p) s)
  else None.

Fixpoint lex (fuel : nat) (s : string) : option (list token) :=
  match fuel with
  | O => None
  | S fuel' =>
      match s with
      | EmptyString => Some []
      | String c r =>
          let single (t : token) :=
            match lex fuel' r with
            | Some ts => Some (t :: ts)
            | None => None
            end in
          let word (w : string) (t : token) :=
            match strip_prefix w s with
            | Some rest =>
                match lex fuel' rest with
                | Some ts => Some (t :: ts)
                | None => None
                end
            | None => None
            end in
          if is_ws c then lex fuel' r
          else if Ascii.eqb c "{" then single TLBrace
          else if Ascii.eqb c "}" then single TRBrace
          else if Ascii.eqb c "[" then single TLBrack
          else if Ascii.eqb c "]" then single TRBrack
          else if Ascii.eqb c ":" then single TColon
          else if Ascii.eqb c "," then single TComma
          else if Ascii.eqb c "034" then
            match lex_string r with
            | Some (body, rest) =>
                match lex fuel' rest with
                | Some ts => Some (TString body :: ts)
                | None => None
                end
            | None => None
            end
          else if Ascii.eqb c "t" then word "true" TTrue
          else if Ascii.eqb c "f" then word "false" TFalse
          else if Ascii.eqb c "n" then word "null" TNull
          else
            match lex_number s with
            | Some (q, rest) =>
                match lex fuel' rest with
                | Some ts => Some (TNumber q :: ts)
                | None => None
                end
            | None => None
            end
      end
  end.

(** value, then the members of an array or object after their first
    element.  Each call consumes at least one token, so the number of
    tokens is enough fuel. *)
Fixpoint parse_value (fuel : nat) (ts : list token)
  : option (json * list token) :=
  match fuel with
  | O => None
  | S fuel' =>
      match ts with
      | TNull :: r => Some (JNull, r)
      | TTrue :: r => Some (JBool true, r)
      | TFalse :: r => Some (JBool false, r)
      | TNumber q :: r => Some (JNum q, r)
      | TString s :: r => Some (JStr s, r)
      | TLBrack :: TRBrack :: r => Some (JArr [], r)
      | TLBrack :: r =>
          match parse_value fuel' r with
          | Some (v, r1) =>
              match parse_items fuel' r1 with
              | Some (vs, r2) => Some (JArr (v :: vs), r2)
              | None => None
              end
          | None => None
          end
      | TLBrace :: TRBrace :: r => Some (JObj [], r)
      | TLBrace :: TString k :: TColon :: r =>
          match parse_value fuel' r with
          | Some (v, r1) =>
              match parse_members fuel' [(k, v)] r1 with
              | Some (ps, r2) => Some (JObj ps, r2)
              | None => None
              end
          | None => None
          end
      | _ => None
      end
  end
with parse_items (fuel : nat) (ts : list token)
  : option (list json * list token) :=
  match fuel with
  | O => None
  | S fuel' =>
      match ts with
      | TRBrack :: r => Some ([], r)
      | TComma :: r =>
          match parse_value fuel' r with
          | Some (v, r1) =>
              match parse_items fuel' r1 with
              | Some (vs, r2) => Some (v :: vs, r2)
              | None => None
              end
          | None => None
          end
      | _ => None
      end
  end
with parse_members (fuel : nat) (acc : list (string * json))
  (ts : list token) : option (list (string * json) * list token) :=
  match fuel with
  | O => None
  | S fuel' =>
      match ts with
      | TRBrace :: r => Some (acc, r)
      | TComma :: TString k :: TColon :: r =>
          match parse_value fuel' r with
          | Some (v, r1) => parse_members fuel' (set_prop k v acc) r1
          | None => None
          end
      | _ => None
      end
  end.

Definition JSON_parse (s : string) : option json :=
  match lex (S (String.length s)) s with
  | Some ts =>
      match parse_value (S (List.length ts)) ts with
      | Some (v, []) => Some v
      | _ => None
      end
  | None => None
  end.

(** Text with apostrophes standing for double quotes, for readable JSON
    literals in examples. *)
Fixpoint dq (s : string) : string :=
  match s with
  | EmptyString => EmptyString
  | String c r => String (if Ascii.eqb c "'" then "034"%char else c) (dq r)
  end.

End JsonParse.

(** ** [resultText.match(/\{[\s\S]*\}/)]

    The pattern is an opening brace, any characters (greedy), a closing
    brace.  A regular-expression search tries the start positions from left
    to right and, at a start position, prefers the longest run of
    [[\s\S]*] that still lets the closing brace match. *)

Module Regex.

(** The longest prefix of [s] that ends in a closing brace: what
    [[\s\S]*\}] matches at the head of [s] after backtracking. *)
Fixpoint greedy_close (s : string) : option string :=
  match s with
  | EmptyString => None
  | String c r =>
      match greedy_close r with
      | Some m => Some (String c m)
      | None => if Ascii.eqb c "}" then Some (String c "") else None
      end
  end.

(** The match anchored at the head of [s]. *)
Definition match_here (s : string) : option string :=
  match s with
  | EmptyString => None
  | String c r =>
      if Ascii.eqb c "{" then
        match greedy_close r with
        | Some m => Some (String c m)
        | None => None
        end
      else None
  end.

(** The leftmost match: [jsonMatch[0]], or [None] for a [null] result. *)
Fixpoint jsonMatch (s : string) : option string :=
  match match_here s with
  | Some m => Some m
  | None =>
      match s with
      | EmptyString => None
      | String _ r => jsonMatch r
      end
  end.

End Regex.

(** ** The prototype's client-side diagnosis

    [performAIDiagnosis] and [getFallbackDiagnosis] of the React
    prototype. *)

Module Prototype.

(** [vehicleData]: the three selections of the vehicle screen. *)
Record VehicleData : Type := {
  year : string;
  make : string;
  model : string
}.

Definition repair_step (n : Z) (description duration : string) : json :=
  JObj [("step", JNum (inject_Z n));
        ("description", JStr description);
        ("duration", JStr duration)].

(** [getFallbackDiagnosis]: an object literal; only the diagnosis text
    reads the component state. *)
Definition getFallbackDiagnosis (vehicleData : VehicleData) : json :=
  JObj [
    ("diagnosis", JStr (
       "The high-pitch whine on a " +:+ year vehicleData +:+ " "
       +:+ make vehicleData +:+ " " +:+ model vehicleData +:+
       " is most commonly caused by a failing Power Steering Pump or a worn Alternator bearing. However, this specific model year is also known for a high-pitched whine resulting from a clogged transmission filter (specifically on the 6T40/6T70 6-speed transmissions) or a vacuum leak at the intake manifold. If the whine changes pitch with engine RPM, it is likely accessory-drive related (Pulley, Alternator, or Power Steering). If it occurs primarily when turning the wheel, it is the Power Steering Pump."));
    ("severity", JStr "medium");
    ("commonCauses", JArr [
       JStr "Failing Power Steering Pump";
       JStr "Worn Alternator bearing";
       JStr "Clogged transmission filter (6T40/6T70)";
       JStr "Vacuum leak at intake manifold"]);
    ("repairSteps", JArr [
       repair_step 1
         "Diagnose the source of the whine by listening with engine running and RPM changes"
         "15-30 minutes";
       repair_step 2
         "Check power steering fluid level and condition"
         "5 minutes";
       repair_step 3
         "Inspect serpentine belt and pulleys for wear or misalignment"
         "10-15 minutes";
       repair_step 4
         "If power steering pump is faulty, remove and replace"
         "2-3 hours";
       repair_step 5
         "If alternator bearing is worn, replace alternator"
         "1-2 hours";
       repair_step 6
         "Test drive to verify repair and ensure whine is eliminated"
         "10-15 minutes"]);
    ("materialsNeeded", JArr [
       JStr "Power Steering Pump (if needed)";
       JStr "Power Steering Fluid (Dexron VI)";
       JStr "Serpentine Belt";
       JStr "Alternator (if needed)";
       JStr "Socket set";
       JStr "Wrench set";
       JStr "Belt tensioner tool"]);
    ("estimatedCost", JObj [("min", JNum 150); ("max", JNum 650)]);
    ("relatedVideos", JArr [
       JStr "How to tell if Your Pulleys are Bad";
       JStr "Power Steering Pulley Sound";
       JStr "Chevy Malibu high pitch whine repair"])
  ].

(** What [await fetch(...)] does: rejects, or resolves to a response with
    a body.  The request carries the prompt; the reply is the service's. *)
Inductive FetchOutcome : Type :=
| FetchRejects (e : string)
| FetchResolves (body : string).

Section Diagnosis.

(** The platform's [JSON.parse]; [None] is a thrown [SyntaxError]. *)
Variable JSON_parse : string -> option json.

Definition parse_or_throw (s : string) : result json :=
  match JSON_parse s with
  | Some v => Ok v
  | None => Throw "SyntaxError"
  end.

(** [await fetch(...)] *)
Definition await_fetch (net : FetchOutcome) : result string :=
  match net with
  | FetchRejects e => Throw e
  | FetchResolves body => Ok body
  end.

(** [item => item.type === "text"] *)
Definition is_text_item (item : json) : result bool :=
  ty ← get_prop item "type";
  mret (match ty with
        | Some (JStr s) => String.eqb s "text"
        | _ => false
        end).

(** [content.find(pred)]: a [TypeError] unless [content] is an array;
    the first item the predicate accepts, or [undefined]. *)
Fixpoint find_item (pred : json -> result bool) (items : list json)
  : result (option json) :=
  match items with
  | [] => Ok None
  | item :: rest =>
      b ← pred item;
      if (b : bool) then Ok (Some item) else find_item pred rest
  end.

Definition array_find (content : option json)
  (pred : json -> result bool) : result (option json) :=
  match content with
  | Some (JArr items) => find_item pred items
  | _ => Throw "TypeError"
  end.

(** [found?.text || ''] *)
Definition text_or_empty (found : option json) : result json :=
  match found with
  | None => Ok (JStr "")
  | Some item =>
      t ← get_prop item "text";
      mret (if truthy t then default (JStr "") t else JStr "")
  end.

(** [resultText.match(re)]: only a string has [match]. *)
Definition string_match (resultText : json) : result (option string) :=
  match resultText with
  | JStr s => Ok (Regex.jsonMatch s)
  | _ => Throw "TypeError"
  end.

(** The [try] block.  [Some v] is the [return JSON.parse(jsonMatch[0])]
    inside the [if]; [None] is control leaving the [if] unentered. *)
Definition try_block (net : FetchOutcome) : result (option json) :=
  body ← await_fetch net;
  data ← parse_or_throw body;
  content ← get_prop data "content";
  found ← array_find content is_text_item;
  resultText ← text_or_empty found;
  jm ← string_match resultText;
  match jm with
  | Some m => v ← parse_or_throw m; mret (Some v)
  | None => mret None
  end.

Definition performAIDiagnosis (vehicleData : VehicleData)
  (net : FetchOutcome) : result json :=
  try_catch
    (r ← try_block net;
     match r with
     | Some v => Ok v
     | None => Ok (getFallbackDiagnosis vehicleData)
     end)
    (fun _ => Ok (getFallbackDiagnosis vehicleData)).

End Diagnosis.

(** The reply body of the generation service carrying [text] as its single
    text item. *)
Definition reply_with_text (text : string) : json :=
  JObj [("content", JArr [JObj [("type", JStr "text"); ("text", JStr text)]])].

(** An item of [content] that [find] passes over: anything but [null]
    whose [type] is not [text]. *)
Definition other_item (item : json) : bool :=
  match is_text_item item with
  | Ok false => true
  | _ => false
  end.

(** An item of [content] of type [text] whose [text] is the string
    [text]. *)
Definition text_item (text : string) (item : json) : bool :=
  match is_text_item item with
  | Ok true =>
      match field "text" item with
      | Some (JStr s) => String.eqb s text
      | _ => false
      end
  | _ => false
  end.

(** A decoded reply of any shape that carries [text]: an object, with
    whatever other properties in whatever order, whose [content] is an
    array whose first item of type [text] holds [text]; other items may
    come before and anything after. *)
Definition carries_text (data : json) (text : string) : Prop :=
  exists before item rest,
    field "content" data = Some (JArr (before ++ item :: rest))
    /\ forallb other_item before = true
    /\ text_item text item = true.

End Prototype.

(** ** The database: table [users], table [diagnoses], and the SQL
    function [decrement_user_credits] *)

Module Db.

(** A row of [diagnoses] as the route handler inserts it.  The remaining
    columns of the insert are projections of [diagnosis_result] and of the
    audio analysis, and the processing time. *)
Record DiagnosisRow : Type := {
  user_id : string;
  vehicle_year : Z;
  vehicle_make : string;
  vehicle_model : string;
  symptom_text : string;
  audio_url : option string;
  photo_urls : option (list string);
  diagnosis_result : json;
  credits_used : Z
}.

(** [users] maps [users.id] to [users.credits]. *)
Record Database : Type := {
  users : gmap string Z;
  diagnoses : list DiagnosisRow
}.

(** [[
    SELECT credits INTO current_credits FROM users WHERE id = user_uuid;
    IF current_credits >= amount THEN
      UPDATE users SET credits = credits - amount WHERE id = user_uuid;
      RETURN TRUE;
    ELSE RETURN FALSE; ]]
    With no such user [current_credits] is NULL and the test is not
    true.  Balances are unbounded integers here.  The route handler
    calls the function with [amount] 1 only, and there the subtraction
    stays within the column's 32-bit [INTEGER]; module [Plpgsql] has the
    function on that type, for every [amount]. *)
Definition decrement_user_credits (user_uuid : string) (amount : Z)
  (us : gmap string Z) : bool * gmap string Z :=
  match us !! user_uuid with
  | Some current_credits =>
      if (amount <=? current_credits)%Z
      then (true, <[user_uuid := (current_credits - amount)%Z]> us)
      else (false, us)
  | None => (false, us)
  end.

End Db.
Export Db.

(** ** The route handler [POST /api/diagnose] *)

Module Route.

(** An uploaded [File]: its name and its size in bytes. *)
Record File : Type := {
  file_name : string;
  file_size : Z
}.

(** What [request.formData()] holds.  A missing entry is [None] ([null]).
    [photoFiles] is the run [photoFile0], [photoFile1], ... up to the first
    missing index, which is what the handler's loop collects. *)
Record FormData : Type := {
  vehicleYear : option string;
  vehicleMake : option string;
  vehicleModel : option string;
  vin : option string;
  mileage : option string;
  symptomText : option string;
  audioFile : option File;
  photoFiles : list File
}.

(** A JavaScript number that came out of [parseInt]. *)
Inductive JsInt : Type :=
| NaN
| Int (z : Z).

Fixpoint skip_ws (s : string) : string :=
  match s with
  | EmptyString => s
  | String c r =>
      let n := nat_of_ascii c in
      if Nat.eqb n 32 || (Nat.leb 9 n && Nat.leb n 13) then skip_ws r else s
  end.

Fixpoint hex_digits (s : string) (acc : Z) (n : nat) : Z * nat :=
  match s with
  | EmptyString => (acc, n)
  | String c r =>
      match JsonParse.hex_of c with
      | Some d => hex_digits r (acc * 16 + d)%Z (S n)
      | None => (acc, n)
      end
  end.

(** [parseInt(x as string)] with no radix: [null] reads as the text
    [null]; leading white space, a sign, a [0x] prefix, then the longest
    run of digits; [NaN] when that run is empty. *)
Definition parseInt (x : option string) : JsInt :=
  match x with
  | None => NaN
  | Some s =>
      let s0 := skip_ws s in
      let '(neg, s1) :=
        match s0 with
        | String c r =>
            if Ascii.eqb c "-" then (true, r)
            else if Ascii.eqb c "+" then (false, r)
            else (false, s0)
        | EmptyString => (false, s0)
        end in
      let '(v, n) :=
        match s1 with
        | String z (String x' r) =>
            if Ascii.eqb z "0" && (Ascii.eqb x' "x" || Ascii.eqb x' "X")
            then hex_digits r 0%Z 0%nat
            else let '(v, n, _) := JsonParse.lex_digits s1 0%Z 0%nat in (v, n)
        | _ => let '(v, n, _) := JsonParse.lex_digits s1 0%Z 0%nat in (v, n)
        end in
      if Nat.eqb n 0 then NaN else Int (if neg then - v else v)%Z
  end.

(** [!n] for a number: [NaN] and zero are falsy. *)
Definition not_int (n : JsInt) : bool :=
  match n with
  | NaN => true
  | Int z => (z =? 0)%Z
  end.

(** [!s] for a string or [null]. *)
Definition not_str (s : option string) : bool :=
  match s with
  | None => true
  | Some t => String.eqb t ""
  end.

(** [VehicleInfo] *)
Record VehicleInfo : Type := {
  vi_year : JsInt;
  vi_make : string;
  vi_model : string;
  vi_vin : option string;
  vi_mileage : option JsInt
}.

(** The body and status of a [NextResponse.json<DiagnosticResponse>]. *)
Record Response : Type := {
  status : Z;
  success : bool;
  error : option string;
  diagnosis : option json;
  diagnosisId : option string;
  creditsRemaining : option Z
}.

Definition failure (code : Z) (msg : string) : Response :=
  {| status := code; success := false; error := Some msg;
     diagnosis := None; diagnosisId := None; creditsRemaining := None |}.

(** The calls that leave the handler, in the order they are made. *)
Inductive Event : Type :=
| EvSelectUser (uid : string)
| EvFormData
| EvPut (f : File)
| EvAnalyzeAudio (f : File)
| EvDiagnose (symptom : string)
| EvDecrementCredits (uid : string)
| EvInsertDiagnosis
| EvSelectCredits (uid : string).

(** The uploads and the audio analysis. *)
Definition is_media (e : Event) : bool :=
  match e with
  | EvPut _ | EvAnalyzeAudio _ => true
  | _ => false
  end.

(** The call of the diagnosis engine, where the embedding, the evidence
    store and the generative service are reached. *)
Definition is_diagnose (e : Event) : bool :=
  match e with
  | EvDiagnose _ => true
  | _ => false
  end.

Definition is_decrement (e : Event) : bool :=
  match e with
  | EvDecrementCredits _ => true
  | _ => false
  end.

(** What the collaborators answer during one request.  The engine
    ([EnhancedDiagnosticRAG.diagnose]) returns a report object or throws;
    the Supabase client reports failures in [error] and does not throw. *)
Record World : Type := {
  getUserFromHeaders : option string;
  select_user_ok : bool;
  request_formData : result FormData;
  blob_put : File -> option string;
  analyzeAudio : File -> option json;
  engine_diagnose :
    VehicleInfo -> string -> option json -> option (list string)
    -> result (list (string * json));
  rpc_ok : bool;
  insert_ok : option string;
  select_credits_ok : bool
}.

Record HState : Type := {
  db : Database;
  trace : list Event
}.

(** Control leaves a statement by falling through, by [return] of a
    response, or by a thrown exception. *)
Inductive Flow (A : Type) : Type :=
| Next (a : A)
| Respond (r : Response)
| Raise (e : string).
Arguments Next {A} a.
Arguments Respond {A} r.
Arguments Raise {A} e.

Definition Handler (A : Type) : Type := HState -> Flow A * HState.

#[global] Instance handler_ret : MRet Handler :=
  fun _ a st => (Next a, st).
#[global] Instance handler_bind : MBind Handler :=
  fun _ _ k m st =>
    match m st with
    | (Next a, st') => k a st'
    | (Respond r, st') => (Respond r, st')
    | (Raise e, st') => (Raise e, st')
    end.

Definition emit (e : Event) : Handler unit :=
  fun st => (Next tt, {| db := db st; trace := trace st ++ [e] |}).

Definition respond {A} (r : Response) : Handler A :=
  fun st => (Respond r, st).

Definition raise {A} (e : string) : Handler A :=
  fun st => (Raise e, st).

Definition read_db : Handler Database :=
  fun st => (Next (db st), st).

Definition write_db (d : Database) : Handler unit :=
  fun st => (Next tt, {| db := d; trace := trace st |}).

Section Post.

Variable w : World.

(** [supabaseAdmin.from('users').select('*').eq('id', id).single()] *)
Definition select_user (uid : string) : Handler (option Z) :=
  emit (EvSelectUser uid);;
  d ← read_db;
  mret (if select_user_ok w then users d !! uid else None).

(** [await request.formData()] *)
Definition await_formData : Handler FormData :=
  emit EvFormData;;
  match request_formData w with
  | Ok f => mret f
  | Throw e => raise e
  end.

(** The audio block: upload, then analysis, inside one [try]; a failure
    of either is caught and the request continues.  The URL assigned
    before a failing analysis stays assigned. *)
Definition process_audio (a : option File)
  : Handler (option string * option json) :=
  match a with
  | Some f =>
      if (0 <? file_size f)%Z then
        emit (EvPut f);;
        match blob_put w f with
        | None => mret (None, None)
        | Some url =>
            emit (EvAnalyzeAudio f);;
            mret (Some url, analyzeAudio w f)
        end
      else mret (None, None)
  | None => mret (None, None)
  end.

(** The photo loop: each non-empty photo is uploaded in its own [try]. *)
Fixpoint upload_photos (fs : list File) (urls : list string)
  : Handler (list string) :=
  match fs with
  | [] => mret urls
  | f :: rest =>
      if (0 <? file_size f)%Z then
        emit (EvPut f);;
        match blob_put w f with
        | Some url => upload_photos rest (urls ++ [url])
        | None => upload_photos rest urls
        end
      else upload_photos rest urls
  end.

(** [await diagnosticRAG.diagnose(...)] *)
Definition await_diagnose (v : VehicleInfo) (symptom : string)
  (audioAnalysis : option json) (photos : option (list string))
  : Handler (list (string * json)) :=
  emit (EvDiagnose symptom);;
  match engine_diagnose w v symptom audioAnalysis photos with
  | Ok d => mret d
  | Throw e => raise e
  end.

(** [supabaseAdmin.rpc('decrement_user_credits', ...)]: [true] is a
    [creditError]. *)
Definition rpc_decrement (uid : string) : Handler bool :=
  emit (EvDecrementCredits uid);;
  if rpc_ok w then
    d ← read_db;
    write_db {| users := snd (decrement_user_credits uid 1 (users d));
                diagnoses := diagnoses d |};;
    mret false
  else mret true.

(** [.from('diagnoses').insert([row]).select().single()]: the id of the
    saved row, or [None] with a [saveError]. *)
Definition insert_diagnosis (row : DiagnosisRow) : Handler (option string) :=
  emit EvInsertDiagnosis;;
  match insert_ok w with
  | Some id =>
      d ← read_db;
      write_db {| users := users d; diagnoses := diagnoses d ++ [row] |};;
      mret (Some id)
  | None => mret None
  end.

(** [.from('users').select('credits').eq('id', id).single()] *)
Definition select_credits (uid : string) : Handler (option Z) :=
  emit (EvSelectCredits uid);;
  d ← read_db;
  mret (if select_credits_ok w then users d !! uid else None).

Definition nonempty_urls (urls : list string) : option (list string) :=
  match urls with
  | [] => None
  | _ => Some urls
  end.

(** [form.get(k) as string || undefined] *)
Definition or_undefined (s : option string) : option string :=
  if not_str s then None else s.

(** [!vehicleYear || !vehicleMake || !vehicleModel || !symptomText] *)
Definition missing_fields (f : FormData) : bool :=
  not_int (parseInt (vehicleYear f)) || not_str (vehicleMake f)
  || not_str (vehicleModel f) || not_str (symptomText f).

(** [vehicleData] *)
Definition vehicle_info (f : FormData) : VehicleInfo :=
  {| vi_year := parseInt (vehicleYear f);
     vi_make := default "" (vehicleMake f);
     vi_model := default "" (vehicleModel f);
     vi_vin := or_undefined (vin f);
     vi_mileage :=
       if not_str (mileage f) then None else Some (parseInt (mileage f)) |}.

(** The row passed to [insert]. *)
Definition diagnosis_row (userId : string) (f : FormData)
  (audioUrl : option string) (photoUrls : list string)
  (diag : list (string * json)) : DiagnosisRow :=
  {| user_id := userId;
     vehicle_year :=
       match parseInt (vehicleYear f) with Int z => z | NaN => 0%Z end;
     vehicle_make := default "" (vehicleMake f);
     vehicle_model := default "" (vehicleModel f);
     symptom_text := default "" (symptomText f);
     audio_url := audioUrl;
     photo_urls := nonempty_urls photoUrls;
     diagnosis_result := JObj diag;
     credits_used := 1 |}.

(** The final response; [creditsRemaining] is
    [updatedUser?.credits || 0]. *)
Definition success_response (diag : list (string * json))
  (savedDiagnosis : option string) (updatedUser : option Z) : Response :=
  {| status := 200; success := true; error := None;
     diagnosis := Some (JObj diag);
     diagnosisId := savedDiagnosis;
     creditsRemaining := Some (default 0%Z updatedUser) |}.

(** The body of the [try] of [POST]. *)
Definition post_body : Handler Response :=
  match getUserFromHeaders w with
  | None => respond (failure 401 "Unauthorized")
  | Some userId =>
      user ← select_user userId;
      match user with
      | None => respond (failure 404 "User not found")
      | Some credits =>
          if (credits <? 1)%Z
          then respond (failure 402 "Insufficient credits")
          else
            formData ← await_formData;
            if missing_fields formData
            then respond (failure 400 "Missing required fields")
            else
              '(audioUrl, audioAnalysis) ← process_audio (audioFile formData);
              photoUrls ← upload_photos (photoFiles formData) [];
              diag ← await_diagnose (vehicle_info formData)
                       (default "" (symptomText formData))
                       audioAnalysis (nonempty_urls photoUrls);
              creditError ← rpc_decrement userId;
              savedDiagnosis ← insert_diagnosis
                (diagnosis_row userId formData audioUrl photoUrls diag);
              updatedUser ← select_credits userId;
              mret (success_response diag savedDiagnosis updatedUser)
      end
  end.

(** [POST]: the [try] and its [catch], which answers 500 with the error's
    message.  The result is the response, the database afterwards, and
    the calls made. *)
Definition POST (d : Database) : Response * Database * list Event :=
  match post_body {| db := d; trace := [] |} with
  | (Next r, st) => (r, db st, trace st)
  | (Respond r, st) => (r, db st, trace st)
  | (Raise e, st) => (failure 500 e, db st, trace st)
  end.

(** The database after the deduction step. *)
Definition after_decrement (uid : string) (d : Database) : Database :=
  if rpc_ok w
  then {| users := snd (decrement_user_credits uid 1 (users d));
          diagnoses := diagnoses d |}
  else d.

(** The database after the insert. *)
Definition after_insert (row : DiagnosisRow) (d : Database) : Database :=
  match insert_ok w with
  | Some _ => {| users := users d; diagnoses := diagnoses d ++ [row] |}
  | None => d
  end.

(** The seven shapes a run of [POST] can have: the four early returns,
    the two exceptions caught by the outer [catch], and the completed
    request. *)
Inductive Run (d : Database) : Response * Database * list Event -> Prop :=
| RunUnauthorized :
    getUserFromHeaders w = None ->
    Run d (failure 401 "Unauthorized", d, [])
| RunNoUser uid :
    getUserFromHeaders w = Some uid ->
    (if select_user_ok w then users d !! uid else None) = None ->
    Run d (failure 404 "User not found", d, [EvSelectUser uid])
| RunNoCredits uid credits :
    getUserFromHeaders w = Some uid ->
    select_user_ok w = true -> users d !! uid = Some credits ->
    (credits < 1)%Z ->
    Run d (failure 402 "Insufficient credits", d, [EvSelectUser uid])
| RunFormThrows uid credits e :
    getUserFromHeaders w = Some uid ->
    select_user_ok w = true -> users d !! uid = Some credits ->
    (1 <= credits)%Z ->
    request_formData w = Throw e ->
    Run d (failure 500 e, d, [EvSelectUser uid; EvFormData])
| RunMissingFields uid credits f :
    getUserFromHeaders w = Some uid ->
    select_user_ok w = true -> users d !! uid = Some credits ->
    (1 <= credits)%Z ->
    request_formData w = Ok f -> missing_fields f = true ->
    Run d (failure 400 "Missing required fields", d,
           [EvSelectUser uid; EvFormData])
| RunEngineThrows uid credits f audioAnalysis photoUrls media e :
    getUserFromHeaders w = Some uid ->
    select_user_ok w = true -> users d !! uid = Some credits ->
    (1 <= credits)%Z ->
    request_formData w = Ok f -> missing_fields f = false ->
    forallb is_media media = true ->
    engine_diagnose w (vehicle_info f) (default "" (symptomText f))
      audioAnalysis (nonempty_urls photoUrls) = Throw e ->
    Run d (failure 500 e, d,
           ([EvSelectUser uid; EvFormData] ++ media
            ++ [EvDiagnose (default "" (symptomText f))])%list)
| RunCompleted uid credits f audioUrl audioAnalysis photoUrls media diag :
    getUserFromHeaders w = Some uid ->
    select_user_ok w = true -> users d !! uid = Some credits ->
    (1 <= credits)%Z ->
    request_formData w = Ok f -> missing_fields f = false ->
    forallb is_media media = true ->
    engine_diagnose w (vehicle_info f) (default "" (symptomText f))
      audioAnalysis (nonempty_urls photoUrls) = Ok diag ->
    let row := diagnosis_row uid f audioUrl photoUrls diag in
    let d' := after_insert row (after_decrement uid d) in
    Run d (success_response diag (insert_ok w)
             (if select_credits_ok w then users d' !! uid else None),
           d',
           ([EvSelectUser uid; EvFormData] ++ media
            ++ [EvDiagnose (default "" (symptomText f));
                EvDecrementCredits uid; EvInsertDiagnosis;
                EvSelectCredits uid])%list).

End Post.

End Route.

(** ** Text helpers *)

Module Text.

Definition is_space (c : ascii) : bool :=
  let n := nat_of_ascii c in
  Nat.eqb n 32 || (Nat.leb 9 n && Nat.leb n 13).

Fixpoint trim_start (s : string) : string :=
  match s with
  | EmptyString => s
  | String c r => if is_space c then trim_start r else s
  end.

(** [s] without trailing white space. *)
Fixpoint trim_end (s : string) : string :=
  match s with
  | EmptyString => EmptyString
  | String c r =>
      match trim_end r with
      | EmptyString => if is_space c then EmptyString else String c ""
      | r' => String c r'
      end
  end.

(** Whether the character [c] occurs in [s]. *)
Fixpoint has_char (c : ascii) (s : string) : bool :=
  match s with
  | EmptyString => false
  | String c' r => Ascii.eqb c' c || has_char c r
  end.

(** [s.trim()] *)
Definition trim (s : string) : string := trim_end (trim_start s).

(** The parts joined by single spaces. *)
Fixpoint unwords (parts : list string) : string :=
  match parts with
  | [] => EmptyString
  | [p] => p
  | p :: rest => p +:+ " " +:+ unwords rest
  end.

(** The number of positions of [s] at which [pat] occurs. *)
Fixpoint occurrences (pat s : string) : nat :=
  match s with
  | EmptyString => if String.prefix pat s then 1 else 0
  | String _ r => (if String.prefix pat s then 1 else 0) + occurrences pat r
  end.

End Text.

(** ** The retrieval-augmented engine

    Modelled from the spec: the engine behind
    [EnhancedDiagnosticRAG.diagnose] is not among the sources.  This
    module has its query composition and its retrieval, and everything in
    it follows the specification's sections 3 and 4.2; the embedding
    service and the similarity metric are parameters.  The synthesis the
    sources do have is [performAIDiagnosis] of the prototype and the
    Express route, in modules [Prototype] and [Server]. *)

Module Engine.

(** Modelled from the spec: the severity levels of section 3. *)
Inductive Severity : Type := low | medium | high | critical.

(** Modelled from the spec: the vehicle scope of an evidence document
    (section 3). *)
Record VehicleScope : Type := {
  scope_make : string;
  scope_model : string;
  yearMin : Z;
  yearMax : Z
}.

(** Modelled from the spec: EvidenceDocument (section 3). *)
Record EvidenceDocument : Type := {
  id : string;
  vehicleScope : VehicleScope;
  component : string;
  doc_symptomText : string;
  diagnosisText : string;
  remedyText : string;
  severity : Severity;
  embedding : list Q
}.

(** Modelled from the spec: the vehicle of a query (section 3). *)
Record Vehicle : Type := {
  year : Z;
  make : string;
  model : string;
  vin : option string;
  mileage : option Z
}.

(** Modelled from the spec: the audio signal of a query (section 3). *)
Record AudioSignal : Type := {
  label : string;
  confidence : Q
}.

(** Modelled from the spec: DiagnosticQuery (section 3). *)
Record DiagnosticQuery : Type := {
  vehicle : Vehicle;
  symptomText : string;
  audioSignal : option AudioSignal;
  photoCount : option Z
}.

(** Modelled from the spec: EvidenceMatch (section 3). *)
Record EvidenceMatch : Type := {
  document : EvidenceDocument;
  similarityScore : Q
}.

(** Modelled from the spec: the configured constants [K] and minimum
    similarity. *)
Record Config : Type := {
  K : nat;
  minSimilarity : Q
}.

(** Modelled from the spec: the default constants, K = 5 and cutoff 0.15. *)
Definition default_config : Config :=
  {| K := 5; minSimilarity := 15 # 100 |}.

(** *** Query composition (section 4.2, step 1) *)

(** Modelled from the spec: the number of repeats of the audio label, one
    per 0.2 of confidence above 0.5. *)
Definition audio_repeats (c : Q) : nat :=
  if Qle_bool c (1 # 2) then 0%nat
  else Z.to_nat (Qfloor ((c - (1 # 2)) / (1 # 5))).

(** Modelled from the spec: the label, present once with the signal and
    repeated once more per 0.2 of confidence above 0.5. *)
Definition audio_parts (a : option AudioSignal) : list string :=
  match a with
  | None => []
  | Some sig =>
      label sig :: replicate (audio_repeats (confidence sig)) (label sig)
  end.

(** Modelled from the spec: the composed retrieval query, in fixed order
    year, make, model, symptom text, audio label. *)
Definition composeQuery (q : DiagnosticQuery) : string :=
  Text.unwords
    ([pretty (year (vehicle q)); make (vehicle q); model (vehicle q);
      symptomText q] ++ audio_parts (audioSignal q)).

(** *** Retrieval (section 4.2, steps 2 to 5) *)

(** Modelled from the spec: the id of the document a match carries. *)
Definition doc_id (m : EvidenceMatch) : string := id (document m).

(** Modelled from the spec: insertion into a list ranked by similarity. *)
Fixpoint insert_desc (m : EvidenceMatch) (l : list EvidenceMatch)
  : list EvidenceMatch :=
  match l with
  | [] => [m]
  | x :: r =>
      if Qle_bool (similarityScore x) (similarityScore m)
      then m :: l
      else x :: insert_desc m r
  end.

(** Modelled from the spec: Non-increasing similarity from earlier to later. *)
Definition ranked (a b : EvidenceMatch) : Prop :=
  (similarityScore b <= similarityScore a)%Q.

(** Modelled from the spec: Descending by similarity. *)
Definition sort_desc (l : list EvidenceMatch) : list EvidenceMatch :=
  foldr insert_desc [] l.

(** Modelled from the spec: The first match per document id. *)
Fixpoint dedupe (seen : gset string) (l : list EvidenceMatch)
  : list EvidenceMatch :=
  match l with
  | [] => []
  | m :: r =>
      if decide (doc_id m ∈ seen) then dedupe seen r
      else m :: dedupe ({[doc_id m]} ∪ seen) r
  end.

(** Modelled from the spec: the match of highest similarity, the earlier one
    on a tie. *)
Fixpoint best_match (l : list EvidenceMatch) : option EvidenceMatch :=
  match l with
  | [] => None
  | m :: r =>
      match best_match r with
      | Some b =>
          if Qle_bool (similarityScore b) (similarityScore m)
          then Some m else Some b
      | None => Some m
      end
  end.

(** Modelled from the spec: the metadata filter of section 4.2, step 3: same
    make, year within the range. *)
Definition in_scope (v : Vehicle) (d : EvidenceDocument) : bool :=
  String.eqb (scope_make (vehicleScope d)) (make v)
  && (yearMin (vehicleScope d) <=? year v)%Z
  && (year v <=? yearMax (vehicleScope d))%Z.

(** Modelled from the spec: the documents the search of step 3 ranges
    over: those whose scope contains the vehicle, or the full store when
    no document is in scope. *)
Definition searched (docs : list EvidenceDocument) (q : DiagnosticQuery)
  : list EvidenceDocument :=
  match List.filter (in_scope (vehicle q)) docs with
  | [] => docs
  | scoped => scoped
  end.

Section Engine.

(** The embedding service; [None] is an [EmbeddingError]. *)
Variable embed : string -> option (list Q).
(** The store's similarity metric. *)
Variable similarity : list Q -> list Q -> Q.
Variable cfg : Config.

(** Modelled from the spec: the Evidence Store's
    [query(vector, k, filter)], the [k] nearest neighbours among the
    documents the filter admits. *)
Definition store_query (docs : list EvidenceDocument) (v : list Q)
  (k : nat) (keep : EvidenceDocument -> bool) : list EvidenceMatch :=
  take k
    (sort_desc
       (map (fun d => {| document := d;
                          similarityScore := similarity v (embedding d) |})
          (List.filter keep docs))).

(** Modelled from the spec: a document with its similarity to the query
    vector, as the store reports a match. *)
Definition scored (v : list Q) (d : EvidenceDocument) : EvidenceMatch :=
  {| document := d; similarityScore := similarity v (embedding d) |}.

(** Modelled from the spec: step 3, the search filtered to the vehicle's
    scope, and the unfiltered search when that finds nothing. *)
Definition candidates (docs : list EvidenceDocument) (v : list Q)
  (q : DiagnosticQuery) : list EvidenceMatch :=
  match store_query docs v (K cfg) (in_scope (vehicle q)) with
  | [] => store_query docs v (K cfg) (fun _ => true)
  | scoped => scoped
  end.

(** Modelled from the spec: the cutoff test of section 4.2, step 4. *)
Definition above_threshold (m : EvidenceMatch) : bool :=
  Qle_bool (minSimilarity cfg) (similarityScore m).

(** Modelled from the spec: step 4, the matches at or above the minimum
    similarity, or the single best match when there are none. *)
Definition apply_threshold (l : list EvidenceMatch) : list EvidenceMatch :=
  match List.filter above_threshold l with
  | [] =>
      match best_match l with
      | Some b => [b]
      | None => []
      end
  | kept => kept
  end.

(** Modelled from the spec: the Evidence Retriever.  [store] is [None]
    when the Evidence Store is unreachable; that and a failed embedding
    both degrade to no evidence. *)
Definition retrieve (store : option (list EvidenceDocument))
  (q : DiagnosticQuery) : list EvidenceMatch :=
  match embed (composeQuery q) with
  | None => []
  | Some v =>
      match store with
      | None => []
      | Some docs =>
          take (K cfg)
            (sort_desc (dedupe ∅ (apply_threshold (candidates docs v q))))
      end
  end.

End Engine.

(** *** Severities (section 3) *)

(** Modelled from the spec: the severity a text names, if any. *)
Definition severity_of (s : string) : option Severity :=
  if String.eqb s "low" then Some low
  else if String.eqb s "medium" then Some medium
  else if String.eqb s "high" then Some high
  else if String.eqb s "critical" then Some critical
  else None.

(** Modelled from the spec: the name of a severity. *)
Definition severity_name (s : Severity) : string :=
  match s with
  | low => "low"
  | medium => "medium"
  | high => "high"
  | critical => "critical"
  end.

(** Modelled from the spec: the severities at which the vehicle is not safe
    to drive. *)
Definition unsafe_severity (s : Severity) : bool :=
  match s with
  | high | critical => true
  | _ => false
  end.

End Engine.

(** ** The specification's wording, for comparison with the prototype

    These definitions follow the specification, not the code: the first
    balanced brace block of a text, the hard validation rules read on a
    JSON report, and the fallback report the specification describes. *)

Module Spec.

Definition cons_opt (c : ascii) (o : option string) : option string :=
  match o with
  | Some s => Some (String c s)
  | None => None
  end.

(** After an opening brace, with [depth] further braces open: the text up
    to and including the brace that closes the first one. *)
Fixpoint close_block (depth : nat) (s : string) : option string :=
  match s with
  | EmptyString => None
  | String c r =>
      if Ascii.eqb c "}" then
        match depth with
        | O => Some (String c "")
        | S d => cons_opt c (close_block d r)
        end
      else if Ascii.eqb c "{" then cons_opt c (close_block (S depth) r)
      else cons_opt c (close_block depth r)
  end.

Definition balanced_here (s : string) : option string :=
  match s with
  | String c r => if Ascii.eqb c "{" then cons_opt c (close_block 0 r) else None
  | EmptyString => None
  end.

(** The first balanced [{...}] block of a text. *)
Fixpoint first_balanced_block (s : string) : option string :=
  match balanced_here s with
  | Some b => Some b
  | None =>
      match s with
      | EmptyString => None
      | String _ r => first_balanced_block r
      end
  end.

Definition is_severity (v : option json) : bool :=
  match v with
  | Some (JStr s) => bool_decide (is_Some (Engine.severity_of s))
  | _ => false
  end.

Definition nonempty_text (v : option json) : bool :=
  match v with
  | Some (JStr s) => negb (String.eqb s "")
  | _ => false
  end.

Definition unit_interval (v : option json) : bool :=
  match v with
  | Some (JNum q) => Qle_bool 0 q && Qle_bool q 1
  | _ => false
  end.

(** Step numbers 1, 2, 3, ... under the key [stepNumber]. *)
Fixpoint steps_from (n : Z) (steps : list json) : bool :=
  match steps with
  | [] => true
  | s :: r =>
      match field "stepNumber" s with
      | Some (JNum q) => Qeq_bool q (inject_Z n) && steps_from (n + 1) r
      | _ => false
      end
  end.

Definition steps_ok (v : option json) : bool :=
  match v with
  | Some (JArr steps) => steps_from 1 steps
  | Some _ => false
  | None => true
  end.

(** A range [{min, max}] with [0 <= min <= max]; an absent range passes. *)
Definition range_valid (v : option json) : bool :=
  match v with
  | None => true
  | Some r =>
      match field "min" r, field "max" r with
      | Some (JNum lo), Some (JNum hi) => Qle_bool 0 lo && Qle_bool lo hi
      | _, _ => false
      end
  end.

Definition cost_ok (v : option json) : bool :=
  match v with
  | None => true
  | Some c =>
      range_valid (field "partsRange" c) && range_valid (field "laborRange" c)
      && range_valid (field "totalRange" c)
      && match field "min" c with
         | Some _ => range_valid (Some c)
         | None => true
         end
  end.

(** The hard rules of section 4.3, read on a JSON report. *)
Definition valid_report (r : json) : bool :=
  nonempty_text (field "primaryDiagnosis" r)
  && is_severity (field "severity" r)
  && unit_interval (field "confidence" r)
  && steps_ok (field "repairSteps" r)
  && cost_ok (field "estimatedCost" r).

(** The report's diagnosis text, under the specification's key or the
    prototype's. *)
Definition diagnosis_text (r : json) : option json :=
  match field "primaryDiagnosis" r with
  | Some v => Some v
  | None => field "diagnosis" r
  end.

(** The ids a JSON report cites. *)
Definition cited_ids (r : json) : list string :=
  match field "citedEvidenceIds" r with
  | Some (JArr ids) =>
      omap (fun v => match v with JStr s => Some s | _ => None end) ids
  | _ => []
  end.

(** Whether every id the report cites is among the retrieved ones. *)
Definition cites_only (retrieved : list string) (r : json) : bool :=
  forallb (fun c => existsb (String.eqb c) retrieved) (cited_ids r).

(** The fallback report of section 4.3, step 4, as a relation between the
    evidence and a JSON report. *)
Definition fallback_as_specified (evidence : list Engine.EvidenceMatch)
  (r : json) : Prop :=
  let sev :=
    match evidence with
    | top :: _ => Engine.severity (Engine.document top)
    | [] => Engine.medium
    end in
  match evidence with
  | top :: _ =>
      diagnosis_text r
      = Some (JStr (Engine.diagnosisText (Engine.document top)))
  | [] => exists msg, diagnosis_text r = Some (JStr msg)
  end
  /\ field "severity" r = Some (JStr (Engine.severity_name sev))
  /\ field "safeToDrive" r = Some (JBool (negb (Engine.unsafe_severity sev)))
  /\ (exists c, field "confidence" r = Some (JNum c)
        /\ Qeq c (match evidence with _ :: _ => 3 # 10 | [] => 1 # 10 end))
  /\ field "usedFallback" r = Some (JBool true).

End Spec.

(** ** Concrete data for the examples *)

Module Examples.

Definition civic : Prototype.VehicleData :=
  {| Prototype.year := "2015"; Prototype.make := "Honda";
     Prototype.model := "Civic" |}.

(** [text] as the inside of a JSON string literal: quotes and
    backslashes escaped. *)
Fixpoint escape (text : string) : string :=
  match text with
  | EmptyString => EmptyString
  | String c r =>
      if Ascii.eqb c "034" || Ascii.eqb c "\"
      then String "\" (String c (escape r))
      else String c (escape r)
  end.

(** A reply body of the generation service whose single text item is
    [text]. *)
Definition body_of (text : string) : string :=
  JsonParse.dq "{'content':[{'type':'text','text':'" +:+ escape text
  +:+ JsonParse.dq "'}]}".

(** A reply body as the messages API sends it: identification, model and
    usage around [content], whose first item is a block of another type
    and whose second is the text item holding [text]. *)
Definition api_body_of (text : string) : string :=
  JsonParse.dq
    "{'id':'msg_01','type':'message','role':'assistant','model':'claude-sonnet-4-20250514','content':[{'type':'thinking','thinking':'brakes'},{'type':'text','text':'"
  +:+ escape text
  +:+ JsonParse.dq
    "'},{'type':'text','text':'{}'}],'stop_reason':'end_turn','usage':{'input_tokens':212,'output_tokens':87}}".

(** The step numbers of a report's [repairSteps], under the prototype's
    key [step]. *)
Definition step_numbers (r : json) : list (option json) :=
  match field "repairSteps" r with
  | Some (JArr steps) => map (field "step") steps
  | _ => []
  end.

Definition brake_document : Engine.EvidenceDocument :=
  {| Engine.id := "tsb-003";
     Engine.vehicleScope :=
       {| Engine.scope_make := "Honda"; Engine.scope_model := "Civic";
          Engine.yearMin := 2012; Engine.yearMax := 2016 |};
     Engine.component := "Brakes";
     Engine.doc_symptomText := "grinding noise when braking";
     Engine.diagnosisText := "worn brake pads";
     Engine.remedyText := "Replace the front brake pads";
     Engine.severity := Engine.high;
     Engine.embedding := [1%Q] |}.

Definition brake_match : Engine.EvidenceMatch :=
  {| Engine.document := brake_document; Engine.similarityScore := 9 # 10 |}.

(** A reply that breaks every hard rule, under the specification's keys
    and under the prototype's. *)
Definition broken_reply : string :=
  JsonParse.dq
    "{'primaryDiagnosis':'','diagnosis':'','severity':'catastrophic','confidence':7,'repairSteps':[{'stepNumber':4,'step':4}],'estimatedCost':{'min':9,'max':1}}".

Definition broken_report : json :=
  JObj [("primaryDiagnosis", JStr ""); ("diagnosis", JStr "");
        ("severity", JStr "catastrophic"); ("confidence", JNum 7);
        ("repairSteps", JArr [JObj [("stepNumber", JNum 4); ("step", JNum 4)]]);
        ("estimatedCost", JObj [("min", JNum 9); ("max", JNum 1)])].

(** A reply that cites a document no retrieval returned. *)
Definition citing_reply : string :=
  JsonParse.dq
    "{'diagnosis':'worn brake pads','severity':'high','citedEvidenceIds':['tsb-999']}".

Definition citing_report : json :=
  JObj [("diagnosis", JStr "worn brake pads"); ("severity", JStr "high");
        ("citedEvidenceIds", JArr [JStr "tsb-999"])].

(** Prose around one object, and prose around two. *)
Definition one_object_reply : string :=
  JsonParse.dq "Here is the diagnosis: {'diagnosis':'worn brake pads'} Hope it helps.".

Definition two_object_reply : string :=
  JsonParse.dq "{'diagnosis':'worn brake pads'} or else {'diagnosis':'warped rotors'}".

(** A request for a 2015 Honda Civic with the given symptom text. *)
Definition form_with (symptom : option string) : Route.FormData :=
  {| Route.vehicleYear := Some "2015";
     Route.vehicleMake := Some "Honda";
     Route.vehicleModel := Some "Civic";
     Route.vin := None;
     Route.mileage := None;
     Route.symptomText := symptom;
     Route.audioFile := None;
     Route.photoFiles := [] |}.

Definition brake_report : list (string * json) :=
  [("primaryDiagnosis", JStr "worn brake pads"); ("severity", JStr "high")].

(** User [u1] is authenticated; the engine answers as given; the credit
    deduction succeeds or not as given; everything else works. *)
Definition world_with (symptom : option string)
  (engine : result (list (string * json))) (rpc : bool) : Route.World :=
  {| Route.getUserFromHeaders := Some "u1";
     Route.select_user_ok := true;
     Route.request_formData := Ok (form_with symptom);
     Route.blob_put := fun f => Some (Route.file_name f);
     Route.analyzeAudio := fun _ => None;
     Route.engine_diagnose := fun _ _ _ _ => engine;
     Route.rpc_ok := rpc;
     Route.insert_ok := Some "d1";
     Route.select_credits_ok := true |}.

(** One user, [u1], with two credits and no diagnosis yet. *)
Definition two_credits : Database :=
  {| users := {[ "u1" := 2%Z ]}; diagnoses := [] |}.

(** Stubs for the engine's collaborators: every text embeds to the same
    vector, and a document's similarity is the first component of its
    embedding. *)
Definition embed_stub (text : string) : option (list Q) := Some [1%Q].

Definition similarity_stub (v e : list Q) : Q :=
  match e with
  | x :: _ => x
  | [] => 0%Q
  end.

Definition whine : Engine.AudioSignal :=
  {| Engine.label := "high-pitch whine"; Engine.confidence := 9 # 10 |}.

Definition civic_query : Engine.DiagnosticQuery :=
  {| Engine.vehicle :=
       {| Engine.year := 2015; Engine.make := "Honda";
          Engine.model := "Civic"; Engine.vin := None;
          Engine.mileage := None |};
     Engine.symptomText := "grinding noise when braking";
     Engine.audioSignal := Some whine;
     Engine.photoCount := None |}.

(** Two documents for another make, both far below the cutoff. *)
Definition faint_document (name : string) (score : Q)
  : Engine.EvidenceDocument :=
  {| Engine.id := name;
     Engine.vehicleScope :=
       {| Engine.scope_make := "Ford"; Engine.scope_model := "F-150";
          Engine.yearMin := 2020; Engine.yearMax := 2020 |};
     Engine.component := "Engine";
     Engine.doc_symptomText := "rough idle";
     Engine.diagnosisText := "faulty ignition coil";
     Engine.remedyText := "Replace the ignition coil";
     Engine.severity := Engine.medium;
     Engine.embedding := [score] |}.

Definition faint_store : list Engine.EvidenceDocument :=
  [faint_document "tsb-101" (5 # 100); faint_document "tsb-102" (1 # 10)].

End Examples.

(** ** The image uploader component

    [handleFiles] and [removeImage] of [ImageUploader].  The component's
    state is the selected files and their previews; the parent hears of
    every accepted change through [onImagesSelected].  A preview arrives
    later, when the file reader has loaded the file. *)

Module ImageUploader.

(** A [File]: its name and its MIME type. *)
Record ImageFile : Type := {
  name : string;
  type : string
}.

Record State : Type := {
  files : list ImageFile;
  previews : list string;
  (** the arguments of the calls of [onImagesSelected], oldest first *)
  selected : list (list ImageFile);
  (** the messages shown with [alert], oldest first *)
  alerts : list string
}.

Definition initial : State :=
  {| files := []; previews := []; selected := []; alerts := [] |}.

(** [file.type.startsWith('image/')] *)
Definition is_image (f : ImageFile) : bool := String.prefix "image/" (type f).

(** [l.filter((_, i) => keep(i))], with [i] counted from [from]. *)
Fixpoint filter_index {A} (keep : nat -> bool) (from : nat) (l : list A)
  : list A :=
  match l with
  | [] => []
  | x :: r =>
      if keep from then x :: filter_index keep (S from) r
      else filter_index keep (S from) r
  end.

(** [handleFiles(selectedFiles)] *)
Definition handleFiles (maxImages : nat) (selectedFiles : list ImageFile)
  (st : State) : State :=
  let imageFiles := List.filter is_image selectedFiles in
  if Nat.ltb maxImages (List.length (files st) + List.length imageFiles) then
    {| files := files st; previews := previews st; selected := selected st;
       alerts := (alerts st
                  ++ ["Maximum " +:+ pretty maxImages +:+ " images allowed"])%list |}
  else
    let newFiles := (files st ++ imageFiles)%list in
    {| files := newFiles; previews := previews st;
       selected := (selected st ++ [newFiles])%list; alerts := alerts st |}.

(** [reader.onloadend]: one more preview. *)
Definition previewLoaded (dataUrl : string) (st : State) : State :=
  {| files := files st; previews := (previews st ++ [dataUrl])%list;
     selected := selected st; alerts := alerts st |}.

(** [removeImage(index)] *)
Definition removeImage (index : nat) (st : State) : State :=
  let newFiles := filter_index (fun i => negb (Nat.eqb i index)) 0 (files st) in
  let newPreviews :=
    filter_index (fun i => negb (Nat.eqb i index)) 0 (previews st) in
  {| files := newFiles; previews := newPreviews;
     selected := (selected st ++ [newFiles])%list; alerts := alerts st |}.

(** What the user can do to the component. *)
Inductive Action : Type :=
| Select (selectedFiles : list ImageFile)
| Loaded (dataUrl : string)
| Remove (index : nat).

Definition step (maxImages : nat) (a : Action) (st : State) : State :=
  match a with
  | Select fs => handleFiles maxImages fs st
  | Loaded url => previewLoaded url st
  | Remove i => removeImage i st
  end.

Definition run (maxImages : nat) (actions : list Action) (st : State)
  : State :=
  fold_left (fun s a => step maxImages a s) actions st.

(** The parent was last told of exactly the files the component holds. *)
Definition in_sync (st : State) : Prop :=
  match selected st with
  | [] => files st = []
  | _ => last (selected st) = Some (files st)
  end.

Definition invariant (maxImages : nat) (st : State) : Prop :=
  List.length (files st) <= maxImages
  /\ forallb is_image (files st) = true
  /\ in_sync st.

End ImageUploader.

(** ** The VIN scanner component

    [validateVin] and [handleDecode] of [VinScanner].  Text is taken to be
    ASCII, as a VIN is: [toUpperCase] maps the letters a to z and leaves
    every other character alone. *)

Module VinScanner.

Definition upper_char (c : ascii) : ascii :=
  let n := nat_of_ascii c in
  if Nat.leb 97 n && Nat.leb n 122 then ascii_of_nat (n - 32) else c.

(** [s.toUpperCase()] *)
Fixpoint toUpperCase (s : string) : string :=
  match s with
  | EmptyString => EmptyString
  | String c r => String (upper_char c) (toUpperCase r)
  end.

(** [/[IOQ]/.test(s)] *)
Fixpoint test_IOQ (s : string) : bool :=
  match s with
  | EmptyString => false
  | String c r =>
      Ascii.eqb c "I" || Ascii.eqb c "O" || Ascii.eqb c "Q" || test_IOQ r
  end.

(** [validateVin(vinCode)] *)
Definition validateVin (vinCode : string) : bool :=
  if negb (Nat.eqb (String.length vinCode) 17) then false
  else if test_IOQ (toUpperCase vinCode) then false
  else true.

(** What [apiClient.decodeVin] does: throws an [Error] with a message, or
    returns the response body. *)
Inductive ApiOutcome : Type :=
| ApiThrows (message : string)
| ApiReturns (success : bool) (vehicle : json) (error : option string).

Record State : Type := {
  vin : string;
  loading : bool;
  error : option string;
  vehicleData : option json
}.

(** [x || fallback] for a string that may be missing. *)
Definition or_text (x : option string) (fallback : string) : string :=
  match x with
  | Some s => if String.eqb s "" then fallback else s
  | None => fallback
  end.

(** [handleDecode]: the state afterwards, the VIN sent to the API if one
    was sent, and the vehicle handed to [onVehicleDecoded] if one was. *)
Definition handleDecode (decodeVin : string -> ApiOutcome) (st : State)
  : State * option string * option json :=
  let vinUpper := Text.trim (toUpperCase (vin st)) in
  if negb (validateVin vinUpper) then
    ({| vin := vin st; loading := loading st;
        error := Some "Invalid VIN format. VIN must be exactly 17 characters and cannot contain I, O, or Q.";
        vehicleData := vehicleData st |}, None, None)
  else
    match decodeVin vinUpper with
    | ApiReturns true vehicle _ =>
        ({| vin := vin st; loading := false; error := None;
            vehicleData := Some vehicle |}, Some vinUpper, Some vehicle)
    | ApiReturns false _ e =>
        ({| vin := vin st; loading := false;
            error := Some (or_text e "Failed to decode VIN");
            vehicleData := vehicleData st |}, Some vinUpper, None)
    | ApiThrows message =>
        ({| vin := vin st; loading := false;
            error := Some (or_text (Some message) "Failed to decode VIN");
            vehicleData := vehicleData st |}, Some vinUpper, None)
    end.

(** [handleInputChange]: the typed text is stored in upper case. *)
Definition handleInputChange (value : string) (st : State) : State :=
  {| vin := toUpperCase value; loading := loading st; error := None;
     vehicleData := None |}.

(** Every character is below 128. *)
Fixpoint ascii_text (s : string) : bool :=
  match s with
  | EmptyString => true
  | String c r => Nat.ltb (nat_of_ascii c) 128 && ascii_text r
  end.

(** A lower-case letter a to z. *)
Definition is_lower (c : ascii) : bool :=
  let n := nat_of_ascii c in Nat.leb 97 n && Nat.leb n 122.

(** No lower-case letter occurs. *)
Fixpoint no_lower (s : string) : bool :=
  match s with
  | EmptyString => true
  | String c r => negb (is_lower c) && no_lower r
  end.

(** None of I, O, Q, i, o, q occurs. *)
Fixpoint no_ioq (s : string) : bool :=
  match s with
  | EmptyString => true
  | String c r =>
      negb (Ascii.eqb c "I" || Ascii.eqb c "O" || Ascii.eqb c "Q"
            || Ascii.eqb c "i" || Ascii.eqb c "o" || Ascii.eqb c "q")
      && no_ioq r
  end.

End VinScanner.

(** ** The prototype application: screens, credits, and the results
    screen's videos

    The state and the handlers of [CarDiagnosticApp] around
    [performAIDiagnosis]: [handleAuth], [handleLogout], [handlePurchase],
    [runDiagnosis], the navigation buttons, and [getYouTubeVideos] as the
    results screen calls it.  The handlers come first, each from its
    start to its last state update; the application that takes events
    while a payment or a diagnosis is pending comes after them. *)

Module PrototypeApp.

Record UserInfo : Type := {
  id : string;
  email : string;
  name : string;
  credits : Z
}.

Record AuthData : Type := {
  auth_email : string;
  auth_password : string;
  auth_name : string
}.

Record AppState : Type := {
  currentScreen : string;
  user : option UserInfo;
  diagnosisCredits : Z;
  vehicleData : Prototype.VehicleData;
  diagnosis : option json;
  isAnalyzing : bool;
  (** each step's text and its [complete] flag *)
  analysisSteps : list (string * bool);
  authMode : string;
  authData : AuthData
}.

Definition with_screen (screen : string) (st : AppState) : AppState :=
  {| currentScreen := screen; user := user st;
     diagnosisCredits := diagnosisCredits st;
     vehicleData := vehicleData st; diagnosis := diagnosis st;
     isAnalyzing := isAnalyzing st; analysisSteps := analysisSteps st;
     authMode := authMode st; authData := authData st |}.

Definition fresh_steps : list (string * bool) :=
  [("Processing vehicle data", false); ("Analyzing symptoms", false);
   ("Generating diagnosis...", false)].

Definition no_vehicle : Prototype.VehicleData :=
  {| Prototype.year := ""; Prototype.make := ""; Prototype.model := "" |}.

Definition no_auth_data : AuthData :=
  {| auth_email := ""; auth_password := ""; auth_name := "" |}.

(** The state the component mounts with. *)
Definition initial : AppState :=
  {| currentScreen := "home"; user := None; diagnosisCredits := 0;
     vehicleData := no_vehicle; diagnosis := None; isAnalyzing := false;
     analysisSteps := fresh_steps; authMode := "login";
     authData := no_auth_data |}.

(** The effect on [user]: with no user, the sign-in screen. *)
Definition userEffect (st : AppState) : AppState :=
  match user st with
  | None => with_screen "auth" st
  | Some _ => st
  end.

(** The form fields of the sign-in screen and the selections of the
    vehicle screen. *)
Definition setAuth (mode : string) (data : AuthData) (st : AppState)
  : AppState :=
  {| currentScreen := currentScreen st; user := user st;
     diagnosisCredits := diagnosisCredits st;
     vehicleData := vehicleData st; diagnosis := diagnosis st;
     isAnalyzing := isAnalyzing st; analysisSteps := analysisSteps st;
     authMode := mode; authData := data |}.

Definition setVehicleData (vd : Prototype.VehicleData) (st : AppState)
  : AppState :=
  {| currentScreen := currentScreen st; user := user st;
     diagnosisCredits := diagnosisCredits st;
     vehicleData := vd; diagnosis := diagnosis st;
     isAnalyzing := isAnalyzing st; analysisSteps := analysisSteps st;
     authMode := authMode st; authData := authData st |}.

(** [handleAuth]: both branches sign the user in with no credits; the
    login branch names a nameless user [User]. *)
Definition handleAuth (st : AppState) : AppState :=
  let shown_name :=
    if String.eqb (authMode st) "login"
    then (if String.eqb (auth_name (authData st)) "" then "User"
          else auth_name (authData st))
    else auth_name (authData st) in
  {| currentScreen := "home";
     user := Some {| id := "12345"; email := auth_email (authData st);
                     name := shown_name; credits := 0 |};
     diagnosisCredits := 0;
     vehicleData := vehicleData st; diagnosis := diagnosis st;
     isAnalyzing := isAnalyzing st; analysisSteps := analysisSteps st;
     authMode := authMode st; authData := authData st |}.

(** [handleLogout] *)
Definition handleLogout (st : AppState) : AppState :=
  {| currentScreen := "auth"; user := None; diagnosisCredits := 0;
     vehicleData := vehicleData st; diagnosis := diagnosis st;
     isAnalyzing := isAnalyzing st; analysisSteps := analysisSteps st;
     authMode := authMode st; authData := no_auth_data |}.

(** The two packages the pricing screen's buttons pass to
    [handlePurchase]. *)
Inductive Package : Type := single | triple.

Definition package_credits (p : Package) : Z :=
  match p with
  | single => 1
  | triple => 3
  end.

(** [handlePurchase(packageType)], once its simulated payment has gone
    through: [setDiagnosisCredits(prev => prev + selectedPackage.credits)]
    and back to the home screen. *)
Definition handlePurchase (p : Package) (st : AppState) : AppState :=
  {| currentScreen := "home"; user := user st;
     diagnosisCredits := (diagnosisCredits st + package_credits p)%Z;
     vehicleData := vehicleData st; diagnosis := diagnosis st;
     isAnalyzing := isAnalyzing st; analysisSteps := analysisSteps st;
     authMode := authMode st; authData := authData st |}.

(** The home screen's start button:
    [diagnosisCredits > 0 ? 'vehicle' : 'pricing']. *)
Definition startDiagnosis (st : AppState) : AppState :=
  if (0 <? diagnosisCredits st)%Z then with_screen "vehicle" st
  else with_screen "pricing" st.

(** The results screen's back button. *)
Definition newDiagnosis (st : AppState) : AppState :=
  {| currentScreen := "home"; user := user st;
     diagnosisCredits := diagnosisCredits st;
     vehicleData := no_vehicle; diagnosis := None;
     isAnalyzing := isAnalyzing st; analysisSteps := fresh_steps;
     authMode := authMode st; authData := authData st |}.

(** The targets of the plain navigation buttons. *)
Inductive NavTarget : Type := ToHome | ToPricing | ToVehicle | ToSymptoms.

Definition target_screen (t : NavTarget) : string :=
  match t with
  | ToHome => "home"
  | ToPricing => "pricing"
  | ToVehicle => "vehicle"
  | ToSymptoms => "symptoms"
  end.

Section App.

Variable JSON_parse : string -> option json.

(** [runDiagnosis] from the click to its last state update, when no
    other event comes before it ends. *)
Definition runDiagnosis (net : Prototype.FetchOutcome) (st : AppState)
  : result AppState :=
  if (diagnosisCredits st <=? 0)%Z then Ok (with_screen "pricing" st)
  else
    apiDiagnosis ←
      Prototype.performAIDiagnosis JSON_parse (vehicleData st) net;
    Ok {| currentScreen := "results"; user := user st;
          diagnosisCredits := (diagnosisCredits st - 1)%Z;
          vehicleData := vehicleData st;
          diagnosis := Some apiDiagnosis;
          isAnalyzing := false;
          analysisSteps := map (fun s => (fst s, true)) (analysisSteps st);
          authMode := authMode st; authData := authData st |}.

End App.

(** *** The application with the work it has pending

    [handlePurchase] and [runDiagnosis] do not end with the click that
    starts them: the first changes the state in a timer a second later,
    the second after three waits and the reply of the generation service.
    Until then the application goes on taking events.  The state below
    is what the component holds after a render, with the work still
    pending; an event is a click or a keystroke on the screen shown, a
    timer that fires, a wait that ends, or a reply that arrives.  There
    is no clock: pending work ends at any later moment. *)

(** The years, makes and models the vehicle screen offers. *)
Definition years : list string := ["2011"; "2010"; "2009"; "2008"].

Definition makes : list string :=
  ["Acura"; "Alfa Romeo"; "Aston Martin"; "Buick"; "Cadillac"; "Chevrolet";
   "Chrysler"].

(** [models[make] || models.default] *)
Definition models_of (make : string) : list string :=
  if String.eqb make "Chevrolet"
  then ["Equinox"; "Tahoe"; "Malibu"; "Traverse"]
  else ["Model 1"; "Model 2"; "Model 3"].

(** Work that has been started and has not ended: the timer of a
    simulated payment, and a diagnosis after its credit test.  A
    diagnosis keeps what its closure captured at the click: the vehicle
    data, and its copy [steps] of [analysisSteps], an array of the same
    three step objects, named here by their generation; and how many of
    its three waits are over. *)
Inductive Task : Type :=
| Payment (p : Package)
| Diagnosing (vd : Prototype.VehicleData) (generation : nat) (waited : nat).

(** The component's state with [symptomData.text], the step objects, and
    the pending work.  The step objects are mutated in place by every
    diagnosis that holds them: [objects] has the three objects of each
    generation, generation 0 being those the component mounts with and
    each reset of the results screen making the next; [held] is the
    generation [analysisSteps] holds, and [analysisSteps] of [app] is
    what a render shows of it.  Photos and recordings, which no handler
    reads, are left out. *)
Record Live : Type := {
  app : AppState;
  symptomText : string;
  objects : list (list (string * bool));
  held : nat;
  tasks : list Task
}.

(** After the component has mounted and its effect has run. *)
Definition mounted : Live :=
  {| app := userEffect initial; symptomText := "";
     objects := [fresh_steps]; held := 0; tasks := [] |}.

Inductive Event : Type :=
(** the sign-in screen *)
| ClickLoginTab
| ClickSignupTab
| TypeName (s : string)
| TypeEmail (s : string)
| TypePassword (s : string)
| ClickAuth
(** the home screen *)
| ClickLogout
| ClickStart
| ClickGetCredits
(** the pricing screen *)
| ClickPricingBack
| ClickPurchase (p : Package)
(** the vehicle screen *)
| ClickVehicleBack
| ClickYear (y : string)
| ClickMake (m : string)
| ClickModel (m : string)
| ClickContinue
(** the symptoms screen *)
| ClickSymptomsBack
| TypeSymptom (s : string)
| ClickDiagnose
(** the results screen *)
| ClickNew
(** pending work, by its position among the tasks *)
| TimerFires (i : nat)
| WaitEnds (i : nat)
| ReplyArrives (i : nat) (net : Prototype.FetchOutcome).

(** What the user does, as opposed to what pending work does. *)
Definition is_click (e : Event) : bool :=
  match e with
  | TimerFires _ | WaitEnds _ | ReplyArrives _ _ => false
  | _ => true
  end.

Definition is_payment (t : Task) : bool :=
  match t with
  | Payment _ => true
  | Diagnosing _ _ _ => false
  end.

Definition is_diagnosing (t : Task) : bool :=
  match t with
  | Payment _ => false
  | Diagnosing _ _ _ => true
  end.

Definition on_screen (screen : string) (l : Live) : bool :=
  String.eqb (currentScreen (app l)) screen.

Definition with_app (a : AppState) (l : Live) : Live :=
  {| app := a; symptomText := symptomText l; objects := objects l;
     held := held l; tasks := tasks l |}.

(** The first lines of [runDiagnosis], up to its first wait. *)
Definition beginDiagnosis (l : Live) : Live :=
  if (diagnosisCredits (app l) <=? 0)%Z
  then with_app (with_screen "pricing" (app l)) l
  else
    {| app :=
         {| currentScreen := "analyzing"; user := user (app l);
            diagnosisCredits := diagnosisCredits (app l);
            vehicleData := vehicleData (app l);
            diagnosis := diagnosis (app l);
            isAnalyzing := true;
            analysisSteps := analysisSteps (app l);
            authMode := authMode (app l); authData := authData (app l) |};
       symptomText := symptomText l; objects := objects l; held := held l;
       tasks := (tasks l ++ [Diagnosing (vehicleData (app l)) (held l) 0])%list
    |}.

(** One turn of the loop of [runDiagnosis] after its wait:
    [steps[i].complete = true; setAnalysisSteps([...steps])]. *)
Definition markStep (generation i : nat) (l : Live) : Live :=
  let marked :=
    alter (alter (fun s => (s.1, true)) i) generation (objects l) in
  {| app :=
       {| currentScreen := currentScreen (app l); user := user (app l);
          diagnosisCredits := diagnosisCredits (app l);
          vehicleData := vehicleData (app l);
          diagnosis := diagnosis (app l);
          isAnalyzing := isAnalyzing (app l);
          analysisSteps := default [] (marked !! generation);
          authMode := authMode (app l); authData := authData (app l) |};
     symptomText := symptomText l; objects := marked; held := generation;
     tasks := tasks l |}.

(** The last four lines of [runDiagnosis]. *)
Definition endDiagnosis (apiDiagnosis : json) (l : Live) : Live :=
  with_app
    {| currentScreen := "results"; user := user (app l);
       diagnosisCredits := (diagnosisCredits (app l) - 1)%Z;
       vehicleData := vehicleData (app l);
       diagnosis := Some apiDiagnosis;
       isAnalyzing := false;
       analysisSteps := analysisSteps (app l);
       authMode := authMode (app l); authData := authData (app l) |} l.

(** The results screen's back button, which also clears the symptoms
    and makes three new step objects. *)
Definition resetDiagnosis (l : Live) : Live :=
  {| app := newDiagnosis (app l); symptomText := "";
     objects := (objects l ++ [fresh_steps])%list;
     held := List.length (objects l); tasks := tasks l |}.

Definition drop_task (i : nat) (l : Live) : Live :=
  {| app := app l; symptomText := symptomText l; objects := objects l;
     held := held l; tasks := delete i (tasks l) |}.

Definition set_task (i : nat) (t : Task) (l : Live) : Live :=
  {| app := app l; symptomText := symptomText l; objects := objects l;
     held := held l; tasks := <[i := t]> (tasks l) |}.

Definition with_vehicle (vd : Prototype.VehicleData) (l : Live) : Live :=
  with_app (setVehicleData vd (app l)) l.

Definition with_auth (mode : string) (data : AuthData) (l : Live) : Live :=
  with_app (setAuth mode data (app l)) l.

Section Live.

Variable JSON_parse : string -> option json.

(** The state after an event, or [None] when the screen shown does not
    offer it or the task is not there. *)
Definition step (e : Event) (l : Live) : option Live :=
  let a := app l in
  match e with
  | ClickLoginTab =>
      if on_screen "auth" l then Some (with_auth "login" (authData a) l)
      else None
  | ClickSignupTab =>
      if on_screen "auth" l then Some (with_auth "signup" (authData a) l)
      else None
  | TypeName s =>
      if on_screen "auth" l && String.eqb (authMode a) "signup"
      then Some (with_auth (authMode a)
                   {| auth_email := auth_email (authData a);
                      auth_password := auth_password (authData a);
                      auth_name := s |} l)
      else None
  | TypeEmail s =>
      if on_screen "auth" l
      then Some (with_auth (authMode a)
                   {| auth_email := s;
                      auth_password := auth_password (authData a);
                      auth_name := auth_name (authData a) |} l)
      else None
  | TypePassword s =>
      if on_screen "auth" l
      then Some (with_auth (authMode a)
                   {| auth_email := auth_email (authData a);
                      auth_password := s;
                      auth_name := auth_name (authData a) |} l)
      else None
  | ClickAuth =>
      if on_screen "auth" l then Some (with_app (handleAuth a) l) else None
  | ClickLogout =>
      if on_screen "home" l
      then Some (with_app (userEffect (handleLogout a)) l)
      else None
  | ClickStart =>
      if on_screen "home" l then Some (with_app (startDiagnosis a) l)
      else None
  | ClickGetCredits =>
      if on_screen "home" l && (diagnosisCredits a =? 0)%Z
      then Some (with_app (with_screen "pricing" a) l)
      else None
  | ClickPricingBack =>
      if on_screen "pricing" l then Some (with_app (with_screen "home" a) l)
      else None
  | ClickPurchase p =>
      if on_screen "pricing" l
      then Some {| app := a; symptomText := symptomText l;
                   objects := objects l; held := held l;
                   tasks := (tasks l ++ [Payment p])%list |}
      else None
  | ClickVehicleBack =>
      if on_screen "vehicle" l then Some (with_app (with_screen "home" a) l)
      else None
  | ClickYear y =>
      if on_screen "vehicle" l && bool_decide (y ∈ years)
      then Some (with_vehicle
                   {| Prototype.year := y;
                      Prototype.make := Prototype.make (vehicleData a);
                      Prototype.model := Prototype.model (vehicleData a) |} l)
      else None
  | ClickMake m =>
      if on_screen "vehicle" l && bool_decide (m ∈ take 6 makes)
      then Some (with_vehicle
                   {| Prototype.year := Prototype.year (vehicleData a);
                      Prototype.make := m; Prototype.model := "" |} l)
      else None
  | ClickModel m =>
      if on_screen "vehicle" l
         && bool_decide (m ∈ models_of (Prototype.make (vehicleData a)))
      then Some (with_vehicle
                   {| Prototype.year := Prototype.year (vehicleData a);
                      Prototype.make := Prototype.make (vehicleData a);
                      Prototype.model := m |} l)
      else None
  | ClickContinue =>
      if on_screen "vehicle" l
         && negb (String.eqb (Prototype.year (vehicleData a)) "")
         && negb (String.eqb (Prototype.make (vehicleData a)) "")
         && negb (String.eqb (Prototype.model (vehicleData a)) "")
      then Some (with_app (with_screen "symptoms" a) l)
      else None
  | ClickSymptomsBack =>
      if on_screen "symptoms" l
      then Some (with_app (with_screen "vehicle" a) l)
      else None
  | TypeSymptom s =>
      if on_screen "symptoms" l
      then Some {| app := a; symptomText := s; objects := objects l;
                   held := held l; tasks := tasks l |}
      else None
  | ClickDiagnose =>
      if on_screen "symptoms" l && negb (String.eqb (symptomText l) "")
      then Some (beginDiagnosis l)
      else None
  | ClickNew =>
      if on_screen "results" l then Some (resetDiagnosis l) else None
  | TimerFires i =>
      match tasks l !! i with
      | Some (Payment p) =>
          Some (drop_task i (with_app (handlePurchase p a) l))
      | _ => None
      end
  | WaitEnds i =>
      match tasks l !! i with
      | Some (Diagnosing vd g n) =>
          if (n <? 3)%nat
          then Some (set_task i (Diagnosing vd g (S n)) (markStep g n l))
          else None
      | _ => None
      end
  | ReplyArrives i net =>
      match tasks l !! i with
      | Some (Diagnosing vd g n) =>
          if (n =? 3)%nat then
            match Prototype.performAIDiagnosis JSON_parse vd net with
            | Ok apiDiagnosis =>
                Some (drop_task i (endDiagnosis apiDiagnosis l))
            | Throw _ => Some (drop_task i l)
            end
          else None
      | _ => None
      end
  end.

(** The state after the events, in order, when each is offered. *)
Fixpoint run (events : list Event) (l : Live) : option Live :=
  match events with
  | [] => Some l
  | e :: rest =>
      match step e l with
      | Some l' => run rest l'
      | None => None
      end
  end.

(** The same for a user who does nothing while a simulated payment is
    pending. *)
Definition step_patiently (e : Event) (l : Live) : option Live :=
  if is_click e && existsb is_payment (tasks l) then None else step e l.

Fixpoint run_patiently (events : list Event) (l : Live) : option Live :=
  match events with
  | [] => Some l
  | e :: rest =>
      match step_patiently e l with
      | Some l' => run_patiently rest l'
      | None => None
      end
  end.

End Live.

(** What every event keeps, in whatever order events come: the results
    screen has a report to show, and the analysis flag is up only while
    a diagnosis is pending. *)
Definition live_invariant (l : Live) : Prop :=
  (currentScreen (app l) = "results" -> exists d, diagnosis (app l) = Some d)
  /\ (isAnalyzing (app l) = true -> existsb is_diagnosing (tasks l) = true).

(** What every event keeps for a user who waits for each payment: at
    most one task is pending; unless it is a diagnosis the analysis flag
    is down and the balance is not negative; and a pending diagnosis has
    the analyzing screen shown and its credit still there. *)
Definition patient_invariant (l : Live) : Prop :=
  match tasks l with
  | [] => isAnalyzing (app l) = false /\ (0 <= diagnosisCredits (app l))%Z
  | [Payment _] =>
      isAnalyzing (app l) = false /\ (0 <= diagnosisCredits (app l))%Z
  | [Diagnosing _ _ _] =>
      currentScreen (app l) = "analyzing"
      /\ (1 <= diagnosisCredits (app l))%Z
  | _ => False
  end.

(** Events of a patient user that end in the middle of a diagnosis. *)
Definition diagnosing_events : list Event :=
  [ClickAuth; ClickStart; ClickPurchase single; TimerFires 0;
   ClickStart; ClickYear "2011"; ClickMake "Chevrolet"; ClickModel "Tahoe";
   ClickContinue; TypeSymptom "Engine high pitch whine"; ClickDiagnose;
   WaitEnds 0].

(** Events that take the balance below zero: a sign-in; a purchase; a
    first diagnosis set up and left, so that the vehicle and the
    symptoms are filled in; a second sign-in, which clears the balance;
    two purchases in a row; after the first payment a diagnosis is
    started; the second payment brings the home screen back while the
    diagnosis is pending; the user signs out; the diagnosis ends. *)
Definition overdrawing_events (net : Prototype.FetchOutcome) : list Event :=
  [ClickAuth; ClickStart; ClickPurchase single; TimerFires 0;
   ClickStart; ClickYear "2011"; ClickMake "Chevrolet"; ClickModel "Tahoe";
   ClickContinue; TypeSymptom "Engine high pitch whine";
   ClickSymptomsBack; ClickVehicleBack;
   ClickLogout; ClickAuth;
   ClickStart; ClickPurchase single; ClickPurchase single; TimerFires 0;
   ClickStart; ClickContinue; ClickDiagnose;
   TimerFires 0;
   ClickLogout;
   WaitEnds 0; WaitEnds 0; WaitEnds 0; ReplyArrives 0 net].


(** One entry of the results screen's video list. *)
Record Video : Type := {
  title : json;
  channel : string;
  thumbnail : string
}.

Section Videos.

(** [encodeURIComponent(term.slice(0, 20))] for a term that has [slice],
    a string or an array; it throws a [URIError] on a text with a lone
    surrogate. *)
Variable thumbnail_text : json -> result string.

(** Whether [term.slice] is a function. *)
Definition sliceable (term : json) : bool :=
  match term with
  | JStr _ | JArr _ => true
  | _ => false
  end.

Definition channel_of (idx : nat) : string :=
  match idx with
  | 0 => "Austin Archu"
  | 1 => "Gregory Haile"
  | _ => "Online Mechanic Tips"
  end.

(** [searchTerms.map] with its callback, from index [idx] on: the
    terms are visited in order and the first exception ends the call. *)
Fixpoint map_terms (idx : nat) (terms : list json) : result (list Video) :=
  match terms with
  | [] => Ok []
  | term :: rest =>
      if sliceable term then
        text ← thumbnail_text term;
        vs ← map_terms (S idx) rest;
        Ok ({| title := term; channel := channel_of idx;
               thumbnail :=
                 "https://via.placeholder.com/320x180/1a1a1a/00d4aa?text="
                 +:+ text |} :: vs)
      else Throw "TypeError"
  end.

(** A term the callback gets through: it has [slice] and its text can
    be encoded. *)
Definition passes (term : json) : Prop :=
  sliceable term = true /\ exists text, thumbnail_text term = Ok text.

(** [getYouTubeVideos(searchTerms)]: only an array has [map]. *)
Definition getYouTubeVideos (searchTerms : json) : result (list Video) :=
  match searchTerms with
  | JArr terms => map_terms 0 terms
  | _ => Throw "TypeError"
  end.

(** The results screen's
    [diagnosis ? getYouTubeVideos(diagnosis.relatedVideos || []) : []]. *)
Definition videos (diagnosis : option json) : result (list Video) :=
  match diagnosis with
  | None => Ok []
  | Some d =>
      if truthy (Some d) then
        rv ← get_prop d "relatedVideos";
        getYouTubeVideos (if truthy rv then default (JArr []) rv else JArr [])
      else Ok []
  end.

End Videos.

(** A reply text whose report lists its videos as one string. *)
Definition unlisted_reply : string :=
  JsonParse.dq "{'diagnosis':'Worn belt','relatedVideos':'belt squeal'}".

End PrototypeApp.

(** ** The SQL function [add_user_credits] *)

Module Sql.

(** [[
    UPDATE users SET credits = credits + amount WHERE id = user_uuid; ]]
    With no such user no row is updated.  The balance is kept as an
    unbounded integer here, as in [Db.decrement_user_credits]: this is
    the function for a call that came back without an error, and module
    [Plpgsql] below has both functions on the column's type, a nullable
    32-bit [INTEGER], where a sum out of range raises an error. *)
Definition add_user_credits (user_uuid : string) (amount : Z)
  (us : gmap string Z) : gmap string Z :=
  match us !! user_uuid with
  | Some credits => <[user_uuid := (credits + amount)%Z]> us
  | None => us
  end.

End Sql.

(** ** The two SQL functions on PostgreSQL's [INTEGER]

    [users.credits] is declared [INTEGER DEFAULT 0]: a signed 32-bit
    number, or [NULL].  Arithmetic on [INTEGER] does not wrap: a result
    outside the type raises [integer out of range], the function call
    fails and the table is left as it was. *)

Module Plpgsql.

Definition int4_min : Z := -2147483648.
Definition int4_max : Z := 2147483647.

(** Whether a number is a value of [INTEGER]. *)
Definition is_int4 (z : Z) : bool :=
  (int4_min <=? z)%Z && (z <=? int4_max)%Z.

(** The result of [+] or [-] on [INTEGER]. *)
Definition int4 (z : Z) : result Z :=
  if is_int4 z then Ok z else Throw "integer out of range".

(** Table [users] is a [gmap string (option Z)] here, column [credits]
    by [id]; [Some None] is a row whose [credits] is [NULL].  In a
    well-typed table every balance is a value of the column's type. *)
Definition well_typed (us : gmap string (option Z)) : Prop :=
  forall uid c, us !! uid = Some (Some c) -> is_int4 c = true.

(** [[
    SELECT credits INTO current_credits FROM users
      WHERE id = user_uuid FOR UPDATE;
    IF current_credits >= amount THEN
      UPDATE users SET credits = credits - amount WHERE id = user_uuid;
      RETURN TRUE;
    ELSE RETURN FALSE; ]]
    With no such user, or with [NULL] credits, [current_credits] is
    [NULL], the test is not true and the answer is [FALSE].  The
    parameter [amount] is an [INTEGER]: the body is entered with a 32-bit
    number only, and what is stated of the function is stated for such
    an [amount]. *)
Definition decrement_user_credits (user_uuid : string) (amount : Z)
  (us : gmap string (option Z)) : result (bool * gmap string (option Z)) :=
  match us !! user_uuid with
  | Some (Some current_credits) =>
      if (amount <=? current_credits)%Z then
        credits ← int4 (current_credits - amount);
        Ok (true, <[user_uuid := Some credits]> us)
      else Ok (false, us)
  | _ => Ok (false, us)
  end.

(** [[
    UPDATE users SET credits = credits + amount WHERE id = user_uuid; ]]
    [NULL + amount] is [NULL]; with no such user no row is updated.
    [amount] is an [INTEGER], as above. *)
Definition add_user_credits (user_uuid : string) (amount : Z)
  (us : gmap string (option Z)) : result (gmap string (option Z)) :=
  match us !! user_uuid with
  | Some (Some current_credits) =>
      credits ← int4 (current_credits + amount);
      Ok (<[user_uuid := Some credits]> us)
  | _ => Ok us
  end.

(** A table without [NULL] balances, as the other modules keep it. *)
Definition of_balances (us : gmap string Z)
  : gmap string (option Z) := Some <$> us.

End Plpgsql.

(** ** Column type [JSONB]

    [diagnoses.diagnosis_result] is declared [JSONB].  PostgreSQL keeps a
    [JSONB] value in a normal form: an object's keys are unique, the last
    value given for a key being the one kept, and are ordered by length
    and then bytewise; white space is gone.  Arrays keep their order and
    scalars their value. *)

Module Jsonb.

(** The order of the keys of a [JSONB] object. *)
Definition key_before (a b : string) : bool :=
  (String.length a <? String.length b)%nat
  || ((String.length a =? String.length b)%nat && String.ltb a b).

(** Adds a member to the members kept so far. *)
Fixpoint put (k : string) (v : json) (props : list (string * json))
  : list (string * json) :=
  match props with
  | [] => [(k, v)]
  | (k', v') :: rest =>
      if String.eqb k k' then (k, v) :: rest
      else if key_before k k' then (k, v) :: props
      else (k', v') :: put k v rest
  end.

(** The value read back from a [JSONB] column into which [v] was
    written. *)
Fixpoint jsonb (v : json) : json :=
  match v with
  | JArr items => JArr (map jsonb items)
  | JObj props =>
      JObj (fold_left (fun kept '(k, x) => put k (jsonb x) kept) props [])
  | _ => v
  end.

(** The keys of an object in normal form: each before the next in the
    order of the column type, so no key twice. *)
Definition keys_ordered (props : list (string * json)) : Prop :=
  StronglySorted (fun a b => key_before a b = true) (map fst props).

(** The value an object's text gives for a key: the last one. *)
Definition last_prop (k : string) (props : list (string * json))
  : option json :=
  lookup_prop k (rev props).

End Jsonb.

(** ** The route handler [GET /api/diagnose]: the diagnosis history *)

Module History.

(** The body and status of the history response. *)
Record HistoryResponse : Type := {
  status : Z;
  success : bool;
  error : option string;
  diagnoses : option (list DiagnosisRow)
}.

Definition failure (code : Z) (msg : string) : HistoryResponse :=
  {| status := code; success := false; error := Some msg;
     diagnoses := None |}.

(** A row as a [SELECT] returns it: the database holds the rows as the
    handler sent them, and the report of column [diagnosis_result] comes
    back in the normal form of [JSONB]. *)
Definition selected (r : DiagnosisRow) : DiagnosisRow :=
  {| user_id := user_id r;
     vehicle_year := vehicle_year r;
     vehicle_make := vehicle_make r;
     vehicle_model := vehicle_model r;
     symptom_text := symptom_text r;
     audio_url := audio_url r;
     photo_urls := photo_urls r;
     diagnosis_result := Jsonb.jsonb (diagnosis_result r);
     credits_used := credits_used r |}.

(** [[
    .from('diagnoses').select('*').eq('user_id', uid)
    .order('created_at', { ascending: false }).limit(n) ]]
    The table keeps its rows in the order they were inserted and
    [created_at] is the time of the insert, so newest first is the
    reverse of that order. *)
Definition select_diagnoses (uid : string) (n : nat) (d : Database)
  : list DiagnosisRow :=
  map selected
    (take n (rev (List.filter (fun r => String.eqb (user_id r) uid)
                    (Db.diagnoses d)))).

(** [GET]: [tokenPayload] is what [getUserFromHeaders] returns and
    [query_ok] whether the query came back without an [error]. *)
Definition GET (tokenPayload : option string) (query_ok : bool)
  (d : Database) : HistoryResponse :=
  match tokenPayload with
  | None => failure 401 "Unauthorized"
  | Some userId =>
      if query_ok then
        {| status := 200; success := true; error := None;
           diagnoses := Some (select_diagnoses userId 50 d) |}
      else failure 500 "Failed to fetch diagnoses"
  end.

End History.

(** What the photo loop of [POST] amounts to. *)

Module Photos.
Import Route.

(** [photoFile.size > 0] *)
Definition has_content (f : File) : bool := (0 <? file_size f)%Z.

(** The URLs of the photos with content whose upload succeeded. *)
Definition uploaded_urls (w : World) (fs : list File) : list string :=
  omap (blob_put w) (List.filter has_content fs).

End Photos.

(** ** [POST /api/diagnose] among other requests

    The handler awaits each of its database calls, and while it awaits,
    other requests run theirs.  It reaches the database four times: the
    lookup of the user before the credit test, and after the engine's
    answer the deduction, the insert and the final lookup.  Each call is
    one statement or one function call of the database and is not
    interleaved with another; what the others write in between is. *)

Module Among.
Import Route.

(** What the handler holds once the engine has answered. *)
Record Generated : Type := {
  g_user : string;
  g_form : FormData;
  g_audioUrl : option string;
  g_photoUrls : list string;
  g_diagnosis : list (string * json)
}.

Section Among.

Variable w : World.

(** The body of the [try] up to the engine's answer. *)
Definition post_head : Handler Generated :=
  match getUserFromHeaders w with
  | None => respond (failure 401 "Unauthorized")
  | Some userId =>
      user ← select_user w userId;
      match user with
      | None => respond (failure 404 "User not found")
      | Some credits =>
          if (credits <? 1)%Z
          then respond (failure 402 "Insufficient credits")
          else
            formData ← await_formData w;
            if missing_fields formData
            then respond (failure 400 "Missing required fields")
            else
              '(audioUrl, audioAnalysis) ←
                process_audio w (audioFile formData);
              photoUrls ← upload_photos w (photoFiles formData) [];
              diag ← await_diagnose w (vehicle_info formData)
                       (default "" (symptomText formData))
                       audioAnalysis (nonempty_urls photoUrls);
              mret {| g_user := userId; g_form := formData;
                      g_audioUrl := audioUrl; g_photoUrls := photoUrls;
                      g_diagnosis := diag |}
      end
  end.

(** What the other requests do to the database during one wait. *)
Definition meanwhile (others : Database -> Database) : Handler unit :=
  fun st => (Next tt, {| db := others (db st); trace := trace st |}).

(** The rest of the body: the deduction, the insert and the final
    lookup, with what the others do before each. *)
Definition post_tail (g : Generated)
  (before_deduction before_insert before_lookup : Database -> Database)
  : Handler Response :=
  meanwhile before_deduction;;
  creditError ← rpc_decrement w (g_user g);
  meanwhile before_insert;;
  savedDiagnosis ← insert_diagnosis w
    (diagnosis_row (g_user g) (g_form g) (g_audioUrl g) (g_photoUrls g)
       (g_diagnosis g));
  meanwhile before_lookup;;
  updatedUser ← select_credits w (g_user g);
  mret (success_response (g_diagnosis g) savedDiagnosis updatedUser).

(** [POST] among other requests: the response, the database afterwards,
    and the calls made.  What the others do before the lookup of the
    user is part of the database the request starts on. *)
Definition POST_among
  (before_deduction before_insert before_lookup : Database -> Database)
  (d : Database) : Response * Database * list Event :=
  match (g ← post_head;
         post_tail g before_deduction before_insert before_lookup)
          {| db := d; trace := [] |} with
  | (Next r, st) => (r, db st, trace st)
  | (Respond r, st) => (r, db st, trace st)
  | (Raise e, st) => (failure 500 e, db st, trace st)
  end.

End Among.

(** Two requests of which the second has passed its credit test when
    the first deducts: the first runs as if alone, and the second meets
    what the first wrote between its own lookup of the user and its
    deduction.  The two responses and the database afterwards. *)
Definition overlapped (w1 w2 : World) (d : Database)
  : Response * Response * Database :=
  let second := POST_among w2 (fun d0 => (POST w1 d0).1.2) id id d in
  ((POST w1 d).1.1, second.1.1, second.1.2).

End Among.

(** ** The payment webhook [POST /api/payment/webhook] *)

Module Webhook.
Import Route.

(** [metadata] of a checkout session or payment intent: the three keys
    the handlers read; [None] is a key that is not there. *)
Record Metadata : Type := {
  userId : option string;
  packageId : option string;
  credits : option string
}.

(** [Stripe.Checkout.Session], the fields read. *)
Record Session : Type := {
  session_id : string;
  session_metadata : option Metadata;
  customer : option string;
  payment_intent : option string;
  amount_total : option Z;
  session_currency : option string
}.

(** [Stripe.PaymentIntent], the fields read. *)
Record PaymentIntent : Type := {
  intent_id : string;
  intent_metadata : option Metadata;
  intent_amount : Z;
  intent_currency : string;
  payment_method_types : list string
}.

(** [event.type] with [event.data.object]. *)
Inductive StripeEvent : Type :=
| checkout_session_completed (session : Session)
| payment_intent_succeeded (paymentIntent : PaymentIntent)
| payment_intent_payment_failed (paymentIntent : PaymentIntent)
| unhandled (type : string).

(** A row of [payments], the columns the handlers write apart from the
    JSON metadata. *)
Record Payment : Type := {
  user_id : string;
  stripe_payment_intent_id : option string;
  amount : Z;
  currency : string;
  status : string;
  credits_purchased : Z;
  payment_method : option string
}.

(** Table [users] as two columns keyed by [id], and table [payments]. *)
Record Ledger : Type := {
  users : gmap string Z;
  stripe_customer_id : gmap string string;
  payments : list Payment
}.

(** What the request and the collaborators give during one delivery.
    The Supabase client reports a failure in [error] and does not
    throw. *)
Record World : Type := {
  request_text : result string;
  signature : option string;
  constructWebhookEvent : string -> string -> result StripeEvent;
  rpc_ok : bool;
  update_ok : bool;
  select_ok : bool;
  insert_ok : bool
}.

(** The response: its status and its body, [{ received: true }] or
    [{ error }]. *)
Inductive Body : Type :=
| Received
| Error (message : string).

Definition has_intent (i : string) (p : Payment) : bool :=
  match stripe_payment_intent_id p with
  | Some j => String.eqb j i
  | None => false
  end.

(** [metadata?.userId] *)
Definition metadata_userId (m : option Metadata) : option string :=
  match m with
  | Some md => userId md
  | None => None
  end.

(** [parseInt(metadata?.credits || '0')] *)
Definition metadata_credits (m : option Metadata) : JsInt :=
  let c := match m with
           | Some md => credits md
           | None => None
           end in
  parseInt (Some (if not_str c then "0" else default "" c)).

(** The argument [amount] of the [rpc] for a number that passed
    [!credits]. *)
Definition int_value (n : JsInt) : Z :=
  match n with
  | Int z => z
  | NaN => 0
  end.

Section Handlers.

Variable w : World.

(** [supabaseAdmin.rpc('add_user_credits', ...)]: whether it came back
    with an [error], and the ledger afterwards. *)
Definition rpc_add_user_credits (uid : string) (n : Z) (l : Ledger)
  : bool * Ledger :=
  if rpc_ok w then
    (false,
     {| users := Sql.add_user_credits uid n (users l);
        stripe_customer_id := stripe_customer_id l;
        payments := payments l |})
  else (true, l).

(** [.from('users').update({ stripe_customer_id }).eq('id', uid)] *)
Definition update_customer (uid cust : string) (l : Ledger) : Ledger :=
  if update_ok w then
    match users l !! uid with
    | Some _ =>
        {| users := users l;
           stripe_customer_id := <[uid := cust]> (stripe_customer_id l);
           payments := payments l |}
    | None => l
    end
  else l.

(** [.from('payments').insert([row])]: the row must reference a user,
    and its intent id, when it has one, must be new; the handlers do not
    look at the outcome. *)
Definition insert_payment (row : Payment) (l : Ledger) : Ledger :=
  let references_user := bool_decide (is_Some (users l !! user_id row)) in
  let intent_is_new :=
    match stripe_payment_intent_id row with
    | Some i => negb (existsb (has_intent i) (payments l))
    | None => true
    end in
  if insert_ok w && references_user && intent_is_new then
    {| users := users l; stripe_customer_id := stripe_customer_id l;
       payments := (payments l ++ [row])%list |}
  else l.

(** [.from('payments').select('id').eq('stripe_payment_intent_id', i)
    .single()]: the row when exactly one matches. *)
Definition select_payment (i : string) (l : Ledger) : option Payment :=
  if select_ok w then
    match List.filter (has_intent i) (payments l) with
    | [p] => Some p
    | _ => None
    end
  else None.

(** [handleCheckoutSessionCompleted] *)
Definition handleCheckoutSessionCompleted (session : Session) (l : Ledger)
  : Ledger :=
  let uid := metadata_userId (session_metadata session) in
  let n := metadata_credits (session_metadata session) in
  if not_str uid || not_int n then l
  else
    let '(creditError, l1) :=
      rpc_add_user_credits (default "" uid) (int_value n) l in
    if creditError then l1
    else
      let l2 :=
        if not_str (customer session) then l1
        else update_customer (default "" uid)
               (default "" (customer session)) l1 in
      insert_payment
        {| user_id := default "" uid;
           stripe_payment_intent_id := payment_intent session;
           amount := default 0%Z (amount_total session);
           currency :=
             if not_str (session_currency session) then "usd"
             else default "" (session_currency session);
           status := "succeeded";
           credits_purchased := int_value n;
           payment_method := Some "card" |} l2.

(** [handlePaymentIntentSucceeded] *)
Definition handlePaymentIntentSucceeded (paymentIntent : PaymentIntent)
  (l : Ledger) : Ledger :=
  let uid := metadata_userId (intent_metadata paymentIntent) in
  let n := metadata_credits (intent_metadata paymentIntent) in
  if not_str uid || not_int n then l
  else
    match select_payment (intent_id paymentIntent) l with
    | Some _ => l
    | None =>
        insert_payment
          {| user_id := default "" uid;
             stripe_payment_intent_id := Some (intent_id paymentIntent);
             amount := intent_amount paymentIntent;
             currency := intent_currency paymentIntent;
             status := "succeeded";
             credits_purchased := int_value n;
             payment_method := head (payment_method_types paymentIntent) |}
          (rpc_add_user_credits (default "" uid) (int_value n) l).2
    end.

(** [handlePaymentIntentFailed] *)
Definition handlePaymentIntentFailed (paymentIntent : PaymentIntent)
  (l : Ledger) : Ledger :=
  let uid := metadata_userId (intent_metadata paymentIntent) in
  if not_str uid then l
  else
    insert_payment
      {| user_id := default "" uid;
         stripe_payment_intent_id := Some (intent_id paymentIntent);
         amount := intent_amount paymentIntent;
         currency := intent_currency paymentIntent;
         status := "failed";
         credits_purchased := 0;
         payment_method := head (payment_method_types paymentIntent) |} l.

(** The [switch] on [event.type]. *)
Definition dispatch (event : StripeEvent) (l : Ledger) : Ledger :=
  match event with
  | checkout_session_completed session =>
      handleCheckoutSessionCompleted session l
  | payment_intent_succeeded paymentIntent =>
      handlePaymentIntentSucceeded paymentIntent l
  | payment_intent_payment_failed paymentIntent =>
      handlePaymentIntentFailed paymentIntent l
  | unhandled _ => l
  end.

(** [POST]: the status, the body and the ledger afterwards. *)
Definition POST (l : Ledger) : Z * Body * Ledger :=
  match request_text w with
  | Throw _ => (500%Z, Error "Webhook handler failed", l)
  | Ok body =>
      if not_str (signature w)
      then (400%Z, Error "Missing stripe-signature header", l)
      else
        match constructWebhookEvent w body (default "" (signature w)) with
        | Throw _ => (400%Z, Error "Invalid signature", l)
        | Ok event => (200%Z, Received, dispatch event l)
        end
  end.

End Handlers.

(** The credits a delivered event asks for: the user and the amount,
    when its metadata passes the handlers' check. *)
Definition requested (m : option Metadata) : option (string * Z) :=
  if not_str (metadata_userId m) || not_int (metadata_credits m) then None
  else Some (default "" (metadata_userId m), int_value (metadata_credits m)).

End Webhook.

(** A purchase of three credits by user [u1], as the checkout session
    and as its payment intent, and deliveries where every call works. *)

Module WebhookExamples.
Import Webhook.

Definition triple_metadata : Metadata :=
  {| userId := Some "u1"; packageId := Some "triple"; credits := Some "3" |}.

Definition triple_session : Session :=
  {| session_id := "cs_1"; session_metadata := Some triple_metadata;
     customer := Some "cus_1"; payment_intent := Some "pi_1";
     amount_total := Some 1299%Z; session_currency := Some "usd" |}.

Definition triple_intent : PaymentIntent :=
  {| intent_id := "pi_1"; intent_metadata := Some triple_metadata;
     intent_amount := 1299; intent_currency := "usd";
     payment_method_types := ["card"] |}.

Definition delivery (event : StripeEvent) : World :=
  {| request_text := Ok "payload"; signature := Some "t=1,v1=abc";
     constructWebhookEvent := fun _ _ => Ok event;
     rpc_ok := true; update_ok := true; select_ok := true;
     insert_ok := true |}.

(** One user, [u1], with two credits and no payment yet. *)
Definition two_credits : Ledger :=
  {| users := {[ "u1" := 2%Z ]}; stripe_customer_id := ∅; payments := [] |}.

End WebhookExamples.

(** ** The Express server's route [POST /api/diagnosis/analyze] *)

Module Server.
Import Prototype.

(** [req.body]: the four text fields of the form; [None] is a field that
    was not sent. *)
Record AnalyzeBody : Type := {
  year : option string;
  make : option string;
  model : option string;
  symptomText : option string
}.

(** [req.user], as the [auth] middleware loaded it. *)
Record User : Type := {
  _id : string;
  diagnosisCredits : Z
}.

(** The object passed to [new Diagnosis], without the paths of the
    uploaded files: the [diagnosis] part lists the seven properties read
    off the parsed report, [None] for a property the report does not
    have. *)
Record DiagnosisInput : Type := {
  userId : string;
  vehicle : string * string * string;
  symptoms_text : string;
  diagnosis : list (string * option json)
}.

(** The collection of users, as their credits by id, and the collection
    of diagnoses. *)
Record Store : Type := {
  users : gmap string Z;
  diagnoses : list DiagnosisInput
}.

(** What [await anthropic.messages.create(...)] does. *)
Inductive CreateOutcome : Type :=
| CreateRejects (e : string)
| CreateResolves (message : json).

(** The collaborators during one request: the generation service, and for
    [diagnosis.save()] and [User.findByIdAndUpdate] the message of the
    error they throw, if they throw. *)
Record World : Type := {
  messages_create : CreateOutcome;
  save_error : option string;
  update_error : option string
}.

(** What [res] is sent: the status and the properties of the body. *)
Record Reply : Type := {
  status : Z;
  error : option string;
  details : option string;
  reply_diagnosis : option json;
  creditsRemaining : option Z
}.

Definition refusal (code : Z) (msg : string) : Reply :=
  {| status := code; error := Some msg; details := None;
     reply_diagnosis := None; creditsRemaining := None |}.

(** The [catch]. *)
Definition failed (e : string) : Reply :=
  {| status := 500; error := Some "Diagnosis failed. Please try again.";
     details := Some e; reply_diagnosis := None; creditsRemaining := None |}.

(** [$inc: { diagnosisCredits: -1 }] on the user with that id. *)
Definition inc_credits (uid : string) (by_ : Z) (us : gmap string Z)
  : gmap string Z :=
  match us !! uid with
  | Some c => <[uid := (c + by_)%Z]> us
  | None => us
  end.

Section Analyze.

Variable JSON_parse : string -> option json.
Variable w : World.

(** From the message to [diagnosisResult]: the text of the first text
    item, its match, parsed; with no match the route throws. *)
Definition parse_reply (message : json) : result json :=
  content ← get_prop message "content";
  found ← array_find content is_text_item;
  resultText ← text_or_empty found;
  jm ← string_match resultText;
  match jm with
  | Some m => parse_or_throw JSON_parse m
  | None => Throw "Failed to parse AI response"
  end.

(** The [diagnosis] part of the document. *)
Definition project (diagnosisResult : json)
  : result (list (string * option json)) :=
  d ← get_prop diagnosisResult "diagnosis";
  s ← get_prop diagnosisResult "severity";
  c ← get_prop diagnosisResult "commonCauses";
  r ← get_prop diagnosisResult "repairSteps";
  m ← get_prop diagnosisResult "materialsNeeded";
  e ← get_prop diagnosisResult "estimatedCost";
  v ← get_prop diagnosisResult "relatedVideos";
  mret [("primaryDiagnosis", d); ("severity", s); ("commonCauses", c);
        ("repairSteps", r); ("materialsNeeded", m); ("estimatedCost", e);
        ("relatedVideos", v)].

(** [!year || !make || !model || !symptomText] *)
Definition incomplete (body : AnalyzeBody) : bool :=
  Route.not_str (year body) || Route.not_str (make body)
  || Route.not_str (model body) || Route.not_str (symptomText body).

(** The handler: the reply and the store afterwards. *)
Definition analyze (user : User) (body : AnalyzeBody) (s : Store)
  : Reply * Store :=
  if incomplete body
  then (refusal 400 "All vehicle and symptom information required", s)
  else if (diagnosisCredits user <=? 0)%Z
  then (refusal 402 "Insufficient credits. Please purchase more.", s)
  else
    match messages_create w with
    | CreateRejects e => (failed e, s)
    | CreateResolves message =>
        match (diagnosisResult ← parse_reply message;
               part ← project diagnosisResult;
               mret (diagnosisResult, part)) with
        | Throw e => (failed e, s)
        | Ok (diagnosisResult, part) =>
            match save_error w with
            | Some e => (failed e, s)
            | None =>
                let saved :=
                  {| users := users s;
                     diagnoses :=
                       (diagnoses s ++
                        [{| userId := _id user;
                            vehicle := (default "" (year body),
                                        default "" (make body),
                                        default "" (model body));
                            symptoms_text := default "" (symptomText body);
                            diagnosis := part |}])%list |} in
                match update_error w with
                | Some e => (failed e, saved)
                | None =>
                    ({| status := 200; error := None; details := None;
                        reply_diagnosis := Some diagnosisResult;
                        creditsRemaining :=
                          Some (diagnosisCredits user - 1)%Z |},
                     {| users := inc_credits (_id user) (-1) (users saved);
                        diagnoses := diagnoses saved |})
                end
            end
        end
    end.

End Analyze.

End Server.

(** ** Accounts: [POST /api/auth/register] and [POST /api/auth/login] *)

Module Auth.

(** A row of [users] as the routes read and write it. *)
Record Account : Type := {
  id : string;
  email : string;
  password_hash : string;
  name : json;
  phone : json;
  credits : Z
}.

(** The body and status of an [AuthResponse]. *)
Record Response : Type := {
  status : Z;
  success : bool;
  error : option string;
  token : option string;
  user : option json
}.

Definition failure (code : Z) (msg : option string) : Response :=
  {| status := code; success := false; error := msg;
     token := None; user := None |}.

Definition granted (code : Z) (t : string) (u : json) : Response :=
  {| status := code; success := true; error := None;
     token := Some t; user := Some u |}.

(** What the request and the database client give during one call: the
    parsed body, whether the lookup and the insert work, and the id the
    database gives a new row. *)
Record World : Type := {
  request_json : result json;
  select_ok : bool;
  insert_ok : bool;
  new_id : string
}.

(** The platform's [String.prototype.toLowerCase] and the helpers of the
    authentication library, which may throw, as they answer during one
    request: a route calls each of them at most once.  The signing and
    the hashing helpers are not among the sources, and two requests need
    not get the same token or hash for the same account or password. *)
Record Library : Type := {
  toLowerCase : string -> string;
  isValidEmail : json -> result bool;
  isValidPassword : json -> result (bool * option string);
  hashPassword : json -> result string;
  comparePassword : json -> string -> result bool;
  generateToken : Account -> result string;
  sanitizeUser : Account -> result json
}.

Section Routes.

Variable lib : Library.
Variable w : World.

(** [v.toLowerCase()] for a value that passed [!v]: only a string has
    the method. *)
Definition lower (v : option json) : result string :=
  match v with
  | Some (JStr s) => Ok (toLowerCase lib s)
  | _ => Throw "TypeError"
  end.

(** [.from('users').select(...).eq('email', e).single()]: the row when
    the lookup works and exactly one row matches. *)
Definition select_by_email (e : string) (accounts : list Account)
  : option Account :=
  if select_ok w then
    match List.filter (fun a => String.eqb (email a) e) accounts with
    | [a] => Some a
    | _ => None
    end
  else None.

(** [.from('users').insert([row]).select().single()]: the column [email]
    is unique; the new row, or [None] with a [createError]. *)
Definition insert_account (row : Account) (accounts : list Account)
  : option Account * list Account :=
  if insert_ok w
     && negb (existsb (fun a => String.eqb (email a) (email row)) accounts)
  then (Some row, (accounts ++ [row])%list)
  else (None, accounts).

(** [v || null] *)
Definition or_null (v : option json) : json :=
  if truthy v then default JNull v else JNull.

(** The registration route up to the insert: an early response, or the
    row to insert; or a thrown exception. *)
Definition register_checks (accounts : list Account)
  : result (Response + Account) :=
  body ← request_json w;
  email ← get_prop body "email";
  password ← get_prop body "password";
  name ← get_prop body "name";
  phone ← get_prop body "phone";
  if negb (truthy email) || negb (truthy password)
  then Ok (inl (failure 400 (Some "Email and password are required")))
  else
    valid ← isValidEmail lib (default JNull email);
    if negb valid
    then Ok (inl (failure 400 (Some "Invalid email format")))
    else
      passwordValidation ← isValidPassword lib (default JNull password);
      if negb passwordValidation.1
      then Ok (inl (failure 400 passwordValidation.2))
      else
        e ← lower email;
        match select_by_email e accounts with
        | Some _ => Ok (inl (failure 409 (Some "Email already registered")))
        | None =>
            passwordHash ← hashPassword lib (default JNull password);
            Ok (inr {| id := new_id w; email := e;
                       password_hash := passwordHash;
                       name := or_null name; phone := or_null phone;
                       credits := 0 |})
        end.

(** The registration route: the response and the accounts afterwards.
    The [catch] answers 500; an exception thrown after the insert leaves
    the new row in place. *)
Definition register (accounts : list Account) : Response * list Account :=
  match register_checks accounts with
  | Throw _ => (failure 500 (Some "Registration failed"), accounts)
  | Ok (inl r) => (r, accounts)
  | Ok (inr row) =>
      match insert_account row accounts with
      | (None, accounts') =>
          (failure 500 (Some "Failed to create user"), accounts')
      | (Some newUser, accounts') =>
          match (t ← generateToken lib newUser;
                 u ← sanitizeUser lib newUser;
                 mret (granted 201 t u)) with
          | Ok r => (r, accounts')
          | Throw _ => (failure 500 (Some "Registration failed"), accounts')
          end
      end
  end.

(** The [try] block of the login route. *)
Definition login_body (accounts : list Account) : result Response :=
  body ← request_json w;
  email ← get_prop body "email";
  password ← get_prop body "password";
  if negb (truthy email) || negb (truthy password)
  then Ok (failure 400 (Some "Email and password are required"))
  else
    e ← lower email;
    match select_by_email e accounts with
    | None => Ok (failure 401 (Some "Invalid email or password"))
    | Some account =>
        passwordMatch ←
          comparePassword lib (default JNull password) (password_hash account);
        if negb passwordMatch
        then Ok (failure 401 (Some "Invalid email or password"))
        else
          t ← generateToken lib account;
          u ← sanitizeUser lib account;
          Ok (granted 200 t u)
    end.

(** The login route; it writes nothing. *)
Definition login (accounts : list Account) : Response :=
  match login_body accounts with
  | Ok r => r
  | Throw _ => failure 500 (Some "Login failed")
  end.

End Routes.

End Auth.

(** A stand-in for the authentication library, and a registration
    request. *)

Module AuthExamples.
Import Auth.

Definition lower_char (c : ascii) : ascii :=
  let n := nat_of_ascii c in
  if Nat.leb 65 n && Nat.leb n 90 then ascii_of_nat (n + 32) else c.

Fixpoint lower_case (s : string) : string :=
  match s with
  | EmptyString => EmptyString
  | String c r => String (lower_char c) (lower_case r)
  end.

Definition salted (pw : json) : result string :=
  match pw with
  | JStr s => Ok ("h$" +:+ s)
  | _ => Throw "TypeError"
  end.

Definition stub_library : Library :=
  {| toLowerCase := lower_case;
     isValidEmail := fun _ => Ok true;
     isValidPassword := fun _ => Ok (true, None);
     hashPassword := salted;
     comparePassword :=
       fun pw h =>
         match salted pw with
         | Ok h' => Ok (String.eqb h h')
         | Throw e => Throw e
         end;
     generateToken := fun a => Ok ("token:" +:+ id a);
     sanitizeUser :=
       fun a => Ok (JObj [("id", JStr (id a)); ("email", JStr (email a))]) |}.

(** The library at a later request: another token for the same
    account. *)
Definition later_library : Library :=
  {| toLowerCase := lower_case;
     isValidEmail := fun _ => Ok true;
     isValidPassword := fun _ => Ok (true, None);
     hashPassword := salted;
     comparePassword :=
       fun pw h =>
         match salted pw with
         | Ok h' => Ok (String.eqb h h')
         | Throw e => Throw e
         end;
     generateToken := fun a => Ok ("later:" +:+ id a);
     sanitizeUser :=
       fun a => Ok (JObj [("id", JStr (id a)); ("email", JStr (email a))]) |}.

Definition ann_signs_up : World :=
  {| request_json :=
       Ok (JObj [("email", JStr "Ann@Example.com");
                 ("password", JStr "secret1")]);
     select_ok := true; insert_ok := true; new_id := "u7" |}.

End AuthExamples.

(** ** The client's [handleSubmitDiagnosis], talking to [POST /api/diagnose] *)

Module Client.
Import Route.

(** [User] as the client holds it; [credits] is [None] when the property
    was assigned [undefined]. *)
Record User : Type := {
  user_id : string;
  user_email : string;
  credits : option Z
}.

(** The state [handleSubmitDiagnosis] reads and writes. *)
Record State : Type := {
  screen : string;
  user : option User;
  token : option string;
  vehicleYear : string;
  vehicleMake : string;
  vehicleModel : string;
  vin : string;
  mileage : string;
  symptomText : string;
  audioFile : option File;
  photoFiles : list File;
  diagnosis : option json;
  analyzing : bool;
  error : option string
}.

(** What becomes of the request: it reaches the route and the response
    comes back as JSON; [fetch] rejects before the route runs; or the
    route runs and [fetch] or [res.json()] rejects afterwards. *)
Inductive Transport : Type :=
| Delivered
| LostRequest
| LostResponse.

(** The [FormData] the handler builds: the four required fields always,
    [vin], [mileage] and the audio file when they are truthy, and the
    photos under consecutive names. *)
Definition form_of (st : State) : FormData :=
  {| Route.vehicleYear := Some (vehicleYear st);
     Route.vehicleMake := Some (vehicleMake st);
     Route.vehicleModel := Some (vehicleModel st);
     Route.vin := if String.eqb (vin st) "" then None else Some (vin st);
     Route.mileage :=
       if String.eqb (mileage st) "" then None else Some (mileage st);
     Route.symptomText := Some (symptomText st);
     Route.audioFile := audioFile st;
     Route.photoFiles := photoFiles st |}.

(** The route's collaborators when the request carries [f]. *)
Definition serving (w : World) (f : FormData) : World :=
  {| getUserFromHeaders := getUserFromHeaders w;
     select_user_ok := select_user_ok w;
     request_formData := Ok f;
     blob_put := blob_put w;
     analyzeAudio := analyzeAudio w;
     engine_diagnose := engine_diagnose w;
     rpc_ok := rpc_ok w;
     insert_ok := insert_ok w;
     select_credits_ok := select_credits_ok w |}.

Definition with_outcome (scr : string) (u : option User)
  (diag : option json) (err : option string) (st : State) : State :=
  {| screen := scr; user := u; token := token st;
     vehicleYear := vehicleYear st; vehicleMake := vehicleMake st;
     vehicleModel := vehicleModel st; vin := vin st; mileage := mileage st;
     symptomText := symptomText st; audioFile := audioFile st;
     photoFiles := photoFiles st; diagnosis := diag;
     analyzing := false; error := err |}.

(** The branch on the parsed response [data]. *)
Definition received (data : Response) (st : State) : State :=
  if Route.success data && truthy (Route.diagnosis data) then
    with_outcome "results"
      (match user st with
       | Some prev =>
           Some {| user_id := user_id prev; user_email := user_email prev;
                   credits := creditsRemaining data |}
       | None => None
       end)
      (Route.diagnosis data) None st
  else
    with_outcome "symptoms" (user st) (diagnosis st)
      (Some (if not_str (Route.error data) then "Diagnosis failed"
             else default "" (Route.error data))) st.

(** The [catch]. *)
Definition failed (st : State) : State :=
  with_outcome "symptoms" (user st) (diagnosis st) (Some "Diagnosis failed") st.

(** [user.credits < 1] *)
Definition out_of_credits (u : User) : bool :=
  match credits u with
  | Some c => (c <? 1)%Z
  | None => false
  end.

(** [setScreen(scr)] alone. *)
Definition go_to (scr : string) (st : State) : State :=
  {| screen := scr; user := user st; token := token st;
     vehicleYear := vehicleYear st; vehicleMake := vehicleMake st;
     vehicleModel := vehicleModel st; vin := vin st; mileage := mileage st;
     symptomText := symptomText st; audioFile := audioFile st;
     photoFiles := photoFiles st; diagnosis := diagnosis st;
     analyzing := analyzing st; error := error st |}.

(** [handleSubmitDiagnosis]: the client's state and the server's
    database afterwards. *)
Definition handleSubmitDiagnosis (net : Transport) (w : World)
  (st : State) (d : Database) : State * Database :=
  match user st with
  | None => (go_to "auth" st, d)
  | Some u =>
      if not_str (token st) then (go_to "auth" st, d)
      else if out_of_credits u then (go_to "pricing" st, d)
      else
        match net with
        | LostRequest => (failed st, d)
        | LostResponse => (failed st, (POST (serving w (form_of st)) d).1.2)
        | Delivered =>
            (received (POST (serving w (form_of st)) d).1.1 st,
             (POST (serving w (form_of st)) d).1.2)
        end
  end.

End Client.

(** ** Requests to [POST /api/diagnose] handled one after another

    [serve] and [deliveries] take each request to end before the next
    begins.  Requests that overlap are in module [Among]. *)

Module Sessions.
Import Route.

(** Whether the request of [w] is [uid]'s and is answered 200. *)
Definition served_to (uid : string) (w : World) (d : Database) : bool :=
  match getUserFromHeaders w with
  | Some caller => String.eqb caller uid && (status (POST w d).1.1 =? 200)%Z
  | None => false
  end.

(** The database after the requests of [ws], in order. *)
Fixpoint serve (ws : list World) (d : Database) : Database :=
  match ws with
  | [] => d
  | w :: rest => serve rest (POST w d).1.2
  end.

(** How many of the requests of [ws] gave [uid] a diagnosis. *)
Fixpoint deliveries (uid : string) (ws : list World) (d : Database) : nat :=
  match ws with
  | [] => 0
  | w :: rest =>
      (if served_to uid w d then 1 else 0)
      + deliveries uid rest (POST w d).1.2
  end.

(** One user, [u1], with one credit and no diagnosis yet. *)
Definition one_credit : Database :=
  {| users := {[ "u1" := 1%Z ]}; diagnoses := [] |}.

End Sessions.
(** * Theorems *)

Open Scope list_scope.

(** ** The platform functions of the model, on concrete inputs *)

Module PlatformFacts.
Import JsonParse.

Lemma lookup_set_prop (k : string) (v : json) (props : list (string * json)) :
  lookup_prop k (set_prop k v props) = Some v.
Proof.
  induction props as [|[k' v'] rest IH]; simpl.
  - rewrite String.eqb_refl. reflexivity.
  - destruct (String.eqb k k') eqn:E; simpl; rewrite E; auto.
Qed.

Lemma lookup_set_prop_other (k k2 : string) (v : json)
  (props : list (string * json)) :
  k2 <> k -> lookup_prop k2 (set_prop k v props) = lookup_prop k2 props.
Proof.
  intros Hne. induction props as [|[k' v'] rest IH]; simpl.
  - apply String.eqb_neq in Hne. rewrite Hne. reflexivity.
  - destruct (String.eqb k k') eqn:E; simpl.
    + apply String.eqb_eq in E. subst k'.
      apply String.eqb_neq in Hne. rewrite Hne. reflexivity.
    + rewrite IH. reflexivity.
Qed.

Example parse_nested :
  JSON_parse (dq " {'a': [1, -2.5e1, true, null], 'b': {'c': 'x'}} ")
  = Some (JObj [("a", JArr [JNum 1; JNum (-25); JBool true; JNull]);
                ("b", JObj [("c", JStr "x")])]).
Proof. vm_compute. reflexivity. Qed.

Example parse_duplicate_key :
  JSON_parse (dq "{'a': 1, 'b': 2, 'a': 3}")
  = Some (JObj [("a", JNum 3); ("b", JNum 2)]).
Proof. vm_compute. reflexivity. Qed.

Example parse_rejects :
  JSON_parse (dq "[1,]") = None
  /\ JSON_parse (dq "{'a':1} x") = None
  /\ JSON_parse "01" = None
  /\ JSON_parse "" = None
  /\ JSON_parse (dq "{a:1}") = None.
Proof. repeat split; vm_compute; reflexivity. Qed.

Example parseInt_cases :
  Route.parseInt (Some "2015") = Route.Int 2015
  /\ Route.parseInt (Some "  12 miles") = Route.Int 12
  /\ Route.parseInt (Some "0x1F") = Route.Int 31
  /\ Route.parseInt (Some "year") = Route.NaN
  /\ Route.parseInt None = Route.NaN.
Proof. repeat split; reflexivity. Qed.

Example trim_cases :
  Text.trim "  grinding noise  " = "grinding noise"
  /\ Text.trim "   " = ""
  /\ Text.trim "" = "".
Proof. repeat split; reflexivity. Qed.

End PlatformFacts.

(** ** The regular-expression match *)

Module RegexFacts.
Import Regex Text.

Lemma append_nil (s : string) : "" +:+ s = s.
Proof. reflexivity. Qed.

Lemma append_cons (c : ascii) (a b : string) :
  String c a +:+ b = String c (a +:+ b).
Proof. reflexivity. Qed.

Ltac str := rewrite ?append_cons, ?append_nil in *; simpl.

Lemma greedy_close_none (s : string) :
  has_char "}" s = false -> greedy_close s = None.
Proof.
  induction s as [|c r IH]; simpl; [reflexivity|].
  intros H. apply orb_false_iff in H as [Hc Hr].
  rewrite (IH Hr), Hc. reflexivity.
Qed.

Lemma greedy_close_some (s : string) :
  has_char "}" s = true -> exists m, greedy_close s = Some m.
Proof.
  induction s as [|c r IH]; simpl; [discriminate|].
  intros H. destruct (greedy_close r) as [m|] eqn:E; [eauto|].
  destruct (Ascii.eqb c "}") eqn:Ec; [eauto|].
  simpl in H. destruct (IH H) as [m Hm]. discriminate.
Qed.

(** The greedy run stops at the last closing brace. *)
Lemma greedy_close_last (mid post : string) :
  has_char "}" post = false ->
  greedy_close (mid +:+ "}" +:+ post) = Some (mid +:+ "}").
Proof.
  intros Hpost. induction mid as [|c r IH]; str.
  - rewrite (greedy_close_none _ Hpost). reflexivity.
  - rewrite IH. reflexivity.
Qed.

Lemma match_here_open (rest : string) :
  match_here (String "{" rest) =
  match greedy_close rest with
  | Some m => Some (String "{" m)
  | None => None
  end.
Proof. reflexivity. Qed.

Lemma match_here_other (c : ascii) (rest : string) :
  Ascii.eqb c "{" = false -> match_here (String c rest) = None.
Proof. intros H. simpl. rewrite H. reflexivity. Qed.

Lemma jsonMatch_cons (c : ascii) (r : string) :
  jsonMatch (String c r) =
  match match_here (String c r) with
  | Some m => Some m
  | None => jsonMatch r
  end.
Proof. reflexivity. Qed.

(** The search skips a prefix that has no opening brace. *)
Lemma jsonMatch_skip (pre s : string) :
  has_char "{" pre = false -> jsonMatch (pre +:+ s) = jsonMatch s.
Proof.
  induction pre as [|c r IH]; intros H; [reflexivity|].
  simpl in H. apply orb_false_iff in H as [Hc Hr].
  rewrite append_cons, jsonMatch_cons, (match_here_other _ _ Hc). auto.
Qed.

(** From the first opening brace to the last closing brace. *)
Lemma jsonMatch_span (pre mid post : string) :
  has_char "{" pre = false ->
  has_char "}" post = false ->
  jsonMatch (pre +:+ "{" +:+ mid +:+ "}" +:+ post)
  = Some ("{" +:+ mid +:+ "}").
Proof.
  intros Hpre Hpost. rewrite (jsonMatch_skip _ _ Hpre).
  rewrite !append_cons, !append_nil.
  rewrite jsonMatch_cons, match_here_open.
  pose proof (greedy_close_last mid post Hpost) as G.
  rewrite !append_cons, !append_nil in G. rewrite G. reflexivity.
Qed.

Lemma greedy_close_split (s m : string) :
  greedy_close s = Some m ->
  exists mid post, m = mid +:+ "}" /\ s = mid +:+ "}" +:+ post
                   /\ has_char "}" post = false.
Proof.
  revert m. induction s as [|c r IH]; simpl; [discriminate|].
  intros m H. destruct (greedy_close r) as [m'|] eqn:E.
  - inversion H; subst. destruct (IH _ eq_refl) as (mid & post & -> & -> & Hp).
    exists (String c mid), post. rewrite !append_cons. auto.
  - destruct (Ascii.eqb c "}") eqn:Ec; [|discriminate].
    apply Ascii.eqb_eq in Ec. subst c. inversion H; subst.
    exists "", r. split; [reflexivity|]. split; [reflexivity|].
    destruct (has_char "}" r) eqn:Hr; [|reflexivity].
    destruct (greedy_close_some _ Hr) as [x Hx]. congruence.
Qed.

(** A match is a span of the text: it opens with the first opening brace
    and closes with the last closing brace. *)
Lemma has_char_app (c : ascii) (a b : string) :
  has_char c (a +:+ b) = has_char c a || has_char c b.
Proof.
  induction a as [|x r IH]; [reflexivity|].
  rewrite append_cons. simpl. rewrite IH. apply orb_assoc.
Qed.

Lemma has_close (pre mid post : string) :
  has_char "}" (pre +:+ "{" +:+ mid +:+ "}" +:+ post) = true.
Proof.
  rewrite !has_char_app. simpl. rewrite !orb_true_r. reflexivity.
Qed.

(** A match is a span of the text: it opens with the first opening brace
    and closes with the last closing brace. *)
Lemma jsonMatch_some (s m : string) :
  jsonMatch s = Some m ->
  exists pre mid post,
    s = pre +:+ "{" +:+ mid +:+ "}" +:+ post
    /\ m = "{" +:+ mid +:+ "}"
    /\ has_char "{" pre = false /\ has_char "}" post = false.
Proof.
  revert m. induction s as [|c r IH]; intros m; [discriminate|].
  rewrite jsonMatch_cons.
  destruct (Ascii.eqb c "{") eqn:Ec.
  - apply Ascii.eqb_eq in Ec. subst c. rewrite match_here_open.
    destruct (greedy_close r) as [g|] eqn:Eg.
    + intros H. inversion H; subst.
      destruct (greedy_close_split _ _ Eg) as (mid & post & -> & -> & Hp).
      exists "", mid, post. auto.
    + intros H. destruct (IH _ H) as (pre & mid & post & -> & _ & _ & Hp).
      destruct (greedy_close_some _ (has_close pre mid post)) as [x Hx].
      congruence.
  - rewrite (match_here_other _ _ Ec). intros H.
    destruct (IH _ H) as (pre & mid & post & -> & -> & Hpre & Hpost).
    exists (String c pre), mid, post. simpl. rewrite Ec, Hpre. auto.
Qed.

(** A text with an opening brace somewhere before a closing brace has a
    match. *)
Lemma jsonMatch_finds (pre mid post : string) :
  exists m, jsonMatch (pre +:+ "{" +:+ mid +:+ "}" +:+ post) = Some m.
Proof.
  induction pre as [|c r IH].
  - rewrite append_nil, append_cons, append_nil.
    rewrite jsonMatch_cons, match_here_open.
    destruct (greedy_close_some (mid +:+ "}" +:+ post)) as [g Hg].
    { rewrite has_char_app. simpl. apply orb_true_r. }
    rewrite Hg. eauto.
  - destruct IH as [m Hm]. rewrite append_cons, jsonMatch_cons.
    destruct (match_here _); eauto.
Qed.

Lemma jsonMatch_none_iff (s : string) :
  jsonMatch s = None <->
  ~ exists pre mid post, s = pre +:+ "{" +:+ mid +:+ "}" +:+ post.
Proof.
  split.
  - intros H (pre & mid & post & ->).
    destruct (jsonMatch_finds pre mid post) as [m Hm]. congruence.
  - intros H. destruct (jsonMatch s) as [m|] eqn:E; [|reflexivity].
    destruct (jsonMatch_some _ _ E) as (pre & mid & post & -> & _).
    exfalso. apply H. eauto.
Qed.

End RegexFacts.

(** ** The prototype's diagnosis *)

Module PrototypeFacts.
Import Regex Text Prototype RegexFacts Examples.

Ltac unfold_result :=
  unfold mbind, result_bind, rbind, mret, result_ret, try_catch in *.

Section WithParser.

Variable JSON_parse : string -> option json.

(** The [catch] and the final [return] leave three outcomes. *)
Lemma performAIDiagnosis_cases (vd : VehicleData) (net : FetchOutcome) :
  performAIDiagnosis JSON_parse vd net =
  Ok (match try_block JSON_parse net with
      | Ok (Some v) => v
      | Ok None => getFallbackDiagnosis vd
      | Throw _ => getFallbackDiagnosis vd
      end).
Proof.
  unfold performAIDiagnosis. unfold_result.
  destruct (try_block JSON_parse net) as [[v|]|e]; reflexivity.
Qed.

(** A value returned from inside the [if] was parsed from the match of
    some reply text. *)
Lemma try_block_some (net : FetchOutcome) (v : json) :
  try_block JSON_parse net = Ok (Some v) ->
  exists body text m,
    net = FetchResolves body
    /\ jsonMatch text = Some m /\ JSON_parse m = Some v.
Proof.
  unfold try_block, await_fetch, parse_or_throw, string_match.
  unfold_result. destruct net as [e|body]; [discriminate|].
  destruct (JSON_parse body) as [data|]; [|discriminate].
  destruct (get_prop data "content") as [content|]; [|discriminate].
  destruct (array_find content is_text_item) as [found|]; [|discriminate].
  destruct (text_or_empty found) as [[| | |text| |]|]; try discriminate.
  destruct (jsonMatch text) as [m|] eqn:Em; [|discriminate].
  destruct (JSON_parse m) as [v'|] eqn:Ev; [|discriminate].
  intros H. inversion H; subst. exists body, text, m. auto.
Qed.

(** The run on a well-formed reply body that carries [text]. *)
Lemma try_block_reply (body text : string) :
  JSON_parse body = Some (reply_with_text text) ->
  try_block JSON_parse (FetchResolves body) =
  match jsonMatch text with
  | Some m =>
      match JSON_parse m with
      | Some v => Ok (Some v)
      | None => Throw "SyntaxError"
      end
  | None => Ok None
  end.
Proof.
  intros H. unfold try_block, await_fetch, parse_or_throw. unfold_result.
  rewrite H. cbn -[jsonMatch]. unfold_result.
  assert (E : (if negb (text =? "")%string then JStr text else JStr "")
              = JStr text).
  { destruct text; reflexivity. }
  rewrite E. cbn -[jsonMatch].
  destruct (jsonMatch text) as [m|]; [|reflexivity].
  destruct (JSON_parse m); reflexivity.
Qed.

Lemma performAIDiagnosis_reply (vd : VehicleData) (body text : string) :
  JSON_parse body = Some (reply_with_text text) ->
  performAIDiagnosis JSON_parse vd (FetchResolves body) =
  Ok (match jsonMatch text with
      | Some m =>
          match JSON_parse m with
          | Some v => v
          | None => getFallbackDiagnosis vd
          end
      | None => getFallbackDiagnosis vd
      end).
Proof.
  intros H. rewrite performAIDiagnosis_cases, (try_block_reply _ _ H).
  destruct (jsonMatch text) as [m|]; [|reflexivity].
  destruct (JSON_parse m); reflexivity.
Qed.

(** [find] passes over the items before the first text item. *)
Lemma find_item_first (before rest : list json) (item : json)
  (text : string) :
  forallb other_item before = true -> text_item text item = true ->
  find_item is_text_item (before ++ item :: rest) = Ok (Some item).
Proof.
  intros Hb Hi. induction before as [|x r IH]; cbn [app find_item].
  - unfold text_item in Hi. unfold_result.
    destruct (is_text_item item) as [[|]|]; try discriminate. reflexivity.
  - cbn in Hb. apply andb_prop in Hb as [Hx Hr]. unfold other_item in Hx.
    unfold_result.
    destruct (is_text_item x) as [[|]|]; try discriminate. exact (IH Hr).
Qed.

Lemma text_item_text (item : json) (text : string) :
  text_item text item = true -> text_or_empty (Some item) = Ok (JStr text).
Proof.
  unfold text_item, text_or_empty. unfold_result.
  destruct (is_text_item item) as [[|]|] eqn:E; try discriminate.
  destruct item as [| | | | |props]; try discriminate. cbn.
  destruct (lookup_prop "text" props) as [[| | |s| |]|]; try discriminate.
  intros H. apply String.eqb_eq in H. subst s. cbn.
  destruct text; reflexivity.
Qed.

(** The run on a decoded reply of any shape that carries [text]. *)
Lemma try_block_carries (body text : string) (data : json) :
  JSON_parse body = Some data -> carries_text data text ->
  try_block JSON_parse (FetchResolves body) =
  match jsonMatch text with
  | Some m =>
      match JSON_parse m with
      | Some v => Ok (Some v)
      | None => Throw "SyntaxError"
      end
  | None => Ok None
  end.
Proof.
  intros H (before & item & rest & Hc & Hb & Hi).
  unfold try_block, await_fetch, parse_or_throw. unfold_result. rewrite H.
  destruct data as [| | | | |props]; try discriminate. cbn in Hc.
  cbn [get_prop]. rewrite Hc. cbn [array_find].
  rewrite (find_item_first before rest item text Hb Hi).
  rewrite (text_item_text item text Hi). cbn [string_match].
  destruct (jsonMatch text) as [m|]; [|reflexivity].
  destruct (JSON_parse m); reflexivity.
Qed.

Lemma performAIDiagnosis_carries (vd : VehicleData) (body text : string)
  (data : json) :
  JSON_parse body = Some data -> carries_text data text ->
  performAIDiagnosis JSON_parse vd (FetchResolves body) =
  Ok (match jsonMatch text with
      | Some m =>
          match JSON_parse m with
          | Some v => v
          | None => getFallbackDiagnosis vd
          end
      | None => getFallbackDiagnosis vd
      end).
Proof.
  intros H Hc. rewrite performAIDiagnosis_cases, (try_block_carries _ _ _ H Hc).
  destruct (jsonMatch text) as [m|]; [|reflexivity].
  destruct (JSON_parse m); reflexivity.
Qed.

(** Without an array under [content] the [try] block throws. *)
Lemma try_block_no_content (body : string) (data : json) :
  JSON_parse body = Some data ->
  (forall items, field "content" data <> Some (JArr items)) ->
  exists e, try_block JSON_parse (FetchResolves body) = Throw e.
Proof.
  intros H Hn. unfold try_block, await_fetch, parse_or_throw.
  unfold_result. rewrite H.
  destruct data as [| | | | |props]; cbn; eauto.
  cbn in Hn. destruct (lookup_prop "content" props) as [[| | | |items|]|];
    cbn; eauto.
  exfalso. exact (Hn items eq_refl).
Qed.

End WithParser.

(** The minimal reply carries its text. *)
Lemma reply_with_text_carries (text : string) :
  carries_text (reply_with_text text) text.
Proof.
  exists [], (JObj [("type", JStr "text"); ("text", JStr text)]), [].
  repeat split. unfold text_item. cbn. apply String.eqb_refl.
Qed.

(** C1 (as amended): [performAIDiagnosis] never raises.  For every vehicle
    and every behaviour of the generation call it returns a report.  The
    report is the value the [try] block returned whenever it returned
    one, and the fixed fallback whenever the block throws (transport, a
    reply that does not decode, a reply without an array under [content],
    a match that does not parse) or finds no match.  For a decoded reply
    of any shape that carries a text, the report is exactly what
    [JSON.parse] makes of the match of that text, returned without
    validation, and the fallback when there is no match or it does not
    parse.  The fallback has no [usedFallback] flag. *)
Theorem performAIDiagnosis_total
  (JSON_parse : string -> option json) (vd : VehicleData)
  (net : FetchOutcome) :
  exists r,
    performAIDiagnosis JSON_parse vd net = Ok r
    /\ (forall v, try_block JSON_parse net = Ok (Some v) -> r = v)
    /\ (forall e, try_block JSON_parse net = Throw e ->
                  r = getFallbackDiagnosis vd)
    /\ (try_block JSON_parse net = Ok None -> r = getFallbackDiagnosis vd)
    /\ (forall e, net = FetchRejects e -> r = getFallbackDiagnosis vd)
    /\ (forall body, net = FetchResolves body -> JSON_parse body = None ->
                     r = getFallbackDiagnosis vd)
    /\ (forall body data,
          net = FetchResolves body -> JSON_parse body = Some data ->
          (forall items, field "content" data <> Some (JArr items)) ->
          r = getFallbackDiagnosis vd)
    /\ (forall body data text,
          net = FetchResolves body -> JSON_parse body = Some data ->
          carries_text data text ->
          r = match jsonMatch text with
              | Some m =>
                  match JSON_parse m with
                  | Some v => v
                  | None => getFallbackDiagnosis vd
                  end
              | None => getFallbackDiagnosis vd
              end)
    /\ (r = getFallbackDiagnosis vd
        \/ exists body text m,
             net = FetchResolves body
             /\ jsonMatch text = Some m /\ JSON_parse m = Some r)
    /\ field "usedFallback" (getFallbackDiagnosis vd) = None.
Proof.
  eexists. split; [apply performAIDiagnosis_cases|].
  split; [intros v ->; reflexivity|].
  split; [intros e ->; reflexivity|].
  split; [intros ->; reflexivity|].
  split; [intros e ->; reflexivity|].
  split.
  { intros body -> H. unfold try_block, await_fetch, parse_or_throw.
    unfold_result. rewrite H. reflexivity. }
  split.
  { intros body data -> H Hn.
    destruct (try_block_no_content JSON_parse body data H Hn) as [e ->].
    reflexivity. }
  split.
  { intros body data text -> H Hc.
    rewrite (try_block_carries JSON_parse body text data H Hc).
    destruct (jsonMatch text) as [m|]; [|reflexivity].
    destruct (JSON_parse m); reflexivity. }
  split; [|reflexivity].
  destruct (try_block JSON_parse net) as [[v|]|e] eqn:E; auto.
  right. eapply try_block_some; eauto.
Qed.

(** C1, counterexample: a reply whose text is an empty object is returned
    as the report.  It has no diagnosis, severity or confidence, so it is
    not a structurally valid report, and it is not the fallback either;
    and the report returned on a transport failure has no [usedFallback]
    flag. *)
Lemma performAIDiagnosis_returns_invalid_report :
  performAIDiagnosis JsonParse.JSON_parse civic (FetchResolves (body_of "{}"))
    = Ok (JObj [])
  /\ Spec.valid_report (JObj []) = false
  /\ JObj [] <> getFallbackDiagnosis civic
  /\ (exists r,
        performAIDiagnosis JsonParse.JSON_parse civic (FetchRejects "network")
          = Ok r
        /\ field "usedFallback" r = None).
Proof.
  split; [vm_compute; reflexivity|].
  split; [reflexivity|].
  split; [discriminate|].
  eexists. split; [vm_compute; reflexivity|reflexivity].
Qed.

(** C3 (as amended): whenever the generation path fails (the [try] block
    throws, or the reply text has no match), the report returned is the
    fixed template of [getFallbackDiagnosis], which reads nothing but the
    vehicle: its diagnosis is a fixed, non-empty text naming the vehicle's
    year, make and model; its severity is always medium; it has six repair
    steps numbered 1 to 6 and the cost range 150 to 650; it has no
    confidence, no safeToDrive and no usedFallback field. *)
Theorem getFallbackDiagnosis_fixed (vd : VehicleData) :
  let r := getFallbackDiagnosis vd in
  (forall JSON_parse net,
     (try_block JSON_parse net = Ok None
      \/ exists e, try_block JSON_parse net = Throw e) ->
     performAIDiagnosis JSON_parse vd net = Ok r)
  /\ (exists rest,
        field "diagnosis" r
        = Some (JStr ("The high-pitch whine on a " +:+ year vd +:+ " "
                      +:+ make vd +:+ " " +:+ model vd +:+ rest)))
  /\ Spec.nonempty_text (field "diagnosis" r) = true
  /\ field "severity" r = Some (JStr "medium")
  /\ step_numbers r
     = [Some (JNum 1); Some (JNum 2); Some (JNum 3);
        Some (JNum 4); Some (JNum 5); Some (JNum 6)]
  /\ field "estimatedCost" r
     = Some (JObj [("min", JNum 150); ("max", JNum 650)])
  /\ field "primaryDiagnosis" r = None
  /\ field "confidence" r = None
  /\ field "safeToDrive" r = None
  /\ field "usedFallback" r = None.
Proof.
  split.
  - intros JSON_parse net H. rewrite performAIDiagnosis_cases.
    destruct H as [-> | [e ->]]; reflexivity.
  - repeat split; try reflexivity. eexists. reflexivity.
Qed.

(** C3, counterexample: with the brake document as top evidence the
    specification asks for the diagnosis [worn brake pads], severity high,
    safeToDrive false, confidence 0.3 and usedFallback true; the code's
    fallback has severity medium, another diagnosis, and none of the three
    other fields.  With no evidence it still lacks them. *)
Lemma getFallbackDiagnosis_ignores_evidence :
  ~ Spec.fallback_as_specified [brake_match] (getFallbackDiagnosis civic)
  /\ ~ Spec.fallback_as_specified [] (getFallbackDiagnosis civic)
  /\ field "severity" (getFallbackDiagnosis civic) = Some (JStr "medium")
  /\ Spec.diagnosis_text (getFallbackDiagnosis civic)
     <> Some (JStr "worn brake pads").
Proof.
  repeat split.
  - intros (_ & H & _). vm_compute in H. discriminate.
  - intros (_ & _ & H & _). vm_compute in H. discriminate.
  - vm_compute. discriminate.
Qed.

(** C4 (as amended): the parsed response is not validated.  For a decoded
    reply of any shape that carries a text (whatever else the reply
    holds), whenever the match of that text parses, the parsed value is
    what the caller gets, whatever its fields hold; the fallback report is
    substituted only when the text has no match or the match does not
    parse. *)
Theorem performAIDiagnosis_no_validation
  (JSON_parse : string -> option json) (vd : VehicleData)
  (body text : string) (data : json) :
  JSON_parse body = Some data -> carries_text data text ->
  (forall m v, jsonMatch text = Some m -> JSON_parse m = Some v ->
     performAIDiagnosis JSON_parse vd (FetchResolves body) = Ok v)
  /\ (forall m, jsonMatch text = Some m -> JSON_parse m = None ->
        performAIDiagnosis JSON_parse vd (FetchResolves body)
        = Ok (getFallbackDiagnosis vd))
  /\ (jsonMatch text = None ->
        performAIDiagnosis JSON_parse vd (FetchResolves body)
        = Ok (getFallbackDiagnosis vd))
  /\ (performAIDiagnosis JSON_parse vd (FetchResolves body)
      = Ok (getFallbackDiagnosis vd)
      \/ exists m v, jsonMatch text = Some m /\ JSON_parse m = Some v
                     /\ performAIDiagnosis JSON_parse vd (FetchResolves body)
                        = Ok v).
Proof.
  intros H Hc. rewrite (performAIDiagnosis_carries _ _ _ _ _ H Hc).
  split; [|split; [|split]].
  - intros m v -> ->. reflexivity.
  - intros m -> ->. reflexivity.
  - intros ->. reflexivity.
  - destruct (jsonMatch text) as [m|]; [|auto].
    destruct (JSON_parse m) as [v|] eqn:E; [|auto]. right. eauto.
Qed.

(** The decoded form of [api_body_of text]. *)
Lemma api_body_carries (text : string) (data : json) (between : list json) :
  field "content" data
  = Some (JArr (JObj [("type", JStr "thinking"); ("thinking", JStr "brakes")]
                  :: JObj [("type", JStr "text"); ("text", JStr text)]
                  :: between)) ->
  carries_text data text.
Proof.
  intros H.
  exists [JObj [("type", JStr "thinking"); ("thinking", JStr "brakes")]],
    (JObj [("type", JStr "text"); ("text", JStr text)]), between.
  split; [exact H|]. split; [reflexivity|].
  unfold text_item. cbn. apply String.eqb_refl.
Qed.

(** C4, witness: a reply as the API sends it, with its identification,
    model and usage, a block of another type before the text and another
    text block after it; the rule-breaking report in its text is returned
    as parsed. *)
Lemma performAIDiagnosis_no_validation_witness :
  performAIDiagnosis JsonParse.JSON_parse civic
    (FetchResolves (api_body_of broken_reply))
  = Ok broken_report.
Proof.
  refine (proj1 (performAIDiagnosis_no_validation JsonParse.JSON_parse civic
            (api_body_of broken_reply) broken_reply
            (default JNull (JsonParse.JSON_parse (api_body_of broken_reply)))
            _ _)
            broken_reply broken_report _ _).
  - vm_compute; reflexivity.
  - eapply api_body_carries. vm_compute. reflexivity.
  - vm_compute; reflexivity.
  - vm_compute; reflexivity.
Defined.

(** C4, counterexample: a parsed response that violates every hard rule
    (empty diagnosis, unknown severity, confidence 7, steps starting at 4,
    a cost range with min above max) is returned to the caller, not
    replaced by the fallback. *)
Lemma performAIDiagnosis_returns_rule_breaking_report :
  performAIDiagnosis JsonParse.JSON_parse civic
    (FetchResolves (body_of broken_reply))
  = Ok broken_report
  /\ Spec.valid_report broken_report = false
  /\ Spec.nonempty_text (Spec.diagnosis_text broken_report) = false
  /\ Spec.is_severity (field "severity" broken_report) = false
  /\ Spec.unit_interval (field "confidence" broken_report) = false
  /\ Spec.steps_ok (field "repairSteps" broken_report) = false
  /\ Spec.cost_ok (field "estimatedCost" broken_report) = false
  /\ broken_report <> getFallbackDiagnosis civic.
Proof.
  split; [vm_compute; reflexivity|].
  repeat split; try reflexivity. discriminate.
Qed.

(** C9 (as amended): the parser takes the span from the first opening
    brace of the reply text to its last closing brace.  For a decoded
    reply of any shape that carries a text: when the text is one
    brace-delimited object between prose that has no opening brace before
    it and no closing brace after it, the span is exactly that object and
    its parse (or the fallback, if it does not parse) is returned.  The
    fallback is reached through the no-match path exactly when no opening
    brace comes before a closing brace, and through the [catch] exactly
    when the span is not valid JSON. *)
Theorem jsonMatch_first_open_to_last_close
  (JSON_parse : string -> option json) (vd : VehicleData)
  (body text : string) (data : json) :
  JSON_parse body = Some data -> carries_text data text ->
  (forall pre mid post,
     text = pre +:+ "{" +:+ mid +:+ "}" +:+ post ->
     has_char "{" pre = false -> has_char "}" post = false ->
     jsonMatch text = Some ("{" +:+ mid +:+ "}")
     /\ performAIDiagnosis JSON_parse vd (FetchResolves body)
        = Ok (match JSON_parse ("{" +:+ mid +:+ "}") with
              | Some v => v
              | None => getFallbackDiagnosis vd
              end))
  /\ (try_block JSON_parse (FetchResolves body) = Ok None
      <-> ~ exists pre mid post, text = pre +:+ "{" +:+ mid +:+ "}" +:+ post)
  /\ (forall e,
        try_block JSON_parse (FetchResolves body) = Throw e
        <-> e = "SyntaxError"
            /\ exists m, jsonMatch text = Some m /\ JSON_parse m = None)
  /\ (forall m, jsonMatch text = Some m ->
        exists pre mid post,
          text = pre +:+ "{" +:+ mid +:+ "}" +:+ post
          /\ m = "{" +:+ mid +:+ "}"
          /\ has_char "{" pre = false /\ has_char "}" post = false).
Proof.
  intros H Hc. split; [|split; [|split]].
  - intros pre mid post -> Hpre Hpost.
    pose proof (jsonMatch_span pre mid post Hpre Hpost) as E.
    split; [exact E|].
    rewrite (performAIDiagnosis_carries _ _ _ _ _ H Hc), E. reflexivity.
  - rewrite (try_block_carries _ _ _ _ H Hc), <- jsonMatch_none_iff.
    destruct (jsonMatch text) as [m|]; [|tauto].
    destruct (JSON_parse m); split; discriminate.
  - intros e. rewrite (try_block_carries _ _ _ _ H Hc).
    destruct (jsonMatch text) as [m|].
    + destruct (JSON_parse m) as [v|] eqn:Ev.
      * split; [discriminate|]. intros (_ & m' & Hm & Hn). congruence.
      * split.
        -- intros E. inversion E. eauto.
        -- intros (-> & _). reflexivity.
    + split; [discriminate|]. intros (_ & m' & Hm & _). discriminate.
  - intros m Hm. exact (jsonMatch_some _ _ Hm).
Qed.

(** C9, witness: a reply as the API sends it whose text is one object
    between two runs of prose. *)
Lemma jsonMatch_first_open_to_last_close_witness :
  jsonMatch one_object_reply
  = Some (JsonParse.dq "{'diagnosis':'worn brake pads'}")
  /\ performAIDiagnosis JsonParse.JSON_parse civic
       (FetchResolves (api_body_of one_object_reply))
     = Ok (JObj [("diagnosis", JStr "worn brake pads")]).
Proof.
  exact (proj1 (jsonMatch_first_open_to_last_close JsonParse.JSON_parse civic
                  (api_body_of one_object_reply) one_object_reply
                  (default JNull
                     (JsonParse.JSON_parse (api_body_of one_object_reply)))
                  ltac:(vm_compute; reflexivity)
                  ltac:(eapply api_body_carries; vm_compute; reflexivity))
           "Here is the diagnosis: "
           (JsonParse.dq "'diagnosis':'worn brake pads'")
           " Hope it helps." eq_refl eq_refl eq_refl).
Defined.

(** C9, counterexample: the reply holds two balanced blocks, each a valid
    object.  The first balanced block is the first object, but the match
    runs from the first opening brace to the last closing brace, is not
    valid JSON, and the fallback is returned although a balanced block
    was there to extract. *)
Lemma jsonMatch_is_not_first_balanced_block :
  Spec.first_balanced_block two_object_reply
    = Some (JsonParse.dq "{'diagnosis':'worn brake pads'}")
  /\ JsonParse.JSON_parse (JsonParse.dq "{'diagnosis':'worn brake pads'}")
     = Some (JObj [("diagnosis", JStr "worn brake pads")])
  /\ jsonMatch two_object_reply = Some two_object_reply
  /\ jsonMatch two_object_reply <> Spec.first_balanced_block two_object_reply
  /\ performAIDiagnosis JsonParse.JSON_parse civic
       (FetchResolves (body_of two_object_reply))
     = Ok (getFallbackDiagnosis civic).
Proof.
  split; [vm_compute; reflexivity|].
  split; [vm_compute; reflexivity|].
  split; [vm_compute; reflexivity|].
  split; [vm_compute; discriminate|].
  vm_compute; reflexivity.
Qed.

(** C5 (as amended): [performAIDiagnosis], the synthesizer under the
    sources, is given no evidence and checks no citation.  The report it
    returns is either the fallback, which has no [citedEvidenceIds], or
    the value parsed from the reply; for a decoded reply of any shape that
    carries a text whose match parses, the report is the parsed value, so
    its [citedEvidenceIds] are exactly what the reply wrote: no id is
    stripped, whatever retrieval did or did not return. *)
Theorem performAIDiagnosis_keeps_cited_ids
  (JSON_parse : string -> option json) (vd : VehicleData)
  (net : FetchOutcome) :
  exists r,
    performAIDiagnosis JSON_parse vd net = Ok r
    /\ (forall v, try_block JSON_parse net = Ok (Some v) ->
          r = v /\ Spec.cited_ids r = Spec.cited_ids v)
    /\ ((forall v, try_block JSON_parse net <> Ok (Some v)) ->
        r = getFallbackDiagnosis vd)
    /\ field "citedEvidenceIds" (getFallbackDiagnosis vd) = None
    /\ Spec.cited_ids (getFallbackDiagnosis vd) = []
    /\ (forall body data text m v,
          net = FetchResolves body -> JSON_parse body = Some data ->
          carries_text data text ->
          jsonMatch text = Some m -> JSON_parse m = Some v ->
          r = v
          /\ field "citedEvidenceIds" r = field "citedEvidenceIds" v
          /\ forall retrieved,
               Spec.cites_only retrieved r = Spec.cites_only retrieved v).
Proof.
  eexists. split; [apply performAIDiagnosis_cases|].
  split; [intros v ->; auto|]. split.
  { intros Hn. destruct (try_block JSON_parse net) as [[v|]|e];
      [exfalso; exact (Hn v eq_refl)|reflexivity|reflexivity]. }
  split; [reflexivity|]. split; [reflexivity|].
  intros body data text m v -> H Hc Hm Hv.
  rewrite (try_block_carries JSON_parse body text data H Hc), Hm, Hv. auto.
Qed.

(** C5, counterexample: the reply cites [tsb-999].  The prototype
    retrieved nothing, so no id is a retrieved one; the report comes back
    citing [tsb-999] all the same, and it would even had the brake
    document [tsb-003] been the evidence: the unknown id is not
    stripped. *)
Lemma performAIDiagnosis_cites_unretrieved_id :
  performAIDiagnosis JsonParse.JSON_parse civic
    (FetchResolves (api_body_of citing_reply))
  = Ok citing_report
  /\ Spec.cited_ids citing_report = ["tsb-999"]
  /\ Spec.cites_only [] citing_report = false
  /\ Spec.cites_only [Engine.doc_id brake_match] citing_report = false.
Proof.
  split; [vm_compute; reflexivity|]. repeat split.
Qed.

End PrototypeFacts.

(** ** The route handler *)

Module RouteFacts.
Import Route.

Ltac unfold_handler :=
  unfold mbind, handler_bind, mret, handler_ret, emit, respond, raise,
    read_db, write_db in *.

Section WithWorld.

Variable w : World.

Lemma process_audio_run (a : option File) (st : HState) :
  exists r media,
    process_audio w a st
    = (Next r, {| db := db st; trace := trace st ++ media |})
    /\ forallb is_media media = true.
Proof.
  unfold process_audio. unfold_handler. destruct st as [d tr]. simpl.
  destruct a as [f|].
  - destruct (0 <? file_size f)%Z.
    + destruct (blob_put w f) as [url|]; simpl.
      * exists (Some url, analyzeAudio w f), [EvPut f; EvAnalyzeAudio f].
        rewrite <- app_assoc. auto.
      * exists (None, None), [EvPut f]. auto.
    + exists (None, None), []. rewrite app_nil_r. auto.
  - exists (None, None), []. rewrite app_nil_r. auto.
Qed.

Lemma upload_photos_run (fs : list File) (urls : list string) (st : HState) :
  exists urls' media,
    upload_photos w fs urls st
    = (Next urls', {| db := db st; trace := trace st ++ media |})
    /\ forallb is_media media = true.
Proof.
  revert urls st. induction fs as [|f rest IH]; intros urls [d tr]; simpl.
  - exists urls, []. rewrite app_nil_r. auto.
  - destruct (0 <? file_size f)%Z.
    + unfold_handler. simpl.
      destruct (blob_put w f) as [url|].
      * destruct (IH (urls ++ [url])%list {| db := d; trace := tr ++ [EvPut f] |})
          as (u & m & E & Hm).
        exists u, (EvPut f :: m). rewrite E. simpl.
        rewrite <- app_assoc. auto.
      * destruct (IH urls {| db := d; trace := tr ++ [EvPut f] |})
          as (u & m & E & Hm).
        exists u, (EvPut f :: m). rewrite E. simpl.
        rewrite <- app_assoc. auto.
    + apply IH.
Qed.

(** Every run of [POST] has one of the seven shapes. *)
Lemma POST_run (d : Database) : Run w d (POST w d).
Proof.
  unfold POST, post_body.
  destruct (getUserFromHeaders w) as [uid|] eqn:Ha.
  2:{ apply RunUnauthorized; assumption. }
  unfold select_user. unfold_handler. simpl.
  destruct (if select_user_ok w then users d !! uid else None)
    as [credits|] eqn:Hu.
  2:{ eapply RunNoUser; eassumption. }
  assert (Hs : select_user_ok w = true /\ users d !! uid = Some credits).
  { destruct (select_user_ok w); [auto|discriminate]. }
  destruct Hs as [Hs Hc].
  destruct (credits <? 1)%Z eqn:Hlt.
  { apply Z.ltb_lt in Hlt. eapply RunNoCredits; eassumption. }
  apply Z.ltb_ge in Hlt.
  unfold await_formData. unfold_handler. simpl.
  destruct (request_formData w) as [f|e] eqn:Hf.
  2:{ eapply RunFormThrows; eassumption. }
  destruct (missing_fields f) eqn:Hm.
  { eapply RunMissingFields; eassumption. }
  match goal with
  | |- context [process_audio w ?a ?st] =>
      destruct (process_audio_run a st)
        as ([audioUrl audioAnalysis] & m1 & E1 & Hm1)
  end.
  rewrite E1. simpl.
  match goal with
  | |- context [upload_photos w ?fs ?us ?st] =>
      destruct (upload_photos_run fs us st) as (photoUrls & m2 & E2 & Hm2)
  end.
  rewrite E2. simpl.
  unfold await_diagnose. unfold_handler. simpl.
  destruct (engine_diagnose w (vehicle_info f) (default "" (symptomText f))
              audioAnalysis (nonempty_urls photoUrls)) as [diag|e] eqn:Hd.
  - unfold rpc_decrement, insert_diagnosis, select_credits. unfold_handler.
    pose proof (RunCompleted w d uid credits f audioUrl audioAnalysis photoUrls
                  (m1 ++ m2)%list diag Ha Hs Hc Hlt Hf Hm) as R.
    rewrite forallb_app, Hm1, Hm2 in R. specialize (R eq_refl Hd).
    unfold after_insert, after_decrement in R. simpl in R.
    destruct (rpc_ok w); destruct (insert_ok w) as [sid|]; simpl in *;
      repeat rewrite <- app_assoc in *; simpl in *; exact R.
  - pose proof (RunEngineThrows w d uid credits f audioAnalysis
                  photoUrls (m1 ++ m2)%list e Ha Hs Hc Hlt Hf Hm) as R.
    rewrite forallb_app, Hm1, Hm2 in R. specialize (R eq_refl Hd).
    repeat rewrite <- app_assoc in *; simpl in *. exact R.
Qed.

End WithWorld.

Lemma forallb_media_not (p : Event -> bool) (media : list Event) :
  (forall e, is_media e = true -> p e = false) ->
  forallb is_media media = true -> existsb p media = false.
Proof.
  intros Hp. induction media as [|e r IH]; simpl; [reflexivity|].
  intros H. apply andb_true_iff in H as [He Hr].
  rewrite (Hp e He), (IH Hr). reflexivity.
Qed.

Lemma media_no_diagnose (media : list Event) :
  forallb is_media media = true -> existsb is_diagnose media = false.
Proof. apply forallb_media_not. intros [] H; simpl in *; congruence. Qed.


Lemma not_str_missing (f : FormData) :
  not_str (symptomText f) = true -> missing_fields f = true.
Proof.
  intros H. unfold missing_fields. rewrite H, !orb_true_r. reflexivity.
Qed.

(** C2 (as amended): when [symptomText] is missing or the empty string,
    the handler makes no upload, no audio analysis, no engine call and no
    credit deduction, and leaves the database as it was; for an
    authenticated user with at least one credit it answers 400 with
    [Missing required fields].  The text is not trimmed: white space
    alone passes this check. *)
Theorem POST_rejects_empty_symptom (w : World) (d : Database) (f : FormData) :
  request_formData w = Ok f ->
  not_str (symptomText f) = true ->
  (POST w d).1.2 = d
  /\ existsb is_diagnose (POST w d).2 = false
  /\ existsb is_media (POST w d).2 = false
  /\ existsb is_decrement (POST w d).2 = false
  /\ (forall uid credits,
        getUserFromHeaders w = Some uid -> select_user_ok w = true ->
        users d !! uid = Some credits -> (1 <= credits)%Z ->
        POST w d = (failure 400 "Missing required fields", d,
                    [EvSelectUser uid; EvFormData])).
Proof.
  intros Hf Hs. pose proof (not_str_missing f Hs) as Hm.
  pose proof (POST_run w d) as R.
  destruct R; simpl;
    try (match goal with
         | H1 : request_formData w = Ok ?g, H2 : missing_fields ?g = false |- _ =>
             rewrite Hf in H1; inversion H1; subst; congruence
         end);
    (split; [reflexivity|]); (split; [reflexivity|]);
    (split; [reflexivity|]); (split; [reflexivity|]);
    intros uid' c' Ha Hok Hu Hc; try congruence;
    simplify_eq; try reflexivity; try lia.
  rewrite Hok in *. congruence.
Qed.

(** C2, witness: an empty symptom text, a user with two credits. *)
Lemma POST_rejects_empty_symptom_witness :
  POST (Examples.world_with (Some "") (Ok Examples.brake_report) true)
    Examples.two_credits
  = (failure 400 "Missing required fields", Examples.two_credits,
     [EvSelectUser "u1"; EvFormData]).
Proof.
  exact (proj2 (proj2 (proj2 (proj2
           (POST_rejects_empty_symptom
              (Examples.world_with (Some "") (Ok Examples.brake_report) true)
              Examples.two_credits (Examples.form_with (Some ""))
              eq_refl eq_refl))))
           "u1" 2%Z eq_refl eq_refl ltac:(vm_compute; reflexivity)
           ltac:(lia)).
Defined.


End RouteFacts.

(** ** The engine, as modelled from the specification *)

Module EngineFacts.
Import Engine.

(** *** Sorting *)

Lemma insert_desc_perm (m : EvidenceMatch) (l : list EvidenceMatch) :
  insert_desc m l ≡ₚ m :: l.
Proof.
  induction l as [|x r IH]; simpl; [reflexivity|].
  destruct (Qle_bool (similarityScore x) (similarityScore m)); [reflexivity|].
  rewrite IH. apply Permutation_swap.
Qed.

Lemma sort_desc_perm (l : list EvidenceMatch) : sort_desc l ≡ₚ l.
Proof.
  induction l as [|x r IH]; simpl; [reflexivity|].
  rewrite insert_desc_perm, IH. reflexivity.
Qed.

Lemma insert_desc_sorted (m : EvidenceMatch) (l : list EvidenceMatch) :
  StronglySorted ranked l -> StronglySorted ranked (insert_desc m l).
Proof.
  induction 1 as [|x r Hs IH Hx]; simpl.
  - repeat constructor.
  - destruct (Qle_bool (similarityScore x) (similarityScore m)) eqn:E.
    + apply Qle_bool_iff in E. constructor; [constructor; assumption|].
      constructor; [exact E|].
      eapply Forall_impl; [exact Hx|]. intros y Hy. unfold ranked in *.
      eapply Qle_trans; eassumption.
    + constructor; [assumption|].
      rewrite insert_desc_perm. constructor; [|assumption].
      unfold ranked. apply Qlt_le_weak, Qnot_le_lt. intros Hle.
      apply Qle_bool_iff in Hle. congruence.
Qed.

Lemma sort_desc_sorted (l : list EvidenceMatch) :
  StronglySorted ranked (sort_desc l).
Proof.
  induction l as [|x r IH]; simpl; [constructor|].
  apply insert_desc_sorted, IH.
Qed.

Lemma take_sorted (k : nat) (l : list EvidenceMatch) :
  StronglySorted ranked l -> StronglySorted ranked (take k l).
Proof.
  intros H. revert k. induction H as [|x r Hs IH Hx]; intros [|k]; simpl;
    try constructor; auto.
  apply Forall_forall. intros y Hy.
  rewrite Forall_forall in Hx. apply Hx.
  exact (subseteq_take k r y Hy).
Qed.

(** *** Deduplication *)

Lemma dedupe_sub (seen : gset string) (l : list EvidenceMatch)
  (m : EvidenceMatch) :
  m ∈ dedupe seen l -> m ∈ l /\ doc_id m ∉ seen.
Proof.
  revert seen. induction l as [|x r IH]; intros seen; simpl.
  - intros H. inversion H.
  - destruct (decide (doc_id x ∈ seen)) as [Hin|Hout].
    + intros H. destruct (IH _ H). split; [right|]; assumption.
    + intros H. apply elem_of_cons in H as [->|H].
      * split; [left|assumption].
      * destruct (IH _ H) as [H1 H2]. split; [right; assumption|].
        intros Hs. apply H2, elem_of_union. right. exact Hs.
Qed.

Lemma dedupe_NoDup (seen : gset string) (l : list EvidenceMatch) :
  NoDup (map doc_id (dedupe seen l)).
Proof.
  revert seen. induction l as [|x r IH]; intros seen; simpl.
  - constructor.
  - destruct (decide (doc_id x ∈ seen)); [apply IH|].
    simpl. apply NoDup_cons. split; [|apply IH].
    intros Hin. apply list_elem_of_In, in_map_iff in Hin
      as (y & Hy & Hyin).
    apply list_elem_of_In, dedupe_sub in Hyin as [_ Hn].
    apply Hn. rewrite Hy. set_solver.
Qed.

Lemma dedupe_head (x : EvidenceMatch) (r : list EvidenceMatch) :
  dedupe ∅ (x :: r) = x :: dedupe ({[doc_id x]} ∪ ∅) r.
Proof.
  simpl. destruct (decide (doc_id x ∈ (∅ : gset string))) as [H|H];
    [set_solver|reflexivity].
Qed.

Lemma NoDup_map_take (k : nat) (l : list EvidenceMatch) :
  NoDup (map doc_id l) -> NoDup (map doc_id (take k l)).
Proof.
  revert k. induction l as [|x r IH]; intros [|k] H; simpl;
    try constructor.
  - simpl in H. apply NoDup_cons in H as [Hx Hr].
    intros Hin. apply Hx.
    apply list_elem_of_In, in_map_iff in Hin as (y & Hy & Hyin).
    apply list_elem_of_In, in_map_iff. exists y. split; [assumption|].
    apply list_elem_of_In. apply list_elem_of_In in Hyin.
    exact (subseteq_take k r y Hyin).
  - simpl in H. apply NoDup_cons in H as [_ Hr]. auto.
Qed.

(** C6: every evidence sequence the retriever returns has at most [K]
    entries, no two entries with the same document id, and similarity
    scores that do not increase from the first entry to the last. *)
Theorem retrieve_bounded_distinct_ranked
  (embed : string -> option (list Q)) (similarity : list Q -> list Q -> Q)
  (cfg : Config) (store : option (list EvidenceDocument))
  (q : DiagnosticQuery) :
  length (retrieve embed similarity cfg store q) <= K cfg
  /\ NoDup (map doc_id (retrieve embed similarity cfg store q))
  /\ StronglySorted ranked (retrieve embed similarity cfg store q).
Proof.
  unfold retrieve.
  destruct (embed (composeQuery q)) as [v|];
    [|simpl; repeat split; [lia|constructor|constructor]].
  destruct store as [docs|];
    [|simpl; repeat split; [lia|constructor|constructor]].
  split; [|split].
  - rewrite length_take. lia.
  - apply NoDup_map_take.
    rewrite (Permutation_map doc_id (sort_desc_perm _)).
    apply dedupe_NoDup.
  - apply take_sorted, sort_desc_sorted.
Qed.

(** *** The similarity cutoff *)

Section Threshold.

Variable cfg : Config.

Lemma best_match_spec (l : list EvidenceMatch) (b : EvidenceMatch) :
  best_match l = Some b ->
  b ∈ l /\ forall c, c ∈ l -> (similarityScore c <= similarityScore b)%Q.
Proof.
  revert b. induction l as [|m r IH]; intros b; simpl; [discriminate|].
  destruct (best_match r) as [b'|] eqn:E.
  - destruct (IH _ eq_refl) as [Hin Hmax].
    destruct (Qle_bool (similarityScore b') (similarityScore m)) eqn:Q;
      intros H; inversion H; subst.
    + apply Qle_bool_iff in Q. split; [left|].
      intros c Hc. apply elem_of_cons in Hc as [->|Hc]; [apply Qle_refl|].
      eapply Qle_trans; [apply Hmax, Hc|exact Q].
    + split; [right; assumption|].
      intros c Hc. apply elem_of_cons in Hc as [->|Hc]; [|auto].
      apply Qlt_le_weak, Qnot_le_lt. intros Hle.
      apply Qle_bool_iff in Hle. congruence.
  - intros H. inversion H; subst. split; [left|].
    intros c Hc. apply elem_of_cons in Hc as [->|Hc]; [apply Qle_refl|].
    destruct r; [inversion Hc|]. simpl in E.
    destruct (best_match r); [destruct (Qle_bool _ _)|]; discriminate.
Qed.

Lemma best_match_some (l : list EvidenceMatch) :
  l <> [] -> exists b, best_match l = Some b.
Proof.
  destruct l as [|m r]; [congruence|]. intros _. simpl.
  destruct (best_match r) as [b|]; [|eauto].
  destruct (Qle_bool _ _); eauto.
Qed.

Lemma filter_above (l : list EvidenceMatch) (m : EvidenceMatch) :
  m ∈ List.filter (above_threshold cfg) l <->
  m ∈ l /\ (minSimilarity cfg <= similarityScore m)%Q.
Proof.
  rewrite !list_elem_of_In, filter_In. unfold above_threshold.
  rewrite Qle_bool_iff. reflexivity.
Qed.

Lemma apply_threshold_sub (l : list EvidenceMatch) (m : EvidenceMatch) :
  m ∈ apply_threshold cfg l -> m ∈ l.
Proof.
  unfold apply_threshold.
  destruct (List.filter (above_threshold cfg) l) as [|x r] eqn:E.
  - destruct (best_match l) as [b|] eqn:B; [|intros H; inversion H].
    intros H. apply list_elem_of_singleton in H as ->.
    apply (best_match_spec _ _ B).
  - rewrite <- E. intros H. apply filter_above in H. tauto.
Qed.

Lemma apply_threshold_nonempty (l : list EvidenceMatch) :
  l <> [] -> apply_threshold cfg l <> [].
Proof.
  intros H. unfold apply_threshold.
  destruct (List.filter (above_threshold cfg) l); [|discriminate].
  destruct (best_match_some l H) as [b ->]. discriminate.
Qed.

(** With a match at or above the cutoff, everything below it goes. *)
Lemma apply_threshold_above (l : list EvidenceMatch) (c : EvidenceMatch) :
  c ∈ l -> (minSimilarity cfg <= similarityScore c)%Q ->
  forall m, m ∈ apply_threshold cfg l ->
            (minSimilarity cfg <= similarityScore m)%Q.
Proof.
  intros Hc Hq m. unfold apply_threshold.
  destruct (List.filter (above_threshold cfg) l) as [|x r] eqn:E.
  - assert (Hin : c ∈ List.filter (above_threshold cfg) l)
      by (apply filter_above; auto).
    rewrite E in Hin. inversion Hin.
  - rewrite <- E. intros H. apply filter_above in H. tauto.
Qed.

(** With every match below the cutoff, the single best one stays. *)
Lemma apply_threshold_below (l : list EvidenceMatch) :
  (forall c, c ∈ l -> (similarityScore c < minSimilarity cfg)%Q) ->
  apply_threshold cfg l
  = match best_match l with Some b => [b] | None => [] end.
Proof.
  intros H. unfold apply_threshold.
  destruct (List.filter (above_threshold cfg) l) as [|x r] eqn:E;
    [reflexivity|].
  assert (Hin : x ∈ List.filter (above_threshold cfg) l)
    by (rewrite E; left).
  apply filter_above in Hin as [Hx Hq].
  exfalso. eapply Qlt_not_le; [apply H, Hx|exact Hq].
Qed.

End Threshold.

Lemma sort_desc_elem (l : list EvidenceMatch) (m : EvidenceMatch) :
  m ∈ sort_desc l <-> m ∈ l.
Proof. rewrite (sort_desc_perm l). reflexivity. Qed.

Lemma sort_desc_nonempty (l : list EvidenceMatch) :
  l <> [] -> sort_desc l <> [].
Proof.
  intros H E. apply H. apply Permutation_nil.
  rewrite <- E. apply sort_desc_perm.
Qed.

Lemma dedupe_nonempty (l : list EvidenceMatch) :
  l <> [] -> dedupe ∅ l <> [].
Proof.
  destruct l as [|x r]; [congruence|]. intros _.
  rewrite dedupe_head. discriminate.
Qed.

Lemma take_nonempty (k : nat) (l : list EvidenceMatch) :
  0 < k -> l <> [] -> take k l <> [].
Proof. destruct k, l; simpl; intros; try lia; congruence. Qed.

Lemma store_query_nonempty (similarity : list Q -> list Q -> Q)
  (docs : list EvidenceDocument) (v : list Q) (k : nat) :
  0 < k -> docs <> [] ->
  store_query similarity docs v k (fun _ => true) <> [].
Proof.
  intros Hk Hd. unfold store_query.
  apply take_nonempty; [assumption|]. apply sort_desc_nonempty.
  destruct docs; [congruence|]. discriminate.
Qed.

Lemma candidates_nonempty (similarity : list Q -> list Q -> Q)
  (cfg : Config) (docs : list EvidenceDocument) (v : list Q)
  (q : DiagnosticQuery) :
  0 < K cfg -> docs <> [] -> candidates similarity cfg docs v q <> [].
Proof.
  intros Hk Hd. unfold candidates.
  destruct (store_query similarity docs v (K cfg) (in_scope (vehicle q)));
    [|discriminate].
  apply store_query_nonempty; assumption.
Qed.

(** *** The candidates are the nearest documents *)

Lemma sort_desc_nil (l : list EvidenceMatch) : sort_desc l = [] -> l = [].
Proof.
  intros E. destruct l as [|x r]; [reflexivity|].
  exfalso. apply (sort_desc_nonempty (x :: r)); [discriminate|exact E].
Qed.

Lemma searched_nonempty (docs : list EvidenceDocument) (q : DiagnosticQuery) :
  docs <> [] -> searched docs q <> [].
Proof.
  intros H. unfold searched.
  destruct (List.filter (in_scope (vehicle q)) docs); [assumption|discriminate].
Qed.

Lemma searched_sub (docs : list EvidenceDocument) (q : DiagnosticQuery)
  (d : EvidenceDocument) : d ∈ searched docs q -> d ∈ docs.
Proof.
  unfold searched.
  destruct (List.filter (in_scope (vehicle q)) docs) as [|x r] eqn:E;
    [tauto|].
  rewrite <- E, list_elem_of_In, filter_In, <- list_elem_of_In. tauto.
Qed.

Lemma filter_everything (docs : list EvidenceDocument) :
  List.filter (fun _ => true) docs = docs.
Proof. induction docs as [|d r IH]; simpl; congruence. Qed.

(** The candidates of step 3 are the [K] best-scored documents of the
    searched set. *)
Lemma candidates_searched (similarity : list Q -> list Q -> Q)
  (cfg : Config) (docs : list EvidenceDocument) (v : list Q)
  (q : DiagnosticQuery) :
  0 < K cfg ->
  candidates similarity cfg docs v q
  = take (K cfg) (sort_desc (map (scored similarity v) (searched docs q))).
Proof.
  intros Hk. unfold candidates, store_query, searched.
  change (fun d => {| document := d;
                      similarityScore := similarity v (embedding d) |})
    with (scored similarity v).
  destruct (List.filter (in_scope (vehicle q)) docs) as [|x r] eqn:E.
  - simpl. rewrite take_nil. simpl. rewrite filter_everything. reflexivity.
  - destruct (take (K cfg) (sort_desc (map (scored similarity v) (x :: r))))
      as [|y s] eqn:T; [|reflexivity].
    exfalso. apply (take_nonempty (K cfg) _ Hk) in T; [exact T|].
    apply sort_desc_nonempty. discriminate.
Qed.

(** In a ranked list, what [take] keeps scores at least as high as what
    it leaves. *)
Lemma take_keeps_best (k : nat) (l : list EvidenceMatch) :
  StronglySorted ranked l ->
  forall c p, c ∈ take k l -> p ∈ drop k l ->
              (similarityScore p <= similarityScore c)%Q.
Proof.
  intros H. revert k. induction H as [|x r Hs IH Hx]; intros k c p.
  - rewrite take_nil. intros Hc. inversion Hc.
  - destruct k as [|k]; simpl.
    + intros Hc. inversion Hc.
    + intros Hc Hp. apply elem_of_cons in Hc as [->|Hc].
      * rewrite Forall_forall in Hx. apply Hx.
        apply (subseteq_drop k r p Hp).
      * exact (IH k c p Hc Hp).
Qed.

Lemma sorted_head_best (x : EvidenceMatch) (l : list EvidenceMatch) :
  StronglySorted ranked (x :: l) ->
  forall c, c ∈ x :: l -> (similarityScore c <= similarityScore x)%Q.
Proof.
  intros H c Hc. apply StronglySorted_inv in H as [_ Hx].
  apply elem_of_cons in Hc as [->|Hc]; [apply Qle_refl|].
  rewrite Forall_forall in Hx. apply Hx, Hc.
Qed.

Lemma filter_sorted (f : EvidenceMatch -> bool) (l : list EvidenceMatch) :
  StronglySorted ranked l -> StronglySorted ranked (List.filter f l).
Proof.
  induction 1 as [|x r Hs IH Hx]; simpl; [constructor|].
  destruct (f x); [|assumption].
  constructor; [assumption|].
  rewrite Forall_forall in *. intros y Hy. apply Hx.
  apply list_elem_of_In, filter_In in Hy. apply list_elem_of_In. tauto.
Qed.

(** Deduplication of a ranked list keeps, for every document, a match at
    least as good as any it drops. *)
Lemma dedupe_keeps_better (seen : gset string) (l : list EvidenceMatch)
  (c : EvidenceMatch) :
  StronglySorted ranked l -> c ∈ l -> doc_id c ∉ seen ->
  exists m, m ∈ dedupe seen l /\ doc_id m = doc_id c
            /\ (similarityScore c <= similarityScore m)%Q.
Proof.
  intros H. revert seen. induction H as [|x r Hs IH Hx]; intros seen Hc Hn.
  - inversion Hc.
  - simpl. destruct (decide (doc_id x ∈ seen)) as [Hin|Hout].
    + apply elem_of_cons in Hc as [->|Hc]; [contradiction|].
      exact (IH seen Hc Hn).
    + apply elem_of_cons in Hc as [->|Hc].
      * exists x. split; [left|]. split; [reflexivity|apply Qle_refl].
      * destruct (decide (doc_id c = doc_id x)) as [E|E].
        -- exists x. split; [left|]. split; [congruence|].
           rewrite Forall_forall in Hx. apply Hx, Hc.
        -- assert (Hn' : doc_id c ∉ ({[doc_id x]} ∪ seen : gset string)).
           { intros Hu. apply elem_of_union in Hu as [Hu|Hu]; [|auto].
             apply elem_of_singleton in Hu. auto. }
           destruct (IH ({[doc_id x]} ∪ seen) Hc Hn') as (m & Hm & Hid & Hq).
           exists m. split; [right; assumption|]. tauto.
Qed.

Lemma dedupe_length (seen : gset string) (l : list EvidenceMatch) :
  length (dedupe seen l) <= length l.
Proof.
  revert seen. induction l as [|x r IH]; intros seen; simpl; [lia|].
  destruct (decide (doc_id x ∈ seen)); simpl.
  - specialize (IH seen). lia.
  - specialize (IH ({[doc_id x]} ∪ seen)). lia.
Qed.

Section Threshold_more.

Variable cfg : Config.

Lemma apply_threshold_keeps (l : list EvidenceMatch) (c : EvidenceMatch) :
  c ∈ l -> (minSimilarity cfg <= similarityScore c)%Q ->
  apply_threshold cfg l = List.filter (above_threshold cfg) l.
Proof.
  intros Hc Hq. unfold apply_threshold.
  destruct (List.filter (above_threshold cfg) l) as [|x r] eqn:E;
    [|reflexivity].
  assert (Hin : c ∈ List.filter (above_threshold cfg) l)
    by (apply filter_above; auto).
  rewrite E in Hin. inversion Hin.
Qed.

End Threshold_more.

(** C7 (as amended): when the composed query was embedded and [K >= 1],
    the candidates are the [K] best-scored documents of the searched set
    (the documents in the vehicle's scope, or the whole store when none
    is), the retriever discards every candidate below the minimum
    similarity as soon as one searched document reaches it, keeping for
    each document id that reaches it a match at least as good, and when
    no searched document reaches it returns exactly one match, the one of
    a searched document whose similarity no searched document exceeds;
    so over a non-empty store the evidence is then never empty.  Whatever
    is returned is a document of the store with its own similarity. *)
Theorem retrieve_cutoff_keeps_best
  (embed : string -> option (list Q)) (similarity : list Q -> list Q -> Q)
  (cfg : Config) (docs : list EvidenceDocument) (q : DiagnosticQuery)
  (v : list Q) :
  embed (composeQuery q) = Some v ->
  0 < K cfg ->
  let pool := searched docs q in
  let sim := fun d => similarity v (embedding d) in
  let cands := candidates similarity cfg docs v q in
  let found := retrieve embed similarity cfg (Some docs) q in
  (forall m, m ∈ found -> m ∈ cands)
  /\ (forall c, c ∈ cands ->
        (minSimilarity cfg <= similarityScore c)%Q ->
        forall m, m ∈ found ->
                  (minSimilarity cfg <= similarityScore m)%Q)
  /\ ((forall c, c ∈ cands ->
         (similarityScore c < minSimilarity cfg)%Q) ->
      cands <> [] ->
      exists b, found = [b] /\ b ∈ cands
                /\ forall c, c ∈ cands ->
                             (similarityScore c <= similarityScore b)%Q)
  /\ (docs <> [] -> found <> [])
  /\ (forall c, c ∈ cands ->
        exists d, d ∈ pool /\ d ∈ docs /\ c = scored similarity v d)
  /\ length cands = Nat.min (K cfg) (length pool)
  /\ (forall c d, c ∈ cands -> d ∈ pool ->
        scored similarity v d ∈ cands \/ (sim d <= similarityScore c)%Q)
  /\ (forall d, d ∈ pool -> (minSimilarity cfg <= sim d)%Q ->
        forall m, m ∈ found -> (minSimilarity cfg <= similarityScore m)%Q)
  /\ (forall c, c ∈ cands -> (minSimilarity cfg <= similarityScore c)%Q ->
        exists m, m ∈ found /\ doc_id m = doc_id c
                  /\ (similarityScore c <= similarityScore m)%Q)
  /\ ((forall d, d ∈ pool -> (sim d < minSimilarity cfg)%Q) ->
      docs <> [] ->
      exists b d, found = [b] /\ d ∈ pool /\ b = scored similarity v d
                  /\ forall d', d' ∈ pool -> (sim d' <= sim d)%Q).
Proof.
  intros He Hk pool sim cands found.
  set (all := sort_desc (map (scored similarity v) pool)).
  assert (Hcands : cands = take (K cfg) all)
    by (apply candidates_searched; assumption).
  assert (Hall : forall m, m ∈ all <-> exists d, d ∈ pool
                                           /\ m = scored similarity v d).
  { intros m. unfold all. rewrite sort_desc_elem, list_elem_of_In, in_map_iff.
    split; intros (d & H1 & H2).
    - exists d. rewrite list_elem_of_In. auto.
    - exists d. rewrite <- list_elem_of_In. auto. }
  assert (Hsorted : StronglySorted ranked all) by apply sort_desc_sorted.
  assert (Hfound : found
            = take (K cfg) (sort_desc (dedupe ∅ (apply_threshold cfg cands)))).
  { subst found. unfold retrieve. rewrite He. reflexivity. }
  assert (Hsub : forall m, m ∈ found -> m ∈ apply_threshold cfg cands).
  { intros m Hm. rewrite Hfound in Hm.
    apply subseteq_take, sort_desc_elem, dedupe_sub in Hm. tauto. }
  assert (Hin : forall c, c ∈ cands -> c ∈ all).
  { intros c Hc. rewrite Hcands in Hc. exact (subseteq_take _ _ _ Hc). }
  assert (Htop : forall c d, c ∈ cands -> d ∈ pool ->
            scored similarity v d ∈ cands
            \/ (sim d <= similarityScore c)%Q).
  { intros c d Hc Hd.
    assert (Hd' : scored similarity v d ∈ all) by (apply Hall; eauto).
    rewrite <- (take_drop (K cfg) all) in Hd'.
    apply elem_of_app in Hd' as [Hd'|Hd'].
    - left. rewrite Hcands. exact Hd'.
    - right. rewrite Hcands in Hc.
      exact (take_keeps_best (K cfg) all Hsorted c _ Hc Hd'). }
  assert (Hne : docs <> [] -> cands <> []).
  { intros Hd. subst cands. apply candidates_nonempty; assumption. }
  assert (C2 : forall c, c ∈ cands ->
            (minSimilarity cfg <= similarityScore c)%Q ->
            forall m, m ∈ found ->
                      (minSimilarity cfg <= similarityScore m)%Q).
  { intros c Hc Hq m Hm.
    exact (apply_threshold_above cfg cands c Hc Hq m (Hsub m Hm)). }
  assert (C3 : (forall c, c ∈ cands ->
                  (similarityScore c < minSimilarity cfg)%Q) ->
               cands <> [] ->
               exists b, found = [b] /\ b ∈ cands
                 /\ forall c, c ∈ cands ->
                              (similarityScore c <= similarityScore b)%Q).
  { intros Hbelow Hn. rewrite Hfound.
    rewrite (apply_threshold_below cfg cands Hbelow).
    destruct (best_match_some cands Hn) as [b Hb]. rewrite Hb.
    destruct (best_match_spec _ _ Hb) as [Hb1 Hmax].
    exists b. split; [|auto].
    rewrite dedupe_head. simpl. apply take_ge. simpl. lia. }
  split; [|split; [|split; [|split; [|split; [|split; [|split;
    [|split; [|split]]]]]]]].
  - intros m Hm. eapply apply_threshold_sub, Hsub, Hm.
  - exact C2.
  - exact C3.
  - intros Hd. rewrite Hfound. apply take_nonempty; [assumption|].
    apply sort_desc_nonempty, dedupe_nonempty, apply_threshold_nonempty.
    auto.
  - intros c Hc. apply Hin, Hall in Hc as (d & Hd & ->).
    exists d. split; [assumption|]. split; [|reflexivity].
    exact (searched_sub docs q d Hd).
  - rewrite Hcands, length_take. unfold all.
    rewrite (Permutation_length (sort_desc_perm _)), length_map. reflexivity.
  - exact Htop.
  - intros d Hd Hq m Hm.
    assert (Hd' : scored similarity v d ∈ all) by (apply Hall; eauto).
    destruct all as [|x r] eqn:A; [inversion Hd'|].
    assert (Hx : x ∈ cands).
    { rewrite Hcands. destruct (K cfg); [lia|]. left. }
    apply (C2 x Hx); [|assumption].
    eapply Qle_trans; [exact Hq|].
    exact (sorted_head_best x r Hsorted _ Hd').
  - intros c Hc Hq.
    assert (Hs : StronglySorted ranked cands).
    { rewrite Hcands. apply take_sorted, Hsorted. }
    assert (Hcf : c ∈ List.filter (above_threshold cfg) cands)
      by (apply filter_above; auto).
    destruct (dedupe_keeps_better ∅ _ c
                (filter_sorted (above_threshold cfg) cands Hs) Hcf)
      as (m & Hm & Hid & Hle); [set_solver|].
    exists m. split; [|tauto].
    rewrite Hfound, (apply_threshold_keeps cfg cands c Hc Hq).
    rewrite take_ge; [apply sort_desc_elem, Hm|].
    rewrite (Permutation_length (sort_desc_perm _)).
    pose proof (dedupe_length ∅ (List.filter (above_threshold cfg) cands)).
    pose proof (filter_length (above_threshold cfg) cands).
    assert (length cands <= K cfg)
      by (rewrite Hcands, length_take; lia).
    lia.
  - intros Hbelow Hd.
    destruct C3 as (b & Hb & Hbin & Hmax); [|auto|].
    { intros c Hc. apply Hin, Hall in Hc as (d & Hd' & ->).
      exact (Hbelow d Hd'). }
    destruct (proj1 (Hall b) (Hin b Hbin)) as (d & Hdp & Hbd).
    exists b, d. split; [assumption|]. split; [assumption|].
    split; [assumption|].
    intros d' Hd'. destruct (Htop b d' Hbin Hd') as [H|H].
    + specialize (Hmax _ H). rewrite Hbd in Hmax. exact Hmax.
    + rewrite Hbd in H. exact H.
Qed.

(** *** The composed query *)

Lemma prefix_refl_app (p s : string) : String.prefix p (p +:+ s) = true.
Proof.
  induction p as [|c r IH]; simpl; [destruct s; reflexivity|].
  destruct (ascii_dec c c); [exact IH|congruence].
Qed.

(** Occurrences in a suffix are occurrences in the whole. *)
Lemma occurrences_suffix (pat a b : string) :
  Text.occurrences pat b <= Text.occurrences pat (a +:+ b).
Proof.
  induction a as [|c r IH]; [reflexivity|].
  change (String c r +:+ b) with (String c (r +:+ b)).
  simpl Text.occurrences. lia.
Qed.

Lemma append_assoc (a b c : string) : (a +:+ b) +:+ c = a +:+ b +:+ c.
Proof.
  induction a as [|x r IH]; [reflexivity|].
  change ((String x r +:+ b) +:+ c) with (String x ((r +:+ b) +:+ c)).
  rewrite IH. reflexivity.
Qed.

Lemma occurrences_head (pat s : string) :
  S (Text.occurrences pat s) <= Text.occurrences pat (pat +:+ " " +:+ s).
Proof.
  pose proof (prefix_refl_app pat (" " +:+ s)) as P.
  destruct pat as [|c r].
  - change ("" +:+ " " +:+ s) with (String " " s) in *.
    cbn [Text.occurrences].
    change (String.prefix "" (String " " s)) with true. cbn iota. lia.
  - change (String c r +:+ " " +:+ s) with (String c (r +:+ " " +:+ s)) in *.
    cbn [Text.occurrences]. rewrite P.
    pose proof (occurrences_suffix (String c r) (r +:+ " ") s) as L.
    rewrite append_assoc in L. lia.
Qed.

Lemma append_empty_r (s : string) : s +:+ "" = s.
Proof.
  induction s as [|c r IH]; [reflexivity|].
  change (String c r +:+ "") with (String c (r +:+ "")).
  rewrite IH. reflexivity.
Qed.

Lemma occurrences_self (pat : string) : 1 <= Text.occurrences pat pat.
Proof.
  pose proof (prefix_refl_app pat "") as P. rewrite append_empty_r in P.
  destruct pat; cbn [Text.occurrences]; rewrite P; lia.
Qed.

Lemma unwords_cons (p : string) (rest : list string) :
  rest <> [] -> Text.unwords (p :: rest) = p +:+ " " +:+ Text.unwords rest.
Proof. destruct rest; [congruence|reflexivity]. Qed.

Lemma occurrences_replicate (pat : string) (n : nat) :
  S n <= Text.occurrences pat (Text.unwords (replicate (S n) pat)).
Proof.
  induction n as [|n IH].
  - apply occurrences_self.
  - change (replicate (S (S n)) pat) with (pat :: replicate (S n) pat).
    rewrite unwords_cons by discriminate.
    etransitivity; [|apply occurrences_head]. lia.
Qed.

Lemma unwords_app (parts tail : list string) :
  tail <> [] ->
  exists a, Text.unwords (parts ++ tail) = a +:+ Text.unwords tail.
Proof.
  intros Ht. induction parts as [|p r [a IH]].
  - exists "". reflexivity.
  - change ((p :: r) ++ tail) with (p :: (r ++ tail)).
    rewrite unwords_cons by (destruct r, tail; simpl; congruence).
    rewrite IH. exists (p +:+ " " +:+ a).
    rewrite !append_assoc. reflexivity.
Qed.

Lemma Qfloor_unique (x : Q) (n : Z) :
  (inject_Z n <= x)%Q -> (x < inject_Z (n + 1))%Q -> Qfloor x = n.
Proof.
  intros Hlo Hhi.
  pose proof (Qfloor_le x) as F1. pose proof (Qlt_floor x) as F2.
  assert (A : (inject_Z n < inject_Z (Qfloor x + 1))%Q)
    by (eapply Qle_lt_trans; eassumption).
  assert (B : (inject_Z (Qfloor x) < inject_Z (n + 1))%Q)
    by (eapply Qle_lt_trans; eassumption).
  rewrite <- Zlt_Qlt in A, B. lia.
Qed.

(** One repeat per 0.2 of confidence above 0.5. *)
Lemma audio_repeats_steps (c : Q) (k : nat) :
  ((1 # 2) + inject_Z (Z.of_nat k) * (1 # 5) <= c)%Q ->
  (c < (1 # 2) + inject_Z (Z.of_nat k + 1) * (1 # 5))%Q ->
  audio_repeats c = k.
Proof.
  intros Hlo Hhi. unfold audio_repeats.
  destruct (Qle_bool c (1 # 2)) eqn:E.
  - apply Qle_bool_iff in E. destruct k as [|k]; [reflexivity|].
    exfalso.
    assert (P : (0 < inject_Z (Z.of_nat (S k)) * (1 # 5))%Q).
    { apply Qmult_lt_0_compat; [|reflexivity].
      rewrite <- (Zlt_Qlt 0). lia. }
    assert (S1 : ((1 # 2) + 0 < (1 # 2) + inject_Z (Z.of_nat (S k)) * (1 # 5))%Q)
      by (apply Qplus_lt_r; exact P).
    rewrite Qplus_0_r in S1.
    apply (Qlt_not_le _ _ (Qlt_le_trans _ _ _ S1 Hlo) E).
  - rewrite (Qfloor_unique _ (Z.of_nat k)); [apply Nat2Z.id| |].
    + apply Qle_shift_div_l; [reflexivity|].
      apply (Qplus_le_r _ _ (1 # 2)). ring_simplify.
      ring_simplify in Hlo. exact Hlo.
    + apply Qlt_shift_div_r; [reflexivity|].
      apply (Qplus_lt_r _ _ (1 # 2)). ring_simplify.
      ring_simplify in Hhi. exact Hhi.
Qed.

Lemma audio_repeats_comp (c d : Q) :
  (c == d)%Q -> audio_repeats c = audio_repeats d.
Proof.
  intros E. unfold audio_repeats.
  rewrite (Qleb_comp c d E (1 # 2)%Q (1 # 2)%Q (Qeq_refl _)).
  rewrite (Qfloor_comp ((c - (1 # 2)) / (1 # 5))%Q ((d - (1 # 2)) / (1 # 5))%Q)
    by (rewrite E; reflexivity).
  reflexivity.
Qed.

(** C8: with an audio signal of confidence [c], the string passed to the
    embedder is the vehicle's year, make and model, the symptom text, and
    then the audio label, present once and repeated once more per 0.2 of
    confidence above 0.5; the label occurs in it at least that often, and
    for confidence 0.9 (two repeats) at least twice. *)
Theorem composeQuery_repeats_audio_label (q : DiagnosticQuery)
  (sig : AudioSignal) :
  audioSignal q = Some sig ->
  let n := audio_repeats (confidence sig) in
  composeQuery q
  = Text.unwords
      ([pretty (year (vehicle q)); make (vehicle q); model (vehicle q);
        symptomText q] ++ replicate (S n) (label sig))
  /\ S n <= Text.occurrences (label sig) (composeQuery q)
  /\ (forall k : nat,
        ((1 # 2) + inject_Z (Z.of_nat k) * (1 # 5) <= confidence sig)%Q ->
        (confidence sig < (1 # 2) + inject_Z (Z.of_nat k + 1) * (1 # 5))%Q ->
        n = k)
  /\ ((confidence sig == 9 # 10)%Q ->
      n = 2 /\ 2 <= Text.occurrences (label sig) (composeQuery q)).
Proof.
  intros Hs n.
  assert (E : composeQuery q
              = Text.unwords
                  ([pretty (year (vehicle q)); make (vehicle q);
                    model (vehicle q); symptomText q]
                   ++ replicate (S n) (label sig))).
  { unfold composeQuery, audio_parts. rewrite Hs. reflexivity. }
  assert (L : S n <= Text.occurrences (label sig) (composeQuery q)).
  { rewrite E.
    destruct (unwords_app
                [pretty (year (vehicle q)); make (vehicle q);
                 model (vehicle q); symptomText q]
                (replicate (S n) (label sig))) as [a ->]; [discriminate|].
    etransitivity; [apply occurrences_replicate|apply occurrences_suffix]. }
  split; [exact E|]. split; [exact L|]. split.
  - intros k Hlo Hhi. apply audio_repeats_steps; assumption.
  - intros H9.
    assert (N : n = 2).
    { subst n. rewrite (audio_repeats_comp _ _ H9). reflexivity. }
    split; [exact N|]. lia.
Qed.

(** C7, witness: a store whose two documents are both below the cutoff
    still yields evidence. *)
Lemma retrieve_cutoff_keeps_best_witness :
  retrieve Examples.embed_stub Examples.similarity_stub default_config
    (Some Examples.faint_store) Examples.civic_query <> [].
Proof.
  refine (proj1 (proj2 (proj2 (proj2
            (retrieve_cutoff_keeps_best Examples.embed_stub
               Examples.similarity_stub default_config Examples.faint_store
               Examples.civic_query [1%Q] eq_refl _)))) _).
  - unfold default_config; simpl; lia.
  - discriminate.
Defined.

(** C7, counterexample: the store is reachable and holds two documents,
    yet the evidence is empty when the embedding of the composed query
    fails (section 7 has an [EmbeddingError] absorbed as empty evidence),
    and also when [K] is configured as 0. *)
Lemma retrieve_empty_over_nonempty_store :
  Examples.faint_store <> []
  /\ retrieve (fun _ => None) Examples.similarity_stub default_config
       (Some Examples.faint_store) Examples.civic_query = []
  /\ retrieve Examples.embed_stub Examples.similarity_stub
       {| K := 0; minSimilarity := 15 # 100 |}
       (Some Examples.faint_store) Examples.civic_query = [].
Proof. split; [discriminate|]. split; reflexivity. Qed.

(** C8, witness: the whine at confidence 0.9. *)
Lemma composeQuery_repeats_audio_label_witness :
  2 <= Text.occurrences "high-pitch whine"
         (composeQuery Examples.civic_query).
Proof.
  refine (proj2 (proj2 (proj2 (proj2
            (composeQuery_repeats_audio_label Examples.civic_query
               Examples.whine eq_refl))) _)).
  reflexivity.
Defined.

(** *** Citations *)

End EngineFacts.

(** ** The image uploader *)

Module ImageUploaderFacts.
Import ImageUploader.

Lemma filter_index_remove {A} (k from : nat) (l : list A) :
  filter_index (fun i => negb (Nat.eqb i (from + k))) from l
  = take k l ++ drop (S k) l.
Proof.
  revert k from. induction l as [|x r IH]; intros k from; simpl.
  - destruct k; reflexivity.
  - destruct k as [|k].
    + rewrite Nat.add_0_r, Nat.eqb_refl. simpl.
      assert (E : forall (m : list A) j, from < j ->
                 filter_index (fun i => negb (Nat.eqb i from)) j m = m).
      { induction m as [|y m IHm]; intros j Hj; simpl; [reflexivity|].
        destruct (Nat.eqb_spec j from); [lia|]. simpl.
        rewrite IHm by lia. reflexivity. }
      rewrite E by lia. rewrite drop_0. reflexivity.
    + destruct (Nat.eqb_spec from (from + S k)); [lia|]. simpl.
      replace (from + S k) with (S from + k) by lia.
      rewrite IH. reflexivity.
Qed.

Lemma in_sync_snoc (st : State) (l : list (list ImageFile)) (fs : list ImageFile) :
  match l ++ [fs] with
  | [] => fs = []
  | _ => last (l ++ [fs]) = Some fs
  end.
Proof.
  destruct (l ++ [fs]) eqn:E.
  - destruct l; discriminate.
  - rewrite <- E. apply last_snoc.
Qed.

Lemma forallb_filter_index {A} (p : A -> bool) (keep : nat -> bool)
  (from : nat) (l : list A) :
  forallb p l = true -> forallb p (filter_index keep from l) = true.
Proof.
  revert from. induction l as [|x r IH]; intros from; simpl; [auto|].
  intros H. apply andb_true_iff in H as [Hx Hr].
  destruct (keep from); simpl; rewrite ?Hx; simpl; auto.
Qed.

Lemma length_filter_index {A} (keep : nat -> bool) (from : nat) (l : list A) :
  length (filter_index keep from l) <= length l.
Proof.
  revert from. induction l as [|x r IH]; intros from; simpl; [lia|].
  destruct (keep from); simpl; specialize (IH (S from)); lia.
Qed.

Lemma forallb_filter_self {A} (p : A -> bool) (l : list A) :
  forallb p (List.filter p l) = true.
Proof.
  induction l as [|x r IH]; simpl; [reflexivity|].
  destruct (p x) eqn:E; simpl; rewrite ?E; simpl; auto.
Qed.

Lemma step_invariant (maxImages : nat) (a : Action) (st : State) :
  invariant maxImages st -> invariant maxImages (step maxImages a st).
Proof.
  intros (Hlen & Himg & Hsync). destruct a as [fs|url|i]; simpl.
  - unfold handleFiles.
    destruct (Nat.ltb_spec maxImages
                (length (files st) + length (List.filter is_image fs))).
    + repeat split; assumption.
    + repeat split; simpl.
      * rewrite length_app. lia.
      * rewrite forallb_app, Himg, forallb_filter_self. reflexivity.
      * unfold in_sync. simpl. apply in_sync_snoc. exact st.
  - repeat split; assumption.
  - repeat split; simpl.
    + pose proof (length_filter_index (fun j => negb (Nat.eqb j i)) 0
                    (files st)). lia.
    + apply forallb_filter_index, Himg.
    + unfold in_sync. simpl. apply in_sync_snoc. exact st.
Qed.

(** X1: whatever the user does (selecting or dropping batches of files,
    previews arriving, removing entries), the uploader never holds more
    than [maxImages] files, holds only files whose type starts with
    [image/], and the parent's last notification is exactly the list the
    component holds. *)
Theorem uploader_keeps_limit_and_images (maxImages : nat)
  (actions : list Action) :
  let st := run maxImages actions initial in
  length (files st) <= maxImages
  /\ forallb is_image (files st) = true
  /\ in_sync st.
Proof.
  assert (G : forall st, invariant maxImages st ->
                         invariant maxImages (run maxImages actions st)).
  { induction actions as [|a r IH]; intros st H; simpl; [exact H|].
    apply IH, step_invariant, H. }
  apply G. repeat split; simpl; lia.
Qed.

(** X2: [removeImage(index)] removes exactly the file at [index] and
    keeps the others in order; an index past the end removes nothing. *)
Theorem removeImage_removes_one (index : nat) (st : State) :
  files (removeImage index st)
  = take index (files st) ++ drop (S index) (files st)
  /\ (index < length (files st) ->
      S (length (files (removeImage index st))) = length (files st))
  /\ (length (files st) <= index -> files (removeImage index st) = files st).
Proof.
  assert (E : files (removeImage index st)
              = take index (files st) ++ drop (S index) (files st)).
  { unfold removeImage. simpl.
    apply (filter_index_remove index 0 (files st)). }
  split; [exact E|]. split.
  - intros H. rewrite E, length_app, length_take, length_drop. lia.
  - intros H. rewrite E, take_ge, drop_ge by lia. apply app_nil_r.
Qed.

End ImageUploaderFacts.

(** ** The VIN scanner *)

Module VinScannerFacts.
Import VinScanner.

Lemma upper_char_not_lower (c : ascii) : is_lower (upper_char c) = false.
Proof. destruct c as [[] [] [] [] [] [] [] []]; reflexivity. Qed.

Lemma upper_char_fixed (c : ascii) : is_lower c = false -> upper_char c = c.
Proof. unfold upper_char, is_lower. intros ->. reflexivity. Qed.

Lemma upper_char_ioq (c : ascii) :
  Ascii.eqb (upper_char c) "I" || Ascii.eqb (upper_char c) "O"
  || Ascii.eqb (upper_char c) "Q"
  = (Ascii.eqb c "I" || Ascii.eqb c "O" || Ascii.eqb c "Q"
     || Ascii.eqb c "i" || Ascii.eqb c "o" || Ascii.eqb c "q").
Proof. destruct c as [[] [] [] [] [] [] [] []]; reflexivity. Qed.

Lemma toUpperCase_no_lower (s : string) : no_lower (toUpperCase s) = true.
Proof.
  induction s as [|c r IH]; simpl; [reflexivity|].
  rewrite upper_char_not_lower, IH. reflexivity.
Qed.

Lemma toUpperCase_fixed (s : string) :
  no_lower s = true -> toUpperCase s = s.
Proof.
  induction s as [|c r IH]; simpl; [reflexivity|].
  intros H. apply andb_true_iff in H as [Hc Hr].
  apply negb_true_iff in Hc. rewrite (upper_char_fixed c Hc), (IH Hr).
  reflexivity.
Qed.

Lemma toUpperCase_length (s : string) :
  String.length (toUpperCase s) = String.length s.
Proof. induction s as [|c r IH]; simpl; congruence. Qed.

Lemma test_IOQ_upper (s : string) :
  test_IOQ (toUpperCase s) = negb (no_ioq s).
Proof.
  induction s as [|c r IH]; simpl; [reflexivity|].
  rewrite IH, negb_andb, negb_involutive, <- upper_char_ioq.
  rewrite <- !orb_assoc. reflexivity.
Qed.

Lemma trim_start_no_lower (s : string) :
  no_lower s = true -> no_lower (Text.trim_start s) = true.
Proof.
  induction s as [|c r IH]; simpl; [auto|].
  intros H. destruct (Text.is_space c); [|exact H].
  apply andb_true_iff in H as [_ Hr]. auto.
Qed.

Lemma trim_end_no_lower (s : string) :
  no_lower s = true -> no_lower (Text.trim_end s) = true.
Proof.
  induction s as [|c r IH]; simpl; [auto|].
  intros H. apply andb_true_iff in H as [Hc Hr]. specialize (IH Hr).
  destruct (Text.trim_end r) as [|c' r'].
  - destruct (Text.is_space c); simpl; [reflexivity|].
    rewrite Hc. reflexivity.
  - simpl in *. rewrite Hc, IH. reflexivity.
Qed.

Lemma trim_no_lower (s : string) :
  no_lower s = true -> no_lower (Text.trim s) = true.
Proof. intros H. apply trim_end_no_lower, trim_start_no_lower, H. Qed.

(** X3: on ASCII text, [validateVin] accepts exactly the strings of 17
    characters in which none of I, O, Q occurs in either case; it does
    not look at anything else. *)
Theorem validateVin_accepts (vinCode : string) :
  ascii_text vinCode = true ->
  (validateVin vinCode = true
   <-> String.length vinCode = 17 /\ no_ioq vinCode = true).
Proof.
  intros _. unfold validateVin. rewrite test_IOQ_upper.
  destruct (Nat.eqb_spec (String.length vinCode) 17) as [E|E]; simpl.
  - destruct (no_ioq vinCode); simpl; split; intros H;
      try discriminate; try tauto; try (destruct H; discriminate).
  - split; [discriminate|]. intros [H _]. contradiction.
Qed.

Lemma validateVin_accepts_witness :
  validateVin "1HGCM82633A004352" = true
  <-> String.length "1HGCM82633A004352" = 17
      /\ no_ioq "1HGCM82633A004352" = true.
Proof. exact (validateVin_accepts "1HGCM82633A004352" eq_refl). Defined.

(** X4: [handleDecode] calls the API only with the typed VIN in upper
    case and trimmed, and only when that text has 17 characters, none of
    them I, O, Q or a lower-case letter; otherwise it sets the error
    message, sends nothing and leaves the decoded vehicle as it was.
    After a call that was sent, [loading] is off whatever the API did. *)
Theorem handleDecode_sends_clean_vin
  (decodeVin : string -> ApiOutcome) (st : State) :
  ascii_text (vin st) = true ->
  let out := handleDecode decodeVin st in
  let vinUpper := Text.trim (toUpperCase (vin st)) in
  (forall sent, out.1.2 = Some sent ->
     sent = vinUpper
     /\ String.length sent = 17
     /\ test_IOQ sent = false
     /\ no_lower sent = true
     /\ loading out.1.1 = false)
  /\ (validateVin vinUpper = false ->
      out.1.2 = None /\ out.2 = None
      /\ vehicleData out.1.1 = vehicleData st
      /\ exists msg, error out.1.1 = Some msg)
  /\ (validateVin vinUpper = true -> out.1.2 = Some vinUpper).
Proof.
  intros _ out vinUpper. subst out. unfold handleDecode. fold vinUpper.
  assert (L : no_lower vinUpper = true)
    by (apply trim_no_lower, toUpperCase_no_lower).
  destruct (validateVin vinUpper) eqn:V; simpl.
  - assert (P : String.length vinUpper = 17 /\ test_IOQ vinUpper = false).
    { unfold validateVin in V.
      destruct (Nat.eqb_spec (String.length vinUpper) 17); [|discriminate].
      rewrite (toUpperCase_fixed _ L) in V.
      destruct (test_IOQ vinUpper); [discriminate|auto]. }
    destruct P as [P1 P2].
    split; [|split; [discriminate|]].
    + intros sent Hs.
      destruct (decodeVin vinUpper) as [m|[] v e]; simpl in *;
        inversion Hs; subst; auto.
    + intros _. destruct (decodeVin vinUpper) as [m|[] v e]; reflexivity.
  - split; [discriminate|]. split; [|discriminate].
    intros _. repeat split. eauto.
Qed.

Lemma handleDecode_sends_clean_vin_witness :
  (handleDecode (fun _ => ApiThrows "offline")
     {| vin := " 1hgcm82633a004352 "; loading := false; error := None;
        vehicleData := None |}).1.2
  = Some "1HGCM82633A004352".
Proof.
  exact (proj2 (proj2 (handleDecode_sends_clean_vin
                         (fun _ => ApiThrows "offline")
                         {| vin := " 1hgcm82633a004352 "; loading := false;
                            error := None; vehicleData := None |}
                         eq_refl)) eq_refl).
Defined.

End VinScannerFacts.

(** ** The prototype application *)

Module PrototypeAppFacts.
Import Prototype PrototypeApp Examples.

Ltac unfold_result :=
  unfold mbind, result_bind, rbind, mret, result_ret, try_catch in *.

(** What [runDiagnosis] does, by the sign of the balance. *)
Lemma runDiagnosis_cases (JSON_parse : string -> option json)
  (net : FetchOutcome) (st : AppState) :
  runDiagnosis JSON_parse net st =
  Ok (if (diagnosisCredits st <=? 0)%Z then with_screen "pricing" st
      else
        {| currentScreen := "results"; user := user st;
           diagnosisCredits := (diagnosisCredits st - 1)%Z;
           vehicleData := vehicleData st;
           diagnosis :=
             Some (match try_block JSON_parse net with
                   | Ok (Some v) => v
                   | _ => getFallbackDiagnosis (vehicleData st)
                   end);
           isAnalyzing := false;
           analysisSteps := map (fun s => (fst s, true)) (analysisSteps st);
           authMode := authMode st; authData := authData st |}).
Proof.
  unfold runDiagnosis.
  destruct (diagnosisCredits st <=? 0)%Z; [reflexivity|].
  rewrite PrototypeFacts.performAIDiagnosis_cases. unfold_result.
  destruct (try_block JSON_parse net) as [[v|]|e]; reflexivity.
Qed.

(** X5: [runDiagnosis] always completes.  With no credit left it sends the
    user to the pricing screen and changes nothing else, whatever the
    generation service would have answered; with a credit it ends on the
    results screen holding a report, and takes exactly one credit, also
    when the report is the fallback substituted for a failed generation. *)
Theorem runDiagnosis_gate_and_charge (JSON_parse : string -> option json)
  (net : FetchOutcome) (st : AppState) :
  exists st',
    runDiagnosis JSON_parse net st = Ok st'
    /\ ((diagnosisCredits st <= 0)%Z -> st' = with_screen "pricing" st)
    /\ ((0 < diagnosisCredits st)%Z ->
          currentScreen st' = "results"
          /\ diagnosisCredits st' = (diagnosisCredits st - 1)%Z
          /\ isAnalyzing st' = false
          /\ user st' = user st
          /\ vehicleData st' = vehicleData st
          /\ performAIDiagnosis JSON_parse (vehicleData st) net
             = Ok (default JNull (diagnosis st'))
          /\ (diagnosis st' = Some (getFallbackDiagnosis (vehicleData st))
              \/ exists v, try_block JSON_parse net = Ok (Some v)
                           /\ diagnosis st' = Some v)).
Proof.
  eexists. split; [apply runDiagnosis_cases|].
  split; intros H.
  - apply Z.leb_le in H. rewrite H. reflexivity.
  - apply Z.leb_gt in H. rewrite H. cbn.
    rewrite PrototypeFacts.performAIDiagnosis_cases.
    repeat split;
      destruct (try_block JSON_parse net) as [[v|]|e]; cbn; eauto.
Qed.

(** *** The application with its pending work *)

Lemma run_app (JSON_parse : string -> option json)
  (before after : list Event) (l : Live) :
  run JSON_parse (before ++ after) l
  = match run JSON_parse before l with
    | Some l' => run JSON_parse after l'
    | None => None
    end.
Proof.
  revert l. induction before as [|e rest IH]; intros l; cbn; [reflexivity|].
  destruct (step JSON_parse e l); [apply IH|reflexivity].
Qed.

Lemma existsb_diagnosing_delete (ts : list Task) (i : nat) (p : Package) :
  ts !! i = Some (Payment p) ->
  existsb is_diagnosing (delete i ts) = existsb is_diagnosing ts.
Proof.
  revert i. induction ts as [|t rest IH]; intros [|i] H; cbn in *;
    try discriminate.
  - injection H as ->. reflexivity.
  - f_equal. exact (IH i H).
Qed.

Lemma existsb_diagnosing_insert (ts : list Task) (i : nat)
  (vd vd' : VehicleData) (g g' n n' : nat) :
  ts !! i = Some (Diagnosing vd g n) ->
  existsb is_diagnosing (<[i := Diagnosing vd' g' n']> ts) = true.
Proof.
  revert i. induction ts as [|t rest IH]; intros [|i] H; cbn in *;
    try discriminate; [reflexivity|].
  apply orb_true_iff. right. exact (IH i H).
Qed.

Ltac step_cases H :=
  unfold step in H; cbn zeta in H;
  repeat match type of H with
         | context [if ?c then _ else _] =>
             let E := fresh "E" in destruct c eqn:E
         | context [match ?t with _ => _ end] =>
             let E := fresh "E" in destruct t eqn:E
         end;
  try discriminate;
  try match goal with
      | E : performAIDiagnosis _ _ _ = Throw _ |- _ =>
          rewrite PrototypeFacts.performAIDiagnosis_cases in E; discriminate
      end;
  injection H as <-.

Lemma step_live_invariant (JSON_parse : string -> option json)
  (e : Event) (l l' : Live) :
  live_invariant l -> step JSON_parse e l = Some l' -> live_invariant l'.
Proof.
  intros [Hr Ha] H. unfold on_screen in H.
  destruct e; step_cases H; unfold live_invariant;
    repeat match goal with
           | E : (_ && _)%bool = true |- _ => apply andb_prop in E as [? ?]
           | E : String.eqb _ _ = true |- _ => apply String.eqb_eq in E
           end;
    cbn -[existsb]; unfold beginDiagnosis, startDiagnosis, userEffect;
    repeat match goal with
           | |- context [if ?c then _ else _] => destruct c
           | |- context [match user ?u with _ => _ end] => destruct (user u)
           end;
    cbn -[existsb];
    try (split; [intros; try discriminate; try congruence; eauto
                |intros; try discriminate; try congruence; eauto]).
  all: try (rewrite existsb_app; cbn; apply orb_true_r).
  all: try (rewrite existsb_app, orb_false_r; auto).
  all: try (erewrite existsb_diagnosing_delete by eassumption; auto).
  all: try (eapply existsb_diagnosing_insert; eassumption).
Qed.

Lemma run_live_invariant (JSON_parse : string -> option json)
  (events : list Event) (l l' : Live) :
  live_invariant l -> run JSON_parse events l = Some l' -> live_invariant l'.
Proof.
  revert l. induction events as [|e rest IH]; intros l Hl; cbn.
  - intros E. now injection E as <-.
  - destruct (step JSON_parse e l) as [l1|] eqn:E; [|discriminate].
    apply IH. eapply step_live_invariant; eassumption.
Qed.

Lemma step_patient_invariant (JSON_parse : string -> option json)
  (e : Event) (l l' : Live) :
  patient_invariant l -> step_patiently JSON_parse e l = Some l' ->
  patient_invariant l'.
Proof.
  unfold patient_invariant, step_patiently. intros Hl H.
  destruct (tasks l) as [|[p|vd g n] [|t2 rest]] eqn:Et; try contradiction.
  - (* nothing pending *)
    rewrite andb_false_r in H.
    destruct e; step_cases H;
      try (rewrite Et in *; discriminate);
      cbn; unfold beginDiagnosis, startDiagnosis, userEffect;
      repeat match goal with
             | |- context [if ?c then _ else _] =>
                 let C := fresh "C" in destruct c eqn:C
             | |- context [match user ?u with _ => _ end] =>
                 destruct (user u)
             end;
      cbn; rewrite ?Et; cbn; destruct Hl as [Hf Hc];
      try (split; [assumption || reflexivity|]);
      try assumption; try lia.
    all: try (destruct p; cbn; lia).
    all: try (apply Z.leb_gt in C; split; [reflexivity|lia]).
  - (* a payment pending *)
    destruct e; cbn in H; try discriminate; step_cases H;
      rewrite Et in *;
      repeat match goal with
             | E : (_ :: _) !! ?i = Some _ |- _ =>
                 destruct i; cbn in E; try discriminate
             end;
      simplify_eq.
    cbn. rewrite Et. cbn. destruct Hl as [Hf Hc].
    split; [assumption|]. destruct p0; cbn; lia.
  - (* a diagnosis pending *)
    destruct Hl as [Hs Hc]. rewrite andb_false_r in H.
    destruct e; unfold step, on_screen in H; rewrite ?Hs in H;
      cbn in H; try discriminate; rewrite Et in H;
      (destruct i as [|i]; cbn in H; [|discriminate]); try discriminate.
    + match type of H with
      | (if ?c then _ else _) = _ => destruct c; [|discriminate]
      end.
      injection H as <-. cbn. rewrite Et. cbn. auto.
    + match type of H with
      | (if ?c then _ else _) = _ => destruct c; [|discriminate]
      end.
      rewrite PrototypeFacts.performAIDiagnosis_cases in H.
      injection H as <-. cbn. rewrite Et. cbn. split; [reflexivity|lia].
Qed.

Lemma run_patient_invariant (JSON_parse : string -> option json)
  (events : list Event) (l l' : Live) :
  patient_invariant l -> run_patiently JSON_parse events l = Some l' ->
  patient_invariant l'.
Proof.
  revert l. induction events as [|e rest IH]; intros l Hl; cbn.
  - intros E. now injection E as <-.
  - destruct (step_patiently JSON_parse e l) as [l1|] eqn:E; [|discriminate].
    apply IH. eapply step_patient_invariant; eassumption.
Qed.

(** A patient run is a run. *)
Lemma run_patiently_run (JSON_parse : string -> option json)
  (events : list Event) (l l' : Live) :
  run_patiently JSON_parse events l = Some l' ->
  run JSON_parse events l = Some l'.
Proof.
  revert l. induction events as [|e rest IH]; intros l; cbn; [auto|].
  unfold step_patiently.
  destruct (is_click e && existsb is_payment (tasks l)); [discriminate|].
  destruct (step JSON_parse e l); [apply IH|discriminate].
Qed.

(** X6: the application with its pending work, from the state it mounts
    with.  Whatever events come in whatever order, and whatever the
    generation service answers, the results screen is only ever shown
    with a report to render, and the analysis flag is up only while a
    diagnosis is pending.  For a user who does nothing while a simulated
    payment is pending, at most one task is ever pending, the balance
    never goes below zero, and the analysis flag is down whenever
    nothing is pending; the flag is up in the middle of a diagnosis.
    Without that patience the balance can go below zero: after the
    events of [overdrawing_events], where a diagnosis is started between
    two payments of a double purchase and the user signs out before it
    ends, the balance is -1 on the results screen, with nobody signed
    in. *)
Theorem app_balance_patient_and_overdrawn
  (JSON_parse : string -> option json) :
  (forall events l,
     run JSON_parse events mounted = Some l ->
     (currentScreen (app l) = "results" ->
      exists d, diagnosis (app l) = Some d)
     /\ (isAnalyzing (app l) = true ->
         existsb is_diagnosing (tasks l) = true))
  /\ (forall events l,
        run_patiently JSON_parse events mounted = Some l ->
        run JSON_parse events mounted = Some l
        /\ (0 <= diagnosisCredits (app l))%Z
        /\ List.length (tasks l) <= 1
        /\ (tasks l = [] -> isAnalyzing (app l) = false))
  /\ (exists l,
        run_patiently JSON_parse diagnosing_events mounted = Some l
        /\ isAnalyzing (app l) = true
        /\ currentScreen (app l) = "analyzing"
        /\ diagnosisCredits (app l) = 1%Z)
  /\ (forall net,
        exists l,
          run JSON_parse (overdrawing_events net) mounted = Some l
          /\ diagnosisCredits (app l) = (-1)%Z
          /\ currentScreen (app l) = "results"
          /\ user (app l) = None
          /\ isAnalyzing (app l) = false
          /\ tasks l = []
          /\ diagnosis (app l)
             = Some (match try_block JSON_parse net with
                     | Ok (Some v) => v
                     | _ => getFallbackDiagnosis
                              {| year := "2011"; make := "Chevrolet";
                                 model := "Tahoe" |}
                     end)).
Proof.
  split; [|split; [|split]].
  - intros events l H.
    apply (run_live_invariant JSON_parse events mounted l); [|exact H].
    split; cbn; discriminate.
  - intros events l H. split; [now apply run_patiently_run|].
    assert (I0 : patient_invariant mounted)
      by (unfold patient_invariant; cbn; split; [reflexivity|lia]).
    pose proof (run_patient_invariant JSON_parse events mounted l I0 H) as P.
    unfold patient_invariant in P.
    destruct (tasks l) as [|[p|vd g n] [|t2 rest]]; try contradiction;
      cbn; destruct P as [P1 P2]; split; try lia; split; try lia;
      try discriminate; auto.
  - eexists. split; [vm_compute; reflexivity|].
    split; [reflexivity|]. split; reflexivity.
  - intros net.
    change (overdrawing_events net)
      with ((removelast (overdrawing_events net)
             ++ [ReplyArrives 0 net])%list).
    rewrite run_app.
    replace (run JSON_parse (removelast (overdrawing_events net)) mounted)
      with (run (fun _ => None) (removelast (overdrawing_events net)) mounted)
      by (vm_compute; reflexivity).
    set (l0 := run (fun _ => None) _ _).
    vm_compute in l0. subst l0.
    cbn -[performAIDiagnosis].
    rewrite PrototypeFacts.performAIDiagnosis_cases.
    eexists. split; [reflexivity|]. cbn.
    split; [reflexivity|]. split; [reflexivity|]. split; [reflexivity|].
    split; [reflexivity|]. split; [reflexivity|].
    destruct (try_block JSON_parse net) as [[v|]|e]; reflexivity.
Qed.

Section VideoFacts.

Variable thumbnail_text : json -> result string.

Lemma map_terms_ok (terms : list json) (idx : nat) :
  Forall (passes thumbnail_text) terms ->
  exists vs,
    map_terms thumbnail_text idx terms = Ok vs
    /\ map title vs = terms
    /\ (forall i v, vs !! i = Some v ->
          channel v = channel_of (idx + i)
          /\ exists text,
               thumbnail_text (title v) = Ok text
               /\ thumbnail v
                  = "https://via.placeholder.com/320x180/1a1a1a/00d4aa?text="
                    +:+ text).
Proof.
  intros H. revert idx.
  induction H as [|t rest [Ht [text Et]] Hr IH]; intros idx; cbn.
  - exists []. split; [reflexivity|]. split; [reflexivity|].
    intros i v E. destruct i; discriminate.
  - rewrite Ht, Et. destruct (IH (S idx)) as (vs & E & Ety & Ech).
    unfold_result. rewrite E.
    eexists. split; [reflexivity|]. split.
    + cbn. now rewrite Ety.
    + intros [|i] v Hv; cbn in Hv.
      * injection Hv as <-. cbn. rewrite Nat.add_0_r. eauto.
      * destruct (Ech i v Hv) as [Hch Hth]. split; [|exact Hth].
        rewrite Hch. f_equal. lia.
Qed.

(** The first term the callback does not get through decides the
    exception. *)
Lemma map_terms_throws (before after : list json) (term : json)
  (idx : nat) :
  Forall (passes thumbnail_text) before ->
  (sliceable term = false ->
   map_terms thumbnail_text idx (before ++ term :: after) = Throw "TypeError")
  /\ (forall e,
        sliceable term = true -> thumbnail_text term = Throw e ->
        map_terms thumbnail_text idx (before ++ term :: after) = Throw e).
Proof.
  intros H. revert idx.
  induction H as [|t rest [Ht [text Et]] Hr IH]; intros idx; cbn.
  - split; [intros ->; reflexivity|]. intros e -> ->. reflexivity.
  - rewrite Ht, Et. unfold_result. destruct (IH (S idx)) as [IH1 IH2].
    split.
    + intros Hs. now rewrite (IH1 Hs).
    + intros e Hs He. now rewrite (IH2 e Hs He).
Qed.

(** X7: the results screen's video list, for whatever report the state
    holds.  It is empty when the report is falsy or its [relatedVideos]
    is missing or falsy.  Otherwise [relatedVideos] must be an array, and
    any other value makes the computation throw a type error.  For an
    array, when every term is a string or an array whose text can be
    encoded, there is one video per term, in order, titled by the term,
    the first two with their own channel names, with the encoded text at
    the end of its thumbnail address; otherwise the first term that is
    not decides: a type error when it is neither a string nor an array,
    and else the error of the encoding.  The fallback report gives three
    videos when its three terms can be encoded. *)
Theorem results_videos_from_unchecked_report (d : json) :
  let rv := field "relatedVideos" d in
  (truthy (Some d) = false \/ truthy rv = false ->
   videos thumbnail_text (Some d) = Ok [])
  /\ (truthy (Some d) = true -> truthy rv = true ->
      match rv with
      | Some (JArr terms) =>
          (Forall (passes thumbnail_text) terms ->
           exists vs,
             videos thumbnail_text (Some d) = Ok vs
             /\ map title vs = terms
             /\ (forall i v, vs !! i = Some v ->
                   channel v = channel_of i
                   /\ exists text,
                        thumbnail_text (title v) = Ok text
                        /\ thumbnail v
                           = "https://via.placeholder.com/320x180/1a1a1a/00d4aa?text="
                             +:+ text))
          /\ (forall before term after,
                terms = (before ++ term :: after)%list ->
                Forall (passes thumbnail_text) before ->
                (sliceable term = false ->
                 videos thumbnail_text (Some d) = Throw "TypeError")
                /\ (forall e,
                      sliceable term = true ->
                      thumbnail_text term = Throw e ->
                      videos thumbnail_text (Some d) = Throw e))
      | _ => videos thumbnail_text (Some d) = Throw "TypeError"
      end)
  /\ (forall vd,
        match field "relatedVideos" (getFallbackDiagnosis vd) with
        | Some (JArr terms) =>
            List.length terms = 3
            /\ forallb sliceable terms = true
            /\ (Forall (passes thumbnail_text) terms ->
                exists vs,
                  videos thumbnail_text (Some (getFallbackDiagnosis vd))
                  = Ok vs
                  /\ List.length vs = 3)
        | _ => False
        end).
Proof.
  cbv zeta. split; [|split].
  - intros [H|H].
    + unfold videos. now rewrite H.
    + unfold videos. destruct (truthy (Some d)) eqn:Ed; [|reflexivity].
      destruct d; try discriminate; cbn in *; unfold_result;
        try reflexivity.
      rewrite H. reflexivity.
  - intros Hd Hrv.
    destruct d as [| | | | |props]; try discriminate.
    assert (V : videos thumbnail_text (Some (JObj props))
                = getYouTubeVideos thumbnail_text
                    (default (JArr []) (lookup_prop "relatedVideos" props))).
    { unfold videos. cbn in *. unfold_result. now rewrite Hrv. }
    rewrite V. cbn [field] in *.
    destruct (lookup_prop "relatedVideos" props) as [[| | | |terms|]|];
      try reflexivity; try discriminate.
    cbn [default getYouTubeVideos]. split.
    + intros H. destruct (map_terms_ok terms 0 H) as (vs & E1 & E2 & E3).
      exists vs. auto.
    + intros before term after -> Hb.
      exact (map_terms_throws before after term 0 Hb).
  - intros vd. cbn. split; [reflexivity|]. split; [reflexivity|].
    intros H.
    destruct (map_terms_ok _ 0 H) as (vs & E1 & E2 & _).
    exists vs. split; [|now rewrite <- (length_map title), E2].
    unfold videos. cbn. unfold_result. exact E1.
Qed.

(** X8: nothing between the reply and the results screen checks the
    report.  From any state with a credit there is a reply of the
    generation service on which [runDiagnosis] takes the credit and shows
    the results screen, and the screen's video computation then throws. *)
Theorem paid_run_can_break_results_screen (st : AppState) :
  (0 < diagnosisCredits st)%Z ->
  exists net st',
    runDiagnosis JsonParse.JSON_parse net st = Ok st'
    /\ currentScreen st' = "results"
    /\ diagnosisCredits st' = (diagnosisCredits st - 1)%Z
    /\ videos thumbnail_text (diagnosis st') = Throw "TypeError".
Proof.
  intros H. exists (FetchResolves (body_of unlisted_reply)).
  eexists. split; [apply runDiagnosis_cases|].
  apply Z.leb_gt in H. rewrite H.
  cbn [currentScreen diagnosisCredits diagnosis].
  split; [reflexivity|]. split; [reflexivity|].
  rewrite (PrototypeFacts.try_block_reply JsonParse.JSON_parse
             (body_of unlisted_reply) unlisted_reply eq_refl).
  reflexivity.
Qed.

End VideoFacts.

Lemma paid_run_can_break_results_screen_witness :
  (0 < diagnosisCredits (handlePurchase single (handleAuth initial)))%Z
  /\ exists net st',
       runDiagnosis JsonParse.JSON_parse net
         (handlePurchase single (handleAuth initial)) = Ok st'
       /\ currentScreen st' = "results"
       /\ diagnosisCredits st'
          = (diagnosisCredits (handlePurchase single (handleAuth initial))
             - 1)%Z
       /\ videos (fun _ => Ok "") (diagnosis st') = Throw "TypeError".
Proof.
  split; [cbn; lia|].
  apply (paid_run_can_break_results_screen (fun _ => Ok "")
           (handlePurchase single (handleAuth initial))).
  cbn; lia.
Defined.

End PrototypeAppFacts.

(** ** The database functions *)

Module SqlFacts.
Import Sql.

Lemma is_int4_spec (z : Z) :
  Plpgsql.is_int4 z = true
  <-> (Plpgsql.int4_min <= z <= Plpgsql.int4_max)%Z.
Proof.
  unfold Plpgsql.is_int4. rewrite andb_true_iff, !Z.leb_le. reflexivity.
Qed.

Lemma of_balances_lookup (us : gmap string Z) (uid : string) :
  Plpgsql.of_balances us !! uid = Some <$> us !! uid.
Proof. unfold Plpgsql.of_balances. apply lookup_fmap. Qed.

Lemma of_balances_insert (us : gmap string Z) (uid : string) (c : Z) :
  Plpgsql.of_balances (<[uid := c]> us)
  = <[uid := Some c]> (Plpgsql.of_balances us).
Proof. unfold Plpgsql.of_balances. apply fmap_insert. Qed.

(** At [amount] 1, the only amount the route handler passes, the
    function on unbounded balances is the function on [INTEGER]. *)
Lemma decrement_one_agrees (user_uuid : string) (us : gmap string Z) :
  (forall c, us !! user_uuid = Some c -> Plpgsql.is_int4 c = true) ->
  Plpgsql.decrement_user_credits user_uuid 1 (Plpgsql.of_balances us)
  = Ok ((decrement_user_credits user_uuid 1 us).1,
        Plpgsql.of_balances (decrement_user_credits user_uuid 1 us).2).
Proof.
  intros Hty. unfold Plpgsql.decrement_user_credits, decrement_user_credits.
  rewrite of_balances_lookup.
  destruct (us !! user_uuid) as [c|] eqn:E; cbn; [|reflexivity].
  destruct (1 <=? c)%Z eqn:L; cbn; [|reflexivity].
  apply Z.leb_le in L. specialize (Hty c eq_refl).
  apply is_int4_spec in Hty. unfold Plpgsql.int4.
  replace (Plpgsql.is_int4 (c - 1)) with true.
  - cbn. now rewrite of_balances_insert.
  - symmetry. apply is_int4_spec.
    unfold Plpgsql.int4_min, Plpgsql.int4_max in *. lia.
Qed.

(** A call of [add_user_credits] that does not fail does what the
    function on unbounded balances does. *)
Lemma add_agrees (user_uuid : string) (amount : Z) (us : gmap string Z)
  (us' : gmap string (option Z)) :
  Plpgsql.add_user_credits user_uuid amount (Plpgsql.of_balances us) = Ok us'
  -> us' = Plpgsql.of_balances (add_user_credits user_uuid amount us).
Proof.
  unfold Plpgsql.add_user_credits, add_user_credits.
  rewrite of_balances_lookup.
  destruct (us !! user_uuid) as [c|]; cbn; [|congruence].
  unfold Plpgsql.int4. destruct (Plpgsql.is_int4 (c + amount)); cbn;
    [|discriminate].
  intros E. injection E as <-. now rewrite of_balances_insert.
Qed.

(** X9: [decrement_user_credits] on the column's type, for an [amount]
    of the parameter's type.  It answers true exactly when the user
    exists with at least [amount] credits and the difference is an
    [INTEGER], and then takes exactly [amount] from that user; it raises
    [integer out of range] exactly when the user has at least [amount]
    credits and the difference is no [INTEGER], which takes a negative
    [amount]; in every other case, a missing user and a [NULL] balance
    among them, it answers false.  Unless it answers true the table is
    as before.  It never touches another user, never adds or removes a
    user, keeps every balance within the type, and never turns a balance
    that is not negative into a negative one. *)
Theorem decrement_user_credits_safe (user_uuid : string) (amount : Z)
  (us : gmap string (option Z)) :
  Plpgsql.is_int4 amount = true ->
  let r := Plpgsql.decrement_user_credits user_uuid amount us in
  (forall us',
     r = Ok (true, us') <->
     exists c, us !! user_uuid = Some (Some c) /\ (amount <= c)%Z
               /\ Plpgsql.is_int4 (c - amount) = true
               /\ us' = <[user_uuid := Some (c - amount)%Z]> us)
  /\ (forall e,
        r = Throw e <->
        e = "integer out of range"
        /\ exists c, us !! user_uuid = Some (Some c) /\ (amount <= c)%Z
                     /\ Plpgsql.is_int4 (c - amount) = false)
  /\ (forall us', r = Ok (false, us') -> us' = us)
  /\ ((0 <= amount)%Z -> Plpgsql.well_typed us -> exists b us', r = Ok (b, us'))
  /\ (forall b us',
        r = Ok (b, us') ->
        (forall other, other <> user_uuid -> us' !! other = us !! other)
        /\ dom us' = dom us
        /\ (Plpgsql.well_typed us -> Plpgsql.well_typed us')
        /\ (forall c c', us !! user_uuid = Some (Some c) ->
              us' !! user_uuid = Some (Some c') ->
              (0 <= c)%Z -> (0 <= c')%Z)
        /\ (us !! user_uuid = Some None -> us' = us /\ b = false)
        /\ (us !! user_uuid = None -> us' = us /\ b = false)).
Proof.
  intros _. cbv zeta. unfold Plpgsql.decrement_user_credits, Plpgsql.int4.
  destruct (us !! user_uuid) as [[c|]|] eqn:E.
  - destruct (amount <=? c)%Z eqn:L;
      [apply Z.leb_le in L|apply Z.leb_gt in L].
    + destruct (Plpgsql.is_int4 (c - amount)) eqn:Hd; cbn.
      * split; [|split; [|split; [|split]]].
        -- intros us'. split.
           ++ intros E'. injection E' as <-. exists c. auto.
           ++ intros (c0 & E0 & _ & _ & ->). now simplify_eq.
        -- intros e. split; [discriminate|].
           intros [_ (c0 & E0 & _ & F)]. simplify_eq. congruence.
        -- discriminate.
        -- eauto.
        -- intros b us' E'. injection E' as <- <-.
           split; [intros other Ho; now rewrite lookup_insert_ne by congruence|].
           split; [apply dom_insert_lookup_L; eauto|].
           split.
           { intros Hty uid c0. destruct (decide (uid = user_uuid)) as [->|N].
             - rewrite lookup_insert_eq. intros E'. now simplify_eq.
             - rewrite lookup_insert_ne by congruence. apply Hty. }
           split.
           { intros c0 c1 E0. rewrite lookup_insert_eq. intros E1 Hc.
             simplify_eq. lia. }
           split; discriminate.
      * split; [|split; [|split; [|split]]].
        -- intros us'. split; [discriminate|].
           intros (c0 & E0 & _ & F & _). simplify_eq. congruence.
        -- intros e. split.
           ++ intros E'. injection E' as <-. split; [reflexivity|].
              exists c. auto.
           ++ intros [-> _]. reflexivity.
        -- discriminate.
        -- intros Hpos Hty. exfalso. specialize (Hty _ _ E).
           apply is_int4_spec in Hty.
           assert (Plpgsql.is_int4 (c - amount) = true)
             by (apply is_int4_spec;
                 unfold Plpgsql.int4_min, Plpgsql.int4_max in *; lia).
           congruence.
        -- discriminate.
    + split; [|split; [|split; [|split]]].
      * intros us'. split; [discriminate|].
        intros (c0 & E0 & F & _). simplify_eq. lia.
      * intros e. split; [discriminate|].
        intros [_ (c0 & E0 & F & _)]. simplify_eq. lia.
      * intros us' E'. now injection E' as <-.
      * eauto.
      * intros b us' E'. injection E' as <- <-.
        split; [reflexivity|]. split; [reflexivity|]. split; [auto|].
        split; [|split; discriminate].
        intros c0 c1 E0 E1 Hc. simplify_eq. lia.
  - split; [|split; [|split; [|split]]].
    + intros us'. split; [discriminate|]. intros (c0 & F & _). discriminate.
    + intros e. split; [discriminate|].
      intros [_ (c0 & F & _)]; discriminate.
    + intros us' E'. now injection E' as <-.
    + eauto.
    + intros b us' E'. injection E' as <- <-.
      split; [reflexivity|]. split; [reflexivity|]. split; [auto|].
      split; [discriminate|]. split; [auto|discriminate].
  - split; [|split; [|split; [|split]]].
    + intros us'. split; [discriminate|]. intros (c0 & F & _). discriminate.
    + intros e. split; [discriminate|].
      intros [_ (c0 & F & _)]; discriminate.
    + intros us' E'. now injection E' as <-.
    + eauto.
    + intros b us' E'. injection E' as <- <-.
      split; [reflexivity|]. split; [reflexivity|]. split; [auto|].
      split; [discriminate|]. split; [discriminate|auto].
Qed.

(** X9, witness: taking one credit of two, and taking back a negative
    amount from the largest balance. *)
Lemma decrement_user_credits_safe_witness :
  (forall us',
     Plpgsql.decrement_user_credits "u1" 1
       (Plpgsql.of_balances (users Examples.two_credits)) = Ok (true, us')
     <-> exists c,
           Plpgsql.of_balances (users Examples.two_credits) !! "u1"
           = Some (Some c)
           /\ (1 <= c)%Z /\ Plpgsql.is_int4 (c - 1) = true
           /\ us' = <["u1" := Some (c - 1)%Z]>
                      (Plpgsql.of_balances (users Examples.two_credits)))
  /\ Plpgsql.decrement_user_credits "u1" (-1)
       {[ "u1" := Some Plpgsql.int4_max ]}
     = Throw "integer out of range".
Proof.
  split; [|reflexivity].
  exact (proj1 (decrement_user_credits_safe "u1" 1
                  (Plpgsql.of_balances (users Examples.two_credits))
                  eq_refl)).
Defined.

(** X10: adding and taking back, on the column's type.  For an existing
    user with a balance [c] that is not negative and an amount that is
    not negative: when [c + amount] is an [INTEGER], adding [amount]
    credits and then taking [amount] succeeds and restores the table;
    when it is not, adding raises [integer out of range]; and a deduction
    that succeeded is undone by adding the same amount.  For a user that
    does not exist, or whose balance is [NULL], both functions change
    nothing. *)
Theorem add_then_decrement_restores (user_uuid : string) (amount c : Z)
  (us : gmap string (option Z)) :
  us !! user_uuid = Some (Some c) -> (0 <= c)%Z ->
  Plpgsql.is_int4 c = true ->
  (0 <= amount)%Z -> Plpgsql.is_int4 amount = true ->
  (Plpgsql.is_int4 (c + amount) = true ->
   exists us1,
     Plpgsql.add_user_credits user_uuid amount us = Ok us1
     /\ us1 !! user_uuid = Some (Some (c + amount)%Z)
     /\ Plpgsql.decrement_user_credits user_uuid amount us1 = Ok (true, us))
  /\ (Plpgsql.is_int4 (c + amount) = false ->
      Plpgsql.add_user_credits user_uuid amount us
      = Throw "integer out of range")
  /\ (forall us1,
        Plpgsql.decrement_user_credits user_uuid amount us = Ok (true, us1) ->
        Plpgsql.add_user_credits user_uuid amount us1 = Ok us)
  /\ (forall stranger us',
        us' !! stranger = None \/ us' !! stranger = Some None ->
        Plpgsql.add_user_credits stranger amount us' = Ok us'
        /\ Plpgsql.decrement_user_credits stranger amount us'
           = Ok (false, us')).
Proof.
  intros E Hc Hty Ha Hat.
  unfold Plpgsql.add_user_credits, Plpgsql.decrement_user_credits,
    Plpgsql.int4.
  rewrite E. split; [|split; [|split]].
  - intros Hs. rewrite Hs. cbn. eexists. split; [reflexivity|].
    rewrite lookup_insert_eq. split; [reflexivity|].
    replace (amount <=? c + amount)%Z with true
      by (symmetry; apply Z.leb_le; lia).
    replace (c + amount - amount)%Z with c by lia. rewrite Hty. cbn.
    rewrite insert_insert_eq. f_equal. f_equal. now apply insert_id.
  - intros Hs. rewrite Hs. reflexivity.
  - intros us1. destruct (amount <=? c)%Z; [|discriminate].
    destruct (Plpgsql.is_int4 (c - amount)); cbn; [|discriminate].
    intros E1. injection E1 as <-. rewrite lookup_insert_eq.
    replace (c - amount + amount)%Z with c by lia. rewrite Hty. cbn.
    rewrite insert_insert_eq. f_equal. now apply insert_id.
  - intros stranger us' [H|H]; rewrite H; auto.
Qed.

Lemma add_then_decrement_restores_witness :
  exists us1,
    Plpgsql.add_user_credits "u1" 3
      (Plpgsql.of_balances (users Examples.two_credits)) = Ok us1
    /\ us1 !! "u1" = Some (Some 5%Z)
    /\ Plpgsql.decrement_user_credits "u1" 3 us1
       = Ok (true, Plpgsql.of_balances (users Examples.two_credits)).
Proof.
  exact (proj1 (add_then_decrement_restores "u1" 3 2
                  (Plpgsql.of_balances (users Examples.two_credits))
                  eq_refl ltac:(lia) eq_refl ltac:(lia) eq_refl) eq_refl).
Defined.

End SqlFacts.

(** ** Reports read back from a [JSONB] column *)

Module JsonbFacts.
Import Jsonb.

Lemma lookup_prop_put (k k' : string) (v : json)
  (props : list (string * json)) :
  lookup_prop k (put k' v props)
  = if String.eqb k k' then Some v else lookup_prop k props.
Proof.
  induction props as [|[k0 v0] rest IH]; cbn; [reflexivity|].
  destruct (String.eqb k' k0) eqn:E0; cbn.
  - apply String.eqb_eq in E0. subst k0.
    destruct (String.eqb k k'); reflexivity.
  - destruct (key_before k' k0); cbn; [reflexivity|].
    rewrite IH. destruct (String.eqb k k0) eqn:E1; [|reflexivity].
    apply String.eqb_eq in E1. subst k0.
    rewrite String.eqb_sym, E0. reflexivity.
Qed.

Lemma lookup_prop_app (k : string) (a b : list (string * json)) :
  lookup_prop k (a ++ b)
  = match lookup_prop k a with
    | Some x => Some x
    | None => lookup_prop k b
    end.
Proof.
  induction a as [|[k0 v0] rest IH]; cbn; [reflexivity|].
  destruct (String.eqb k k0); [reflexivity|exact IH].
Qed.

Lemma lookup_prop_absent (k : string) (props : list (string * json)) :
  k ∉ map fst props -> lookup_prop k props = None.
Proof.
  induction props as [|[k0 v0] rest IH]; cbn; [reflexivity|].
  intros H. destruct (String.eqb k k0) eqn:E.
  - apply String.eqb_eq in E. subst k0. exfalso. apply H. left.
  - apply IH. intros Hin. apply H. right. exact Hin.
Qed.

(** With distinct keys the last value of a key is its only one. *)
Lemma last_prop_distinct (k : string) (props : list (string * json)) :
  NoDup (map fst props) -> last_prop k props = lookup_prop k props.
Proof.
  unfold last_prop. induction props as [|[k0 v0] rest IH]; cbn;
    [reflexivity|].
  intros H. apply NoDup_cons in H as [Hk Hr].
  rewrite lookup_prop_app, (IH Hr). cbn.
  destruct (String.eqb k k0) eqn:E.
  - apply String.eqb_eq in E. subst k0.
    now rewrite (lookup_prop_absent k rest Hk).
  - destruct (lookup_prop k rest); reflexivity.
Qed.

Lemma lookup_prop_kept (k : string) (props kept : list (string * json)) :
  lookup_prop k
    (fold_left (fun kept '(k, x) => put k (jsonb x) kept) props kept)
  = match last_prop k props with
    | Some x => Some (jsonb x)
    | None => lookup_prop k kept
    end.
Proof.
  unfold last_prop. revert kept.
  induction props as [|[k0 v0] rest IH]; intros kept; cbn; [reflexivity|].
  rewrite IH, lookup_prop_app, lookup_prop_put. cbn.
  destruct (lookup_prop k (rev rest)); [reflexivity|].
  destruct (String.eqb k k0); reflexivity.
Qed.

(** What a key gives in the stored report: the normal form of the last
    value the written report has for it. *)
Lemma field_jsonb (k : string) (props : list (string * json)) :
  field k (jsonb (JObj props)) = jsonb <$> last_prop k props.
Proof.
  cbn [jsonb field]. rewrite lookup_prop_kept.
  destruct (last_prop k props); reflexivity.
Qed.

(** *** The order of the keys *)

Lemma ltb_trans (a b c : string) :
  String.ltb a b = true -> String.ltb b c = true -> String.ltb a c = true.
Proof.
  unfold String.ltb. intros H1 H2.
  destruct (String.compare a b) eqn:E1; try discriminate.
  destruct (String.compare b c) eqn:E2; try discriminate.
  assert (L : OrderedTypeEx.String_as_OT.lt a c).
  { eapply OrderedTypeEx.String_as_OT.lt_trans;
      apply OrderedTypeEx.String_as_OT.cmp_lt; eassumption. }
  apply OrderedTypeEx.String_as_OT.cmp_lt in L.
  change (String.compare a c = Lt) in L. now rewrite L.
Qed.

Lemma key_before_trans (a b c : string) :
  key_before a b = true -> key_before b c = true -> key_before a c = true.
Proof.
  unfold key_before. rewrite !orb_true_iff, !andb_true_iff.
  rewrite !Nat.ltb_lt, !Nat.eqb_eq.
  intros [H1|[H1 L1]] [H2|[H2 L2]]; try (left; lia).
  right. split; [lia|]. eapply ltb_trans; eassumption.
Qed.

Lemma key_before_irrefl (a : string) : key_before a a = false.
Proof.
  unfold key_before, String.ltb.
  rewrite Nat.ltb_irrefl, Nat.eqb_refl. cbn.
  destruct (String.compare a a) eqn:E; try reflexivity.
  pose proof (String.compare_antisym a a) as A. rewrite E in A.
  discriminate.
Qed.

Lemma key_before_total (a b : string) :
  String.eqb a b = false -> key_before a b = false -> key_before b a = true.
Proof.
  unfold key_before, String.ltb. intros Hne H.
  apply orb_false_iff in H as [H1 H2]. apply Nat.ltb_ge in H1.
  apply orb_true_iff.
  destruct (Nat.eqb (String.length a) (String.length b)) eqn:El.
  - right. apply Nat.eqb_eq in El. rewrite <- El, Nat.eqb_refl. cbn.
    cbn in H2. rewrite (String.compare_antisym b a).
    destruct (String.compare a b) eqn:E; try discriminate; [|reflexivity].
    apply String.compare_eq_iff in E. apply String.eqb_neq in Hne.
    contradiction.
  - left. apply Nat.eqb_neq in El. apply Nat.ltb_lt. lia.
Qed.

Lemma put_keys (k : string) (v : json) (props : list (string * json))
  (x : string) :
  x ∈ map fst (put k v props) -> x = k \/ x ∈ map fst props.
Proof.
  induction props as [|[k0 v0] rest IH]; cbn.
  - intros H. apply list_elem_of_singleton in H. auto.
  - destruct (String.eqb k k0) eqn:E; cbn.
    + apply String.eqb_eq in E. subst k0. auto.
    + destruct (key_before k k0); cbn.
      * intros H. apply elem_of_cons in H as [->|H]; auto.
      * intros H. apply elem_of_cons in H as [->|H]; [right; left|].
        destruct (IH H) as [->|Hr]; [auto|]. right. right. exact Hr.
Qed.

Lemma put_ordered (k : string) (v : json) (props : list (string * json)) :
  keys_ordered props -> keys_ordered (put k v props).
Proof.
  unfold keys_ordered.
  induction props as [|[k0 v0] rest IH]; cbn; intros H.
  - repeat constructor.
  - apply StronglySorted_inv in H as [Hs Hf].
    destruct (String.eqb k k0) eqn:E; cbn.
    + apply String.eqb_eq in E. subst k0. now constructor.
    + destruct (key_before k k0) eqn:B; cbn.
      * constructor; [now constructor|]. constructor; [exact B|].
        eapply Forall_impl; [exact Hf|]. intros y Hy.
        eapply key_before_trans; eassumption.
      * constructor; [apply IH, Hs|].
        rewrite Forall_forall in *. intros y Hy.
        destruct (put_keys k v rest y Hy) as [->|Hr]; [|auto].
        apply key_before_total; [|exact B]. exact E.
Qed.

(** The keys of a stored object are in the order of the column type,
    each strictly before the next. *)
Lemma jsonb_ordered (props : list (string * json)) :
  exists kept, jsonb (JObj props) = JObj kept /\ keys_ordered kept.
Proof.
  cbn [jsonb]. eexists. split; [reflexivity|].
  assert (G : forall kept,
             keys_ordered kept ->
             keys_ordered
               (fold_left (fun kept '(k, x) => put k (jsonb x) kept)
                  props kept)).
  { induction props as [|[k0 v0] rest IH]; intros kept Hk; cbn;
      [exact Hk|].
    apply IH, put_ordered, Hk. }
  apply G. constructor.
Qed.

Lemma keys_ordered_NoDup (props : list (string * json)) :
  keys_ordered props -> NoDup (map fst props).
Proof.
  unfold keys_ordered. induction 1 as [|k rest Hs IH Hf]; constructor;
    [|exact IH].
  intros Hin. rewrite Forall_forall in Hf. specialize (Hf k Hin).
  rewrite key_before_irrefl in Hf. discriminate.
Qed.

(** The stored report need not be the written one: the keys come back
    in the order of the column type. *)
Example brake_report_reordered :
  jsonb (JObj Examples.brake_report)
  = JObj [("severity", JStr "high");
          ("primaryDiagnosis", JStr "worn brake pads")]
  /\ jsonb (JObj Examples.brake_report) <> JObj Examples.brake_report.
Proof. split; [reflexivity|discriminate]. Qed.

End JsonbFacts.

(** ** More on the route handler: what a request costs and leaves behind *)

Module RouteEffects.
Import Route RouteFacts Photos History Among.

Lemma upload_photos_spec (w : World) (fs : list File) (urls : list string)
  (st : HState) :
  upload_photos w fs urls st
  = (Next (urls ++ uploaded_urls w fs),
     {| db := db st;
        trace := trace st ++ map EvPut (List.filter has_content fs) |}).
Proof.
  revert urls st. unfold uploaded_urls.
  induction fs as [|f rest IH]; intros urls [d tr]; cbn.
  - now rewrite !app_nil_r.
  - change (has_content f) with (0 <? file_size f)%Z.
    destruct (0 <? file_size f)%Z eqn:Hc; cbn.
    + unfold_handler. cbn.
      destruct (blob_put w f) as [url|] eqn:Hp; rewrite IH; cbn;
        rewrite ?Hp, <- ?app_assoc; reflexivity.
    + apply IH.
Qed.

Lemma omap_length_le {A B} (g : A -> option B) (l : list A) :
  List.length (omap g l) <= List.length l.
Proof.
  induction l as [|x l IH]; cbn; [lia|]. destruct (g x); cbn; lia.
Qed.

(** X11: the photo loop never ends the request and never touches the
    database.  It uploads each photo that has content exactly once, in
    order, skips the empty ones, and hands on exactly the URLs of the
    uploads that succeeded, in order; a failed upload only drops that
    photo. *)
Theorem upload_photos_keeps_successes (w : World) (fs : list File)
  (st : HState) :
  exists urls,
    upload_photos w fs [] st
    = (Next urls,
       {| db := db st;
          trace := trace st ++ map EvPut (List.filter has_content fs) |})
    /\ urls = uploaded_urls w fs
    /\ List.length urls <= List.length fs
    /\ (forall url, url ∈ urls <->
          exists f, f ∈ fs /\ (0 < file_size f)%Z /\ blob_put w f = Some url).
Proof.
  eexists. split; [apply upload_photos_spec|]. cbn.
  split; [reflexivity|]. split.
  - unfold uploaded_urls. etransitivity; [apply omap_length_le|].
    pose proof (filter_length has_content fs). lia.
  - intros url. unfold uploaded_urls. rewrite list_elem_of_omap.
    split.
    + intros (f & Hf & E). exists f.
      apply list_elem_of_In, filter_In in Hf as [Hf Hc].
      apply Z.ltb_lt in Hc. rewrite list_elem_of_In. auto.
    + intros (f & Hf & Hc & E). exists f. split; [|assumption].
      apply list_elem_of_In, filter_In. rewrite <- list_elem_of_In.
      split; [assumption|]. now apply Z.ltb_lt.
Qed.

(** The database when the request ends, among other requests. *)
Lemma POST_among_cases (w : World)
  (o1 o2 o3 : Database -> Database) (d : Database) :
  match post_head w {| db := d; trace := [] |} with
  | (Next g, st) =>
      db st = d
      /\ getUserFromHeaders w = Some (g_user g)
      /\ (exists c, users d !! g_user g = Some c /\ (1 <= c)%Z)
      /\ let row := diagnosis_row (g_user g) (g_form g) (g_audioUrl g)
                      (g_photoUrls g) (g_diagnosis g) in
         let d' := o3 (after_insert w row
                         (o2 (after_decrement w (g_user g) (o1 d)))) in
         POST_among w o1 o2 o3 d
         = (success_response (g_diagnosis g) (insert_ok w)
              (if select_credits_ok w then users d' !! g_user g else None),
            d',
            (trace st ++ [EvDecrementCredits (g_user g); EvInsertDiagnosis;
                          EvSelectCredits (g_user g)])%list)
  | (Respond r, st) =>
      db st = d /\ Route.status r <> 200%Z
      /\ POST_among w o1 o2 o3 d = (r, d, trace st)
  | (Raise e, st) =>
      db st = d
      /\ POST_among w o1 o2 o3 d = (Route.failure 500 e, d, trace st)
  end.
Proof.
  unfold POST_among, post_head.
  destruct (getUserFromHeaders w) as [uid|] eqn:Ha.
  2:{ cbn. split; [reflexivity|]. split; [discriminate|reflexivity]. }
  unfold select_user. unfold_handler. simpl.
  destruct (if select_user_ok w then users d !! uid else None)
    as [credits|] eqn:Hu.
  2:{ cbn. split; [reflexivity|]. split; [discriminate|reflexivity]. }
  assert (Hs : select_user_ok w = true /\ users d !! uid = Some credits).
  { destruct (select_user_ok w); [auto|discriminate]. }
  destruct Hs as [Hs Hc].
  destruct (credits <? 1)%Z eqn:Hlt.
  { cbn. split; [reflexivity|]. split; [discriminate|reflexivity]. }
  apply Z.ltb_ge in Hlt.
  unfold await_formData. unfold_handler. simpl.
  destruct (request_formData w) as [f|e] eqn:Hf.
  2:{ cbn. split; reflexivity. }
  destruct (missing_fields f) eqn:Hm.
  { cbn. split; [reflexivity|]. split; [discriminate|reflexivity]. }
  match goal with
  | |- context [process_audio w ?a ?st] =>
      destruct (process_audio_run w a st)
        as ([audioUrl audioAnalysis] & m1 & E1 & Hm1)
  end.
  rewrite E1. simpl.
  match goal with
  | |- context [upload_photos w ?fs ?us ?st] =>
      destruct (upload_photos_run w fs us st) as (photoUrls & m2 & E2 & Hm2)
  end.
  rewrite E2. simpl.
  unfold await_diagnose. unfold_handler. simpl.
  destruct (engine_diagnose w (vehicle_info f) (default "" (symptomText f))
              audioAnalysis (nonempty_urls photoUrls)) as [diag|e] eqn:Hd.
  - cbn. split; [reflexivity|]. split; [reflexivity|].
    split; [eauto|].
    unfold post_tail, meanwhile, rpc_decrement, insert_diagnosis,
      select_credits, after_insert, after_decrement.
    unfold_handler. cbn.
    destruct (rpc_ok w); destruct (insert_ok w) as [sid|]; cbn;
      repeat rewrite <- app_assoc; cbn; reflexivity.
  - cbn. split; reflexivity.
Qed.

(** With nothing done by others the request is the request alone. *)
Lemma POST_among_alone (w : World) (d : Database) :
  POST_among w id id id d = POST w d.
Proof.
  unfold POST_among, POST, post_body, post_head.
  destruct (getUserFromHeaders w) as [uid|] eqn:Ha; [|reflexivity].
  unfold select_user. unfold_handler. simpl.
  destruct (if select_user_ok w then users d !! uid else None)
    as [credits|] eqn:Hu; [|reflexivity].
  destruct (credits <? 1)%Z eqn:Hlt; [reflexivity|].
  unfold await_formData. unfold_handler. simpl.
  destruct (request_formData w) as [f|e] eqn:Hf; [|reflexivity].
  destruct (missing_fields f) eqn:Hm; [reflexivity|].
  match goal with
  | |- context [process_audio w ?a ?st] =>
      destruct (process_audio_run w a st)
        as ([audioUrl audioAnalysis] & m1 & E1 & Hm1)
  end.
  rewrite E1. simpl.
  match goal with
  | |- context [upload_photos w ?fs ?us ?st] =>
      destruct (upload_photos_run w fs us st) as (photoUrls & m2 & E2 & Hm2)
  end.
  rewrite E2. simpl.
  unfold await_diagnose. unfold_handler. simpl.
  destruct (engine_diagnose w (vehicle_info f) (default "" (symptomText f))
              audioAnalysis (nonempty_urls photoUrls)) as [diag|e] eqn:Hd;
    [|reflexivity].
  unfold post_tail, meanwhile, rpc_decrement, insert_diagnosis,
    select_credits. unfold_handler. cbn.
  destruct (rpc_ok w); destruct (insert_ok w) as [sid|]; reflexivity.
Qed.

(** The balance after the deduction call, whatever the balance it
    meets. *)
Lemma after_decrement_balance (w : World) (uid : string) (d : Database) :
  users (after_decrement w uid d) !! uid
  = (fun c => if rpc_ok w && (1 <=? c)%Z then (c - 1)%Z else c)
      <$> users d !! uid
  /\ (forall other, other <> uid ->
        users (after_decrement w uid d) !! other = users d !! other)
  /\ Db.diagnoses (after_decrement w uid d) = Db.diagnoses d.
Proof.
  unfold after_decrement, decrement_user_credits.
  destruct (rpc_ok w); cbn.
  - destruct (users d !! uid) as [c|] eqn:E; cbn.
    + destruct (1 <=? c)%Z; cbn.
      * rewrite lookup_insert_eq. split; [reflexivity|].
        split; [|reflexivity].
        intros other Ho. now rewrite lookup_insert_ne by congruence.
      * rewrite E. auto.
    + rewrite E. auto.
  - destruct (users d !! uid); auto.
Qed.

(** X12: what one request changes.  With the database to itself:
    unless it answers 200 the database is as before; no request changes
    another user's balance or the set of users; a request answered 200
    came from a user with at least one credit, takes exactly one credit
    when the deduction call works and none when it fails, carries the
    engine's report, the id of the saved row if the insert worked, and as
    [creditsRemaining] the balance afterwards, or 0 when the final lookup
    fails; and the row it saves belongs to that user, holds that report
    and always says one credit was used.  Among other requests, whatever
    they write while this one awaits: the response is 200 exactly when
    it is for the request alone, with the same report, and otherwise is
    the same response and the request writes nothing; a request answered
    200 takes one credit exactly when the deduction call works and the
    balance it meets at that moment is at least 1, and is answered 200
    in either case; it touches no other balance; its row is inserted
    after what the others did in between; and [creditsRemaining] is the
    balance at the final lookup. *)
Theorem POST_charges_only_for_delivery (w : World) (d : Database) :
  let r := (POST w d).1.1 in
  let d' := (POST w d).1.2 in
  (Route.status r <> 200%Z -> d' = d)
  /\ (forall other, getUserFromHeaders w <> Some other ->
        users d' !! other = users d !! other)
  /\ dom (users d') = dom (users d)
  /\ (Route.status r = 200%Z ->
      exists uid c diag,
        getUserFromHeaders w = Some uid
        /\ users d !! uid = Some c /\ (1 <= c)%Z
        /\ diagnosis r = Some (JObj diag)
        /\ users d' !! uid = Some (if rpc_ok w then c - 1 else c)%Z
        /\ diagnosisId r = insert_ok w
        /\ creditsRemaining r
           = Some (if select_credits_ok w
                   then (if rpc_ok w then c - 1 else c) else 0)%Z
        /\ match insert_ok w with
           | Some _ =>
               exists row,
                 Db.diagnoses d' = (Db.diagnoses d ++ [row])%list
                 /\ user_id row = uid
                 /\ diagnosis_result row = JObj diag
                 /\ credits_used row = 1%Z
           | None => Db.diagnoses d' = Db.diagnoses d
           end)
  /\ (forall o1 o2 o3 : Database -> Database,
        let ra := (POST_among w o1 o2 o3 d).1.1 in
        let da := (POST_among w o1 o2 o3 d).1.2 in
        (Route.status ra = 200%Z <-> Route.status r = 200%Z)
        /\ (Route.status ra <> 200%Z -> ra = r /\ da = d)
        /\ (Route.status ra = 200%Z ->
            exists uid c diag row,
              getUserFromHeaders w = Some uid
              /\ users d !! uid = Some c /\ (1 <= c)%Z
              /\ diagnosis ra = Some (JObj diag)
              /\ diagnosis r = Some (JObj diag)
              /\ diagnosisId ra = insert_ok w
              /\ user_id row = uid
              /\ diagnosis_result row = JObj diag
              /\ credits_used row = 1%Z
              /\ da = o3 (after_insert w row
                           (o2 (after_decrement w uid (o1 d))))
              /\ users (after_decrement w uid (o1 d)) !! uid
                 = (fun c1 => if rpc_ok w && (1 <=? c1)%Z
                              then (c1 - 1)%Z else c1)
                     <$> users (o1 d) !! uid
              /\ (forall other, other <> uid ->
                    users (after_decrement w uid (o1 d)) !! other
                    = users (o1 d) !! other)
              /\ creditsRemaining ra
                 = Some (if select_credits_ok w
                         then default 0%Z (users da !! uid) else 0%Z))).
Proof.
  cbv zeta. split; [|split; [|split; [|split]]].
  5:{ intros o1 o2 o3.
      pose proof (POST_among_cases w o1 o2 o3 d) as A.
      pose proof (POST_among_cases w id id id d) as B.
      rewrite POST_among_alone in B.
      destruct (post_head w {| db := d; trace := [] |}) as [[g|r0|e] st].
      - destruct A as (_ & Hu & (c & Hc & Hpos) & A).
        destruct B as (_ & _ & _ & B). cbv zeta in A, B.
        rewrite A, B. cbn [fst snd].
        split; [split; reflexivity|].
        split; [intros F; exfalso; apply F; reflexivity|].
        intros _.
        exists (g_user g), c, (g_diagnosis g),
          (diagnosis_row (g_user g) (g_form g) (g_audioUrl g)
             (g_photoUrls g) (g_diagnosis g)).
        destruct (after_decrement_balance w (g_user g) (o1 d))
          as (Hb & Ho & _).
        split; [assumption|]. split; [assumption|]. split; [assumption|].
        split; [reflexivity|]. split; [reflexivity|].
        split; [reflexivity|]. split; [reflexivity|].
        split; [reflexivity|]. split; [reflexivity|].
        split; [reflexivity|]. split; [exact Hb|]. split; [exact Ho|].
        cbn. destruct (select_credits_ok w); reflexivity.
      - destruct A as (_ & Hn & A). destruct B as (_ & _ & B).
        rewrite A, B. cbn [fst snd]. split; [tauto|].
        split; [auto|]. intros F. contradiction.
      - destruct A as (_ & A). destruct B as (_ & B).
        rewrite A, B. cbn [fst snd]. split; [tauto|].
        split; [auto|]. discriminate. }
  all: pose proof (POST_run w d) as R.
  all: destruct R; cbn [fst snd];
    try reflexivity; try discriminate;
    try (intros F; exfalso; apply F; reflexivity).
  all: subst d' row; unfold after_insert, after_decrement,
         decrement_user_credits; rewrite H1;
       replace (1 <=? credits)%Z with true
         by (symmetry; apply Z.leb_le; lia).
  - intros other Ho.
    destruct (rpc_ok w), (insert_ok w); cbn; try reflexivity;
      apply lookup_insert_ne; congruence.
  - destruct (rpc_ok w), (insert_ok w); cbn; try reflexivity;
      apply dom_insert_lookup_L; eauto.
  - intros _. exists uid, credits, diag.
    split; [assumption|]. split; [assumption|]. split; [assumption|].
    split; [reflexivity|].
    destruct (rpc_ok w), (insert_ok w) as [sid'|], (select_credits_ok w); cbn;
      rewrite ?lookup_insert_eq, ?H1; cbn;
      (split; [reflexivity|]); (split; [reflexivity|]);
      (split; [reflexivity|]); eauto.
Qed.

Lemma filter_snoc {A} (p : A -> bool) (l : list A) (x : A) :
  List.filter p (l ++ [x]) = (List.filter p l ++ if p x then [x] else [])%list.
Proof.
  induction l as [|y l IH]; cbn; [destruct (p x); reflexivity|].
  rewrite IH. destruct (p y); reflexivity.
Qed.

Lemma select_diagnoses_new (uid : string) (n : nat) (us : gmap string Z)
  (rows : list DiagnosisRow) (row : DiagnosisRow) :
  user_id row = uid ->
  select_diagnoses uid (S n)
    {| users := us; Db.diagnoses := (rows ++ [row])%list |}
  = selected row
    :: select_diagnoses uid n {| users := us; Db.diagnoses := rows |}.
Proof.
  intros E. unfold select_diagnoses. cbn [Db.diagnoses].
  rewrite filter_snoc, E, String.eqb_refl, rev_unit. reflexivity.
Qed.

Lemma select_diagnoses_other (uid : string) (n : nat) (us : gmap string Z)
  (rows : list DiagnosisRow) (row : DiagnosisRow) :
  user_id row <> uid ->
  select_diagnoses uid n {| users := us; Db.diagnoses := (rows ++ [row])%list |}
  = select_diagnoses uid n {| users := us; Db.diagnoses := rows |}.
Proof.
  intros E. unfold select_diagnoses. cbn [Db.diagnoses].
  rewrite filter_snoc. apply String.eqb_neq in E. rewrite E, app_nil_r.
  reflexivity.
Qed.

Lemma select_diagnoses_users (uid : string) (n : nat) (d d' : Database) :
  Db.diagnoses d' = Db.diagnoses d ->
  select_diagnoses uid n d' = select_diagnoses uid n d.
Proof. intros E. unfold select_diagnoses. now rewrite E. Qed.

(** X13: a diagnosis that was saved is at the head of its owner's
    history, in the normal form of its [JSONB] column.  After a request
    answered 200 whose insert worked, the history of that user starts
    with the row of that request, followed by the 49 newest rows of the
    history before.  The report of that row is the normal form of the
    report of the response: every key gives the normal form of the last
    value the response's report has for it, which is its only value when
    the report's keys are distinct, as those of a JavaScript object are;
    the order of the keys is the column type's and need not be the
    response's.  The history of every other user is what it was. *)
Theorem POST_then_GET_shows_new_diagnosis (w : World) (d : Database)
  (uid sid : string) :
  getUserFromHeaders w = Some uid ->
  insert_ok w = Some sid ->
  Route.status (POST w d).1.1 = 200%Z ->
  (exists row diag,
      History.diagnoses (GET (Some uid) true (POST w d).1.2)
      = Some (row :: select_diagnoses uid 49 d)
      /\ diagnosis (POST w d).1.1 = Some (JObj diag)
      /\ user_id row = uid
      /\ diagnosis_result row = Jsonb.jsonb (JObj diag)
      /\ (exists kept, diagnosis_result row = JObj kept
                       /\ Jsonb.keys_ordered kept)
      /\ (forall k, field k (diagnosis_result row)
                    = Jsonb.jsonb <$> Jsonb.last_prop k diag)
      /\ (NoDup (map fst diag) ->
          forall k, field k (diagnosis_result row)
                    = Jsonb.jsonb <$> field k (JObj diag)))
  /\ (forall other,
        other <> uid ->
        GET (Some other) true (POST w d).1.2 = GET (Some other) true d).
Proof.
  intros Ha Hi. pose proof (POST_run w d) as R.
  destruct R; cbn [fst snd]; try discriminate. intros _.
  assert (uid0 = uid) by congruence. subst uid0.
  subst d' row. unfold after_insert, after_decrement. rewrite Hi.
  split.
  - exists (selected (diagnosis_row uid f audioUrl photoUrls diag)), diag.
    split.
    { cbn [GET History.diagnoses]. f_equal.
      rewrite select_diagnoses_new by reflexivity. f_equal.
      apply select_diagnoses_users. destruct (rpc_ok w); reflexivity. }
    split; [reflexivity|]. split; [reflexivity|].
    split; [reflexivity|]. cbn [selected diagnosis_result diagnosis_row].
    split; [apply JsonbFacts.jsonb_ordered|].
    split; [intros k; apply JsonbFacts.field_jsonb|].
    intros Hk k. rewrite JsonbFacts.field_jsonb.
    now rewrite JsonbFacts.last_prop_distinct.
  - intros other Ho. cbn [GET]. f_equal. f_equal.
    rewrite select_diagnoses_other by (cbn; congruence).
    apply select_diagnoses_users. destruct (rpc_ok w); reflexivity.
Qed.

Lemma POST_then_GET_shows_new_diagnosis_witness :
  exists row diag,
    History.diagnoses
      (GET (Some "u1") true
         (POST (Examples.world_with (Some "grinding noise when braking")
                  (Ok Examples.brake_report) true)
            Examples.two_credits).1.2)
    = Some (row :: select_diagnoses "u1" 49 Examples.two_credits)
    /\ diagnosis
         (POST (Examples.world_with (Some "grinding noise when braking")
                  (Ok Examples.brake_report) true)
            Examples.two_credits).1.1 = Some (JObj diag)
    /\ user_id row = "u1"
    /\ diagnosis_result row = Jsonb.jsonb (JObj diag)
    /\ (exists kept, diagnosis_result row = JObj kept
                     /\ Jsonb.keys_ordered kept)
    /\ (forall k, field k (diagnosis_result row)
                  = Jsonb.jsonb <$> Jsonb.last_prop k diag)
    /\ (NoDup (map fst diag) ->
        forall k, field k (diagnosis_result row)
                  = Jsonb.jsonb <$> field k (JObj diag)).
Proof.
  exact (proj1 (POST_then_GET_shows_new_diagnosis
                  (Examples.world_with (Some "grinding noise when braking")
                     (Ok Examples.brake_report) true)
                  Examples.two_credits "u1" "d1" eq_refl eq_refl
                  ltac:(vm_compute; reflexivity))).
Defined.

(** X14: the history is answered 200 exactly for an authenticated caller
    whose query worked, 401 with the message [Unauthorized] without a
    token, and 500 with the message [Failed to fetch diagnoses] for an
    authenticated caller whose query fails; only a 200 response carries
    rows.  The rows are at most 50, each is a row of the table that
    belongs to the caller, as a [SELECT] returns it; they are the newest
    of the caller's rows, newest first, and all of them when the caller
    has at most 50. *)
Theorem GET_history_own_rows (tokenPayload : option string)
  (query_ok : bool) (d : Database) :
  let r := GET tokenPayload query_ok d in
  (History.status r = 200%Z <-> tokenPayload <> None /\ query_ok = true)
  /\ (tokenPayload = None -> r = History.failure 401 "Unauthorized")
  /\ (tokenPayload <> None -> query_ok = false ->
      r = History.failure 500 "Failed to fetch diagnoses")
  /\ (History.status r = 200%Z \/ History.status r = 401%Z
      \/ History.status r = 500%Z)
  /\ (History.status r <> 200%Z ->
      History.diagnoses r = None /\ History.success r = false)
  /\ (forall rows,
        History.diagnoses r = Some rows ->
        exists uid,
          tokenPayload = Some uid /\ History.status r = 200%Z
          /\ History.success r = true /\ History.error r = None
          /\ List.length rows <= 50
          /\ (forall row, row ∈ rows ->
                user_id row = uid
                /\ exists kept, kept ∈ Db.diagnoses d
                                /\ user_id kept = uid
                                /\ row = selected kept)
          /\ (exists older,
                map selected
                  (rev (List.filter (fun x => String.eqb (user_id x) uid)
                          (Db.diagnoses d))) = (rows ++ older)%list
                /\ (List.length older = 0 \/ List.length rows = 50))).
Proof.
  cbv zeta. unfold GET.
  destruct tokenPayload as [uid|]; [destruct query_ok|]; cbn.
  - split; [split; [intros _; split; [discriminate|reflexivity]|reflexivity]|].
    split; [discriminate|]. split; [discriminate|].
    split; [auto|]. split; [intros F; exfalso; apply F; reflexivity|].
    intros rows E. injection E as <-. exists uid.
    split; [reflexivity|]. split; [reflexivity|].
    split; [reflexivity|]. split; [reflexivity|].
    unfold select_diagnoses. rewrite length_map.
    split; [rewrite length_take; lia|]. split.
    + intros row Hr.
      apply list_elem_of_In, in_map_iff in Hr as (kept & <- & Hr).
      apply list_elem_of_In, subseteq_take in Hr.
      apply list_elem_of_In, in_rev, filter_In in Hr as [Hr He].
      apply String.eqb_eq in He. split; [exact He|].
      exists kept. rewrite list_elem_of_In. auto.
    + set (mine := rev (List.filter _ (Db.diagnoses d))).
      exists (map selected (drop 50 mine)).
      split; [now rewrite <- map_app, take_drop|].
      rewrite length_map, length_take, length_drop. lia.
  - split; [split; [discriminate|intros [_ F]; discriminate]|].
    split; [discriminate|]. split; [reflexivity|].
    split; [auto|]. split; [auto|]. discriminate.
  - split; [split; [discriminate|intros [F _]; congruence]|].
    split; [reflexivity|]. split; [congruence|].
    split; [auto|]. split; [auto|]. discriminate.
Qed.

End RouteEffects.

(** ** The payment webhook *)

Module WebhookFacts.
Import Route Webhook Sql.

Lemma add_user_credits_dom (uid : string) (n : Z) (us : gmap string Z) :
  dom (add_user_credits uid n us) = dom us.
Proof.
  unfold add_user_credits. destruct (us !! uid) eqn:E; [|reflexivity].
  apply dom_insert_lookup_L. eauto.
Qed.

Lemma add_user_credits_other (uid other : string) (n : Z)
  (us : gmap string Z) :
  other <> uid -> add_user_credits uid n us !! other = us !! other.
Proof.
  intros H. unfold add_user_credits. destruct (us !! uid); [|reflexivity].
  now apply lookup_insert_ne.
Qed.

Lemma add_user_credits_lookup (uid : string) (n b : Z)
  (us : gmap string Z) :
  us !! uid = Some b -> add_user_credits uid n us !! uid = Some (b + n)%Z.
Proof.
  intros H. unfold add_user_credits. rewrite H. apply lookup_insert_eq.
Qed.

(** An insert adds its row at the end, or nothing; it never changes
    [users]. *)
Lemma insert_payment_cases (w : World) (row : Payment) (l : Ledger) :
  (insert_payment w row l = l
   /\ (insert_ok w = false \/ users l !! user_id row = None
       \/ exists i, stripe_payment_intent_id row = Some i
                    /\ existsb (has_intent i) (payments l) = true))
  \/ (insert_payment w row l
      = {| users := users l; stripe_customer_id := stripe_customer_id l;
           payments := (payments l ++ [row])%list |}
      /\ insert_ok w = true /\ is_Some (users l !! user_id row)
      /\ forall i, stripe_payment_intent_id row = Some i ->
                   existsb (has_intent i) (payments l) = false).
Proof.
  unfold insert_payment. destruct (insert_ok w); cbn; [|left; auto].
  case_bool_decide as Hu; cbn.
  - destruct (stripe_payment_intent_id row) as [i|] eqn:Ei.
    + destruct (existsb (has_intent i) (payments l)) eqn:Ex; cbn.
      * left. split; [reflexivity|]. right. right. eauto.
      * right. repeat split; auto. intros j Hj. congruence.
    + right. repeat split; auto. discriminate.
  - left. split; [reflexivity|]. right. left.
    destruct (users l !! user_id row); [|reflexivity].
    exfalso. apply Hu. eauto.
Qed.

Lemma insert_payment_users (w : World) (row : Payment) (l : Ledger) :
  users (insert_payment w row l) = users l
  /\ stripe_customer_id (insert_payment w row l) = stripe_customer_id l.
Proof.
  destruct (insert_payment_cases w row l) as [[E _]|[E _]]; rewrite E; auto.
Qed.

Lemma update_customer_keeps (w : World) (uid cust : string) (l : Ledger) :
  users (update_customer w uid cust l) = users l
  /\ payments (update_customer w uid cust l) = payments l.
Proof.
  unfold update_customer. destruct (update_ok w); [|auto].
  destruct (users l !! uid); auto.
Qed.

Lemma requested_some (m : option Metadata) (uid : string) (n : Z) :
  requested m = Some (uid, n) ->
  not_str (metadata_userId m) || not_int (metadata_credits m) = false
  /\ default "" (metadata_userId m) = uid
  /\ int_value (metadata_credits m) = n
  /\ uid <> "" /\ n <> 0%Z.
Proof.
  unfold requested.
  destruct (not_str (metadata_userId m) || not_int (metadata_credits m))
    eqn:E; [discriminate|].
  intros H. injection H as <- <-. apply orb_false_elim in E as [E1 E2].
  repeat split.
  - destruct (metadata_userId m) as [s|]; cbn in *; [|discriminate].
    intros ->. discriminate.
  - destruct (metadata_credits m) as [|z]; cbn in *; [discriminate|].
    intros ->. discriminate.
Qed.

Lemma requested_none (m : option Metadata) :
  requested m = None ->
  not_str (metadata_userId m) || not_int (metadata_credits m) = true.
Proof.
  unfold requested.
  destruct (not_str (metadata_userId m) || not_int (metadata_credits m));
    [reflexivity|discriminate].
Qed.

(** What the checkout handler does for a request of [n] credits. *)
Lemma checkout_requested (w : World) (session : Session) (l : Ledger)
  (uid : string) (n : Z) :
  requested (session_metadata session) = Some (uid, n) ->
  handleCheckoutSessionCompleted w session l =
  if rpc_ok w then
    let l1 := {| users := add_user_credits uid n (users l);
                 stripe_customer_id := stripe_customer_id l;
                 payments := payments l |} in
    insert_payment w
      {| user_id := uid;
         stripe_payment_intent_id := payment_intent session;
         amount := default 0%Z (amount_total session);
         currency :=
           if not_str (session_currency session) then "usd"
           else default "" (session_currency session);
         status := "succeeded";
         credits_purchased := n;
         payment_method := Some "card" |}
      (if not_str (customer session) then l1
       else update_customer w uid (default "" (customer session)) l1)
  else l.
Proof.
  intros H. apply requested_some in H as (E & <- & <- & _).
  unfold handleCheckoutSessionCompleted, rpc_add_user_credits.
  rewrite E. destruct (rpc_ok w); reflexivity.
Qed.

(** What the payment-intent handler does for a request of [n] credits. *)
Lemma intent_requested (w : World) (paymentIntent : PaymentIntent)
  (l : Ledger) (uid : string) (n : Z) :
  requested (intent_metadata paymentIntent) = Some (uid, n) ->
  handlePaymentIntentSucceeded w paymentIntent l =
  match select_payment w (intent_id paymentIntent) l with
  | Some _ => l
  | None =>
      insert_payment w
        {| user_id := uid;
           stripe_payment_intent_id := Some (intent_id paymentIntent);
           amount := intent_amount paymentIntent;
           currency := intent_currency paymentIntent;
           status := "succeeded";
           credits_purchased := n;
           payment_method := head (payment_method_types paymentIntent) |}
        (if rpc_ok w then
           {| users := add_user_credits uid n (users l);
              stripe_customer_id := stripe_customer_id l;
              payments := payments l |}
         else l)
  end.
Proof.
  intros H. apply requested_some in H as (E & <- & <- & _).
  unfold handlePaymentIntentSucceeded, rpc_add_user_credits.
  rewrite E. destruct (rpc_ok w); reflexivity.
Qed.

Lemma dispatch_dom (w : World) (event : StripeEvent) (l : Ledger) :
  dom (users (dispatch w event l)) = dom (users l).
Proof.
  destruct event as [s|p|p|t]; cbn.
  - destruct (requested (session_metadata s)) as [[uid n]|] eqn:R.
    + rewrite (checkout_requested w s l uid n R).
      destruct (rpc_ok w); [|reflexivity]. cbv zeta.
      rewrite (proj1 (insert_payment_users _ _ _)).
      destruct (not_str (customer s)); cbn;
        rewrite ?(proj1 (update_customer_keeps _ _ _ _)); cbn;
        apply add_user_credits_dom.
    + unfold handleCheckoutSessionCompleted.
      now rewrite (requested_none _ R).
  - destruct (requested (intent_metadata p)) as [[uid n]|] eqn:R.
    + rewrite (intent_requested w p l uid n R).
      destruct (select_payment w (intent_id p) l); [reflexivity|].
      rewrite (proj1 (insert_payment_users _ _ _)).
      destruct (rpc_ok w); cbn; [apply add_user_credits_dom|reflexivity].
    + unfold handlePaymentIntentSucceeded.
      now rewrite (requested_none _ R).
  - unfold handlePaymentIntentFailed.
    destruct (not_str (metadata_userId (intent_metadata p))); [reflexivity|].
    now rewrite (proj1 (insert_payment_users _ _ _)).
  - reflexivity.
Qed.

(** X15: a delivery is acknowledged with 200 and [received] exactly
    when its body could be read, it carries a signature and the signature
    verifies, and the ledger is then what the event's handler leaves.  A
    delivery without a signature, or with an empty one, is answered 400
    with [Missing stripe-signature header]; one whose signature does not
    verify 400 with [Invalid signature]; one whose body cannot be read
    500 with [Webhook handler failed]; none of these changes the ledger.
    A verified delivery is acknowledged whatever its handler's database
    calls did.  No delivery creates or removes a user. *)
Theorem POST_acknowledges_verified_deliveries (w : World) (l : Ledger) :
  let code := (Webhook.POST w l).1.1 in
  let l' := (Webhook.POST w l).2 in
  (code = 200%Z <->
   exists body sig event,
     request_text w = Ok body /\ signature w = Some sig /\ sig <> ""
     /\ constructWebhookEvent w body sig = Ok event)
  /\ (code = 200%Z \/ code = 400%Z \/ code = 500%Z)
  /\ (code <> 200%Z -> l' = l)
  /\ ((signature w = None \/ signature w = Some "") ->
      (exists body, request_text w = Ok body) ->
      Webhook.POST w l = (400%Z, Error "Missing stripe-signature header", l))
  /\ dom (users l') = dom (users l)
  /\ (forall body sig e,
        request_text w = Ok body -> signature w = Some sig -> sig <> "" ->
        constructWebhookEvent w body sig = Throw e ->
        Webhook.POST w l = (400%Z, Error "Invalid signature", l))
  /\ (forall e,
        request_text w = Throw e ->
        Webhook.POST w l = (500%Z, Error "Webhook handler failed", l))
  /\ (forall body sig event,
        request_text w = Ok body -> signature w = Some sig -> sig <> "" ->
        constructWebhookEvent w body sig = Ok event ->
        Webhook.POST w l = (200%Z, Received, dispatch w event l)).
Proof.
  cbv zeta. unfold Webhook.POST.
  destruct (request_text w) as [body|e] eqn:Eb; cbn.
  2:{ split; [split; [discriminate|intros (? & ? & ? & ? & _); discriminate]|].
      split; [auto|]. split; [reflexivity|].
      split; [intros _ [? ?]; discriminate|].
      split; [reflexivity|]. split; [discriminate|].
      split; [reflexivity|]. discriminate. }
  destruct (signature w) as [sig|] eqn:Es; cbn.
  2:{ split; [split; [discriminate|intros (? & ? & ? & _ & ? & _); discriminate]|].
      split; [auto|]. split; [reflexivity|]. split; [reflexivity|].
      split; [reflexivity|]. split; [discriminate|].
      split; discriminate. }
  destruct (String.eqb sig "") eqn:Ee; cbn.
  { apply String.eqb_eq in Ee. subst sig.
    split; [split; [discriminate|]|].
    { intros (? & ? & ? & _ & H & F & _). congruence. }
    split; [auto|]. split; [reflexivity|]. split; [reflexivity|].
    split; [reflexivity|].
    split; [intros ? ? ? _ H F; congruence|].
    split; [discriminate|]. intros ? ? ? _ H F. congruence. }
  apply String.eqb_neq in Ee.
  destruct (constructWebhookEvent w body sig) as [event|e] eqn:Ec; cbn.
  - split; [split; [intros _; exists body, sig, event; auto|reflexivity]|].
    split; [auto|]. split; [congruence|].
    split; [intros [F|F]; congruence|].
    split; [apply dispatch_dom|].
    split; [intros b s e Hb Hs _ Hc; simplify_eq; congruence|].
    split; [discriminate|].
    intros b s ev Hb Hs _ Hc. simplify_eq.
    assert (ev = event) by congruence. now subst.
  - split; [split; [discriminate|]|].
    { intros (b & s & ev & Hb & Hs & _ & Hc).
      assert (b = body) by congruence. assert (s = sig) by congruence.
      subst. congruence. }
    split; [auto|]. split; [reflexivity|].
    split; [intros [F|F]; congruence|].
    split; [reflexivity|]. split; [reflexivity|].
    split; [discriminate|].
    intros b s ev Hb Hs _ Hc. simplify_eq. congruence.
Qed.


(** X16: the checkout handler does nothing unless the session's metadata
    names a user and a number of credits that is not zero.  Otherwise it
    adds exactly that number to that user when the credit call works, and
    changes nothing at all when it fails; it changes no other user's
    balance or customer id; and it records at most one payment, only
    after the credits were added, for that user, that amount and the
    session's payment intent. *)
Theorem checkout_adds_the_requested_credits (w : World) (session : Session)
  (l : Ledger) :
  let l' := handleCheckoutSessionCompleted w session l in
  match requested (session_metadata session) with
  | None => l' = l
  | Some (uid, n) =>
      users l' = (if rpc_ok w then add_user_credits uid n (users l)
                  else users l)
      /\ (forall b, rpc_ok w = true -> users l !! uid = Some b ->
            users l' !! uid = Some (b + n)%Z)
      /\ (forall other, other <> uid ->
            users l' !! other = users l !! other
            /\ stripe_customer_id l' !! other
               = stripe_customer_id l !! other)
      /\ (rpc_ok w = false -> l' = l)
      /\ (payments l' = payments l
          \/ exists row,
               payments l' = (payments l ++ [row])%list
               /\ user_id row = uid /\ credits_purchased row = n
               /\ status row = "succeeded"
               /\ stripe_payment_intent_id row = payment_intent session
               /\ rpc_ok w = true /\ is_Some (users l !! uid))
  end.
Proof.
  cbv zeta.
  destruct (requested (session_metadata session)) as [[uid n]|] eqn:R.
  2:{ unfold handleCheckoutSessionCompleted.
      now rewrite (requested_none _ R). }
  rewrite (checkout_requested w session l uid n R).
  destruct (rpc_ok w) eqn:Hrpc.
  2:{ split; [reflexivity|]. split; [discriminate|].
      split; [auto|]. split; [reflexivity|]. left. reflexivity. }
  cbv zeta.
  match goal with
  | |- context [insert_payment w ?row0 ?led] =>
      set (r := row0); set (l2 := led);
      pose proof (insert_payment_users w r l2) as [Eu Ec];
      pose proof (insert_payment_cases w r l2) as Hcases
  end.
  assert (Hu2 : users l2 = add_user_credits uid n (users l)).
  { subst l2. destruct (not_str (customer session)); cbn; [reflexivity|].
    now rewrite (proj1 (update_customer_keeps _ _ _ _)). }
  assert (Hp2 : payments l2 = payments l).
  { subst l2. destruct (not_str (customer session)); cbn; [reflexivity|].
    now rewrite (proj2 (update_customer_keeps _ _ _ _)). }
  assert (Hc2 : forall other, other <> uid ->
            stripe_customer_id l2 !! other = stripe_customer_id l !! other).
  { intros other Ho. subst l2.
    destruct (not_str (customer session)); cbn; [reflexivity|].
    unfold update_customer. destruct (update_ok w); [|reflexivity]. cbn.
    destruct (add_user_credits uid n (users l) !! uid); [|reflexivity].
    cbn. now apply lookup_insert_ne. }
  rewrite Eu, Ec, Hu2.
  split; [reflexivity|]. split.
  { intros b _ Hb. now apply add_user_credits_lookup. }
  split.
  { intros other Ho. split; [now apply add_user_credits_other|auto]. }
  split; [discriminate|].
  destruct Hcases as [[E _]|(E & _ & Hsome & _)]; rewrite E.
  - left. assumption.
  - right. exists r. cbn. rewrite Hp2.
    repeat split. rewrite Hu2 in Hsome. cbn in Hsome.
    destruct Hsome as [x Hx]. unfold add_user_credits in Hx.
    destruct (users l !! uid) eqn:El; [eauto|].
    rewrite El in Hx. discriminate.
Qed.

Lemma filter_none {A} (p : A -> bool) (l : list A) :
  existsb p l = false -> List.filter p l = [].
Proof.
  induction l as [|x l IH]; cbn; [reflexivity|].
  destruct (p x); cbn; [discriminate|exact IH].
Qed.

Lemma filter_last {A} (p : A -> bool) (l : list A) (x : A) :
  List.filter p (l ++ [x]) = (List.filter p l ++ if p x then [x] else [])%list.
Proof.
  induction l as [|y l IH]; cbn; [destruct (p x); reflexivity|].
  rewrite IH. destruct (p y); reflexivity.
Qed.

Lemma select_payment_unseen (w : World) (i : string) (l : Ledger) :
  existsb (has_intent i) (payments l) = false ->
  select_payment w i l = None.
Proof.
  intros H. unfold select_payment. rewrite (filter_none _ _ H).
  destruct (select_ok w); reflexivity.
Qed.

(** The ledger after a checkout that was credited and recorded. *)
Lemma checkout_recorded (w : World) (session : Session) (l : Ledger)
  (uid i : string) (n b : Z) :
  requested (session_metadata session) = Some (uid, n) ->
  payment_intent session = Some i ->
  users l !! uid = Some b ->
  existsb (has_intent i) (payments l) = false ->
  rpc_ok w = true -> insert_ok w = true ->
  exists row,
    payments (handleCheckoutSessionCompleted w session l)
    = (payments l ++ [row])%list
    /\ has_intent i row = true
    /\ users (handleCheckoutSessionCompleted w session l)
       = <[uid := (b + n)%Z]> (users l).
Proof.
  intros R Hi Hb Hnew Hrpc Hins.
  rewrite (checkout_requested w session l uid n R), Hrpc. cbv zeta.
  match goal with
  | |- context [insert_payment w ?row0 ?led] =>
      set (r := row0); set (l2 := led)
  end.
  assert (Hu2 : users l2 = <[uid := (b + n)%Z]> (users l)).
  { subst l2. unfold add_user_credits. rewrite Hb.
    destruct (not_str (customer session)); cbn; [reflexivity|].
    now rewrite (proj1 (update_customer_keeps _ _ _ _)). }
  assert (Hp2 : payments l2 = payments l).
  { subst l2. destruct (not_str (customer session)); cbn; [reflexivity|].
    now rewrite (proj2 (update_customer_keeps _ _ _ _)). }
  destruct (insert_payment_cases w r l2) as [[_ F]|(E & _)].
  - exfalso. destruct F as [F|[F|(j & Hj & F)]].
    + congruence.
    + rewrite Hu2 in F. cbn in F. rewrite lookup_insert_eq in F.
      discriminate.
    + cbn in Hj. rewrite Hi in Hj. injection Hj as <-.
      rewrite Hp2 in F. congruence.
  - rewrite E. cbn. exists r. rewrite Hp2, Hu2.
    split; [reflexivity|]. split; [|reflexivity].
    unfold has_intent. cbn. rewrite Hi. apply String.eqb_refl.
Qed.

(** X17: once a checkout has been credited and recorded, the
    payment-intent event of the same payment adds nothing: the handler
    finds the recorded payment and leaves the ledger as it is.  This
    rests on the lookup: when the lookup fails, the credits are added a
    second time, while the second record is refused as a duplicate. *)
Theorem intent_after_checkout_adds_nothing (w1 w2 : World)
  (session : Session) (paymentIntent : PaymentIntent) (l : Ledger)
  (uid i : string) (n b : Z) :
  requested (session_metadata session) = Some (uid, n) ->
  payment_intent session = Some i -> intent_id paymentIntent = i ->
  users l !! uid = Some b ->
  existsb (has_intent i) (payments l) = false ->
  rpc_ok w1 = true -> insert_ok w1 = true ->
  let l1 := handleCheckoutSessionCompleted w1 session l in
  users l1 !! uid = Some (b + n)%Z
  /\ (select_ok w2 = true ->
      handlePaymentIntentSucceeded w2 paymentIntent l1 = l1)
  /\ (select_ok w2 = false -> rpc_ok w2 = true ->
      forall m, requested (intent_metadata paymentIntent) = Some (uid, m) ->
        users (handlePaymentIntentSucceeded w2 paymentIntent l1) !! uid
        = Some (b + n + m)%Z
        /\ payments (handlePaymentIntentSucceeded w2 paymentIntent l1)
           = payments l1).
Proof.
  intros R Hi Hid Hb Hnew Hrpc Hins. cbv zeta.
  destruct (checkout_recorded w1 session l uid i n b R Hi Hb Hnew Hrpc Hins)
    as (row & Ep & Hrow & Eu).
  set (l1 := handleCheckoutSessionCompleted w1 session l) in *.
  split; [rewrite Eu; apply lookup_insert_eq|]. split.
  - intros Hsel.
    destruct (requested (intent_metadata paymentIntent)) as [[u m]|] eqn:R2.
    + rewrite (intent_requested w2 paymentIntent l1 u m R2).
      unfold select_payment. rewrite Hsel, Hid, Ep, filter_last, Hrow.
      now rewrite (filter_none _ _ Hnew).
    + unfold handlePaymentIntentSucceeded.
      now rewrite (requested_none _ R2).
  - intros Hsel Hrpc2 m R2.
    rewrite (intent_requested w2 paymentIntent l1 uid m R2).
    unfold select_payment. rewrite Hsel, Hrpc2.
    match goal with
    | |- context [insert_payment w2 ?row0 ?led] =>
        set (r := row0); set (l2 := led);
        pose proof (insert_payment_users w2 r l2) as [Eu2 _];
        pose proof (insert_payment_cases w2 r l2) as Hcases
    end.
    split.
    + rewrite Eu2. subst l2. cbn. rewrite Eu.
      apply add_user_credits_lookup, lookup_insert_eq.
    + destruct Hcases as [[E _]|(_ & _ & _ & F)].
      * rewrite E. reflexivity.
      * exfalso. specialize (F i). subst l2 r. cbn in F.
        rewrite Hid in F. specialize (F eq_refl).
        rewrite Ep, existsb_app in F. cbn in F. rewrite Hrow in F.
        rewrite orb_true_r in F. discriminate.
Qed.

Lemma intent_after_checkout_adds_nothing_witness :
  let l1 := handleCheckoutSessionCompleted
              (WebhookExamples.delivery
                 (checkout_session_completed WebhookExamples.triple_session))
              WebhookExamples.triple_session WebhookExamples.two_credits in
  users l1 !! "u1" = Some 5%Z
  /\ handlePaymentIntentSucceeded
       (WebhookExamples.delivery
          (payment_intent_succeeded WebhookExamples.triple_intent))
       WebhookExamples.triple_intent l1 = l1.
Proof.
  pose proof (intent_after_checkout_adds_nothing
                (WebhookExamples.delivery
                   (checkout_session_completed WebhookExamples.triple_session))
                (WebhookExamples.delivery
                   (payment_intent_succeeded WebhookExamples.triple_intent))
                WebhookExamples.triple_session WebhookExamples.triple_intent
                WebhookExamples.two_credits "u1" "pi_1" 3 2
                eq_refl eq_refl eq_refl eq_refl eq_refl eq_refl eq_refl)
    as (H1 & H2 & _).
  split; [exact H1|exact (H2 eq_refl)].
Defined.

(** X18: in the other order the purchase is credited twice.  When the
    payment-intent event is handled first and the checkout event of the
    same payment afterwards, both add their credits, because the checkout
    handler does not look for a recorded payment; the payment is recorded
    once, the second record being refused as a duplicate. *)
Theorem checkout_after_intent_adds_twice (w1 w2 : World)
  (session : Session) (paymentIntent : PaymentIntent) (l : Ledger)
  (uid i : string) (n m b : Z) :
  requested (intent_metadata paymentIntent) = Some (uid, n) ->
  requested (session_metadata session) = Some (uid, m) ->
  payment_intent session = Some i -> intent_id paymentIntent = i ->
  users l !! uid = Some b ->
  existsb (has_intent i) (payments l) = false ->
  rpc_ok w1 = true -> insert_ok w1 = true -> rpc_ok w2 = true ->
  let l1 := handlePaymentIntentSucceeded w1 paymentIntent l in
  let l2 := handleCheckoutSessionCompleted w2 session l1 in
  users l1 !! uid = Some (b + n)%Z
  /\ users l2 !! uid = Some (b + n + m)%Z
  /\ payments l2 = payments l1
  /\ exists row, payments l1 = (payments l ++ [row])%list
                 /\ credits_purchased row = n.
Proof.
  intros R1 R2 Hi Hid Hb Hnew Hrpc1 Hins1 Hrpc2. cbv zeta.
  assert (H1 : exists row,
             handlePaymentIntentSucceeded w1 paymentIntent l
             = {| users := <[uid := (b + n)%Z]> (users l);
                  stripe_customer_id := stripe_customer_id l;
                  payments := (payments l ++ [row])%list |}
             /\ has_intent i row = true /\ credits_purchased row = n).
  { rewrite (intent_requested w1 paymentIntent l uid n R1).
    rewrite Hid, (select_payment_unseen w1 i l Hnew), Hrpc1.
    match goal with
    | |- context [insert_payment w1 ?row0 ?led] =>
        set (r := row0); set (l2 := led);
        destruct (insert_payment_cases w1 r l2) as [[_ F]|(E & _)]
    end.
    - exfalso. destruct F as [F|[F|(j & Hj & F)]].
      + congruence.
      + subst l2 r. cbn in F. unfold add_user_credits in F.
        rewrite Hb, lookup_insert_eq in F. discriminate.
      + subst l2 r. cbn in Hj, F. injection Hj as <-. congruence.
    - exists r. rewrite E. subst l2 r. cbn. unfold add_user_credits.
      rewrite Hb. split; [reflexivity|]. split; [|reflexivity].
      unfold has_intent. cbn. apply String.eqb_refl. }
  destruct H1 as (row & E1 & Hrow & Hn). rewrite E1. cbn [users payments].
  split; [apply lookup_insert_eq|].
  rewrite (checkout_requested w2 session _ uid m R2), Hrpc2. cbv zeta.
  match goal with
  | |- context [insert_payment w2 ?row0 ?led] =>
      set (r := row0); set (l2 := led);
      pose proof (insert_payment_users w2 r l2) as [Eu2 _];
      pose proof (insert_payment_cases w2 r l2) as Hcases
  end.
  assert (Hu2 : users l2
                = add_user_credits uid m (<[uid := (b + n)%Z]> (users l))).
  { subst l2. destruct (not_str (customer session)); cbn; [reflexivity|].
    now rewrite (proj1 (update_customer_keeps _ _ _ _)). }
  assert (Hp2 : payments l2 = (payments l ++ [row])%list).
  { subst l2. destruct (not_str (customer session)); cbn; [reflexivity|].
    now rewrite (proj2 (update_customer_keeps _ _ _ _)). }
  split.
  { rewrite Eu2, Hu2. apply add_user_credits_lookup, lookup_insert_eq. }
  split; [|eauto].
  destruct Hcases as [[E _]|(_ & _ & _ & F)].
  - rewrite E. exact Hp2.
  - exfalso. specialize (F i). subst r. cbn in F. specialize (F Hi).
    rewrite Hp2, existsb_app in F. cbn in F. rewrite Hrow in F.
    rewrite orb_true_r in F. discriminate.
Qed.

Lemma checkout_after_intent_adds_twice_witness :
  let l1 := handlePaymentIntentSucceeded
              (WebhookExamples.delivery
                 (payment_intent_succeeded WebhookExamples.triple_intent))
              WebhookExamples.triple_intent WebhookExamples.two_credits in
  let l2 := handleCheckoutSessionCompleted
              (WebhookExamples.delivery
                 (checkout_session_completed WebhookExamples.triple_session))
              WebhookExamples.triple_session l1 in
  users l1 !! "u1" = Some 5%Z /\ users l2 !! "u1" = Some 8%Z.
Proof.
  pose proof (checkout_after_intent_adds_twice
                (WebhookExamples.delivery
                   (payment_intent_succeeded WebhookExamples.triple_intent))
                (WebhookExamples.delivery
                   (checkout_session_completed WebhookExamples.triple_session))
                WebhookExamples.triple_session WebhookExamples.triple_intent
                WebhookExamples.two_credits "u1" "pi_1" 3 3 2
                eq_refl eq_refl eq_refl eq_refl eq_refl eq_refl eq_refl
                eq_refl eq_refl)
    as (H1 & H2 & _).
  split; [exact H1|exact H2].
Defined.

(** X19: a failed payment and an event of a type the route does not
    handle never change a balance or a customer id.  A failed payment
    records at most one row, marked failed with no credits purchased, and
    nothing when its metadata names no user; an unhandled event changes
    nothing. *)
Theorem failed_and_unhandled_events_add_no_credits (w : World) (l : Ledger) :
  (forall paymentIntent,
     let l' := dispatch w (payment_intent_payment_failed paymentIntent) l in
     users l' = users l
     /\ stripe_customer_id l' = stripe_customer_id l
     /\ (payments l' = payments l
         \/ exists row,
              payments l' = (payments l ++ [row])%list
              /\ status row = "failed" /\ credits_purchased row = 0%Z
              /\ Some (user_id row)
                 = metadata_userId (intent_metadata paymentIntent))
     /\ (not_str (metadata_userId (intent_metadata paymentIntent)) = true ->
         l' = l))
  /\ (forall type, dispatch w (unhandled type) l = l).
Proof.
  split; [|reflexivity]. intros p. cbv zeta. cbn.
  unfold handlePaymentIntentFailed.
  destruct (not_str (metadata_userId (intent_metadata p))) eqn:E.
  { repeat split; auto. }
  match goal with
  | |- context [insert_payment w ?row l] =>
      set (r := row);
      pose proof (insert_payment_users w r l) as [Eu Ec];
      pose proof (insert_payment_cases w r l) as Hcases
  end.
  split; [exact Eu|]. split; [exact Ec|]. split; [|discriminate].
  destruct Hcases as [[E1 _]|(E1 & _)]; rewrite E1; [left; reflexivity|].
  right. exists r. cbn. repeat split.
  destruct (metadata_userId (intent_metadata p)); [reflexivity|discriminate].
Qed.

(** X20: the payment-intent handler does not look at the outcome of the
    credit call.  For a payment not yet recorded, of an existing user,
    whose insert works, it records the payment as succeeded with the
    requested credits whether or not the credits were added: when the
    credit call fails the balance stays as it was and the payment is
    recorded all the same. *)
Theorem intent_records_payment_without_credits (w : World)
  (paymentIntent : PaymentIntent) (l : Ledger) (uid : string) (n b : Z) :
  requested (intent_metadata paymentIntent) = Some (uid, n) ->
  users l !! uid = Some b ->
  existsb (has_intent (intent_id paymentIntent)) (payments l) = false ->
  insert_ok w = true ->
  let l' := handlePaymentIntentSucceeded w paymentIntent l in
  users l' !! uid = Some (if rpc_ok w then b + n else b)%Z
  /\ exists row,
       payments l' = (payments l ++ [row])%list
       /\ user_id row = uid /\ status row = "succeeded"
       /\ credits_purchased row = n
       /\ stripe_payment_intent_id row = Some (intent_id paymentIntent).
Proof.
  intros R Hb Hnew Hins. cbv zeta.
  rewrite (intent_requested w paymentIntent l uid n R).
  rewrite (select_payment_unseen w _ l Hnew).
  match goal with
  | |- context [insert_payment w ?row0 ?led] =>
      set (r := row0); set (l2 := led);
      pose proof (insert_payment_users w r l2) as [Eu _];
      destruct (insert_payment_cases w r l2) as [[_ F]|(E & _)]
  end.
  - exfalso. destruct F as [F|[F|(j & Hj & F)]].
    + congruence.
    + subst l2 r. cbn in F. destruct (rpc_ok w); cbn in F.
      * unfold add_user_credits in F. rewrite Hb, lookup_insert_eq in F.
        discriminate.
      * congruence.
    + subst l2 r. cbn in Hj, F. injection Hj as <-.
      destruct (rpc_ok w); cbn in F; congruence.
  - split.
    + rewrite Eu. subst l2. destruct (rpc_ok w); cbn; [|assumption].
      now apply add_user_credits_lookup.
    + exists r. rewrite E. subst l2. cbn.
      destruct (rpc_ok w); repeat split.
Qed.

Lemma intent_records_payment_without_credits_witness :
  let w := {| request_text := Ok "payload"; signature := Some "t=1,v1=abc";
              constructWebhookEvent :=
                fun _ _ => Ok (payment_intent_succeeded
                                 WebhookExamples.triple_intent);
              rpc_ok := false; update_ok := true; select_ok := true;
              insert_ok := true |} in
  let l' := handlePaymentIntentSucceeded w WebhookExamples.triple_intent
              WebhookExamples.two_credits in
  users l' !! "u1" = Some 2%Z
  /\ exists row,
       payments l' = (payments WebhookExamples.two_credits ++ [row])%list
       /\ user_id row = "u1" /\ status row = "succeeded"
       /\ credits_purchased row = 3%Z
       /\ stripe_payment_intent_id row = Some "pi_1".
Proof.
  exact (intent_records_payment_without_credits
           {| request_text := Ok "payload"; signature := Some "t=1,v1=abc";
              constructWebhookEvent :=
                fun _ _ => Ok (payment_intent_succeeded
                                 WebhookExamples.triple_intent);
              rpc_ok := false; update_ok := true; select_ok := true;
              insert_ok := true |}
           WebhookExamples.triple_intent WebhookExamples.two_credits
           "u1" 3 2 eq_refl eq_refl eq_refl eq_refl).
Defined.

End WebhookFacts.

(** ** The Express server's analysis route *)

Module ServerFacts.
Import Prototype Server PrototypeFacts.

Section WithParser.

Variable JSON_parse : string -> option json.

(** The route reads the message as the prototype reads the parsed body
    of the reply: where the route gets no report, the prototype's [try]
    block returns none. *)
Lemma parse_reply_fails_try_block (body : string) (message : json) :
  JSON_parse body = Some message ->
  (forall v, parse_reply JSON_parse message <> Ok v) ->
  forall v, try_block JSON_parse (FetchResolves body) <> Ok (Some v).
Proof.
  intros Hb Hf v. unfold try_block, await_fetch, parse_or_throw.
  unfold_result. rewrite Hb. specialize (Hf v).
  unfold parse_reply, parse_or_throw in Hf. unfold_result.
  destruct (get_prop message "content") as [content|]; [|discriminate].
  destruct (array_find content is_text_item) as [found|]; [|discriminate].
  destruct (text_or_empty found) as [resultText|]; [|discriminate].
  destruct (string_match resultText) as [[m|]|]; try discriminate.
  destruct (JSON_parse m) as [x|]; [|discriminate].
  congruence.
Qed.

Variable w : World.

(** The outcomes of [analyze] once the request is complete and the user
    has a credit. *)
Lemma analyze_cases (user : User) (body : AnalyzeBody) (s : Store) :
  incomplete body = false -> (0 < diagnosisCredits user)%Z ->
  (exists e, analyze JSON_parse w user body s = (failed e, s)
             /\ (messages_create w = CreateRejects e
                 \/ (exists message,
                       messages_create w = CreateResolves message
                       /\ (parse_reply JSON_parse message = Throw e
                           \/ exists r, parse_reply JSON_parse message = Ok r
                                        /\ project r = Throw e))
                 \/ save_error w = Some e))
  \/ (exists message r part doc,
        messages_create w = CreateResolves message
        /\ parse_reply JSON_parse message = Ok r
        /\ project r = Ok part
        /\ save_error w = None
        /\ doc = {| userId := _id user;
                    vehicle := (default "" (year body),
                                default "" (make body),
                                default "" (model body));
                    symptoms_text := default "" (symptomText body);
                    diagnosis := part |}
        /\ ((exists e, update_error w = Some e
                       /\ analyze JSON_parse w user body s
                          = (failed e,
                             {| users := users s;
                                diagnoses := (diagnoses s ++ [doc])%list |}))
            \/ (update_error w = None
                /\ analyze JSON_parse w user body s
                   = ({| status := 200; error := None; details := None;
                         reply_diagnosis := Some r;
                         creditsRemaining :=
                           Some (diagnosisCredits user - 1)%Z |},
                      {| users := inc_credits (_id user) (-1) (users s);
                         diagnoses := (diagnoses s ++ [doc])%list |})))).
Proof.
  intros Hi Hc. unfold analyze. rewrite Hi.
  replace (diagnosisCredits user <=? 0)%Z with false
    by (symmetry; apply Z.leb_gt; lia).
  destruct (messages_create w) as [e|message] eqn:Em.
  { left. exists e. auto. }
  unfold_result.
  destruct (parse_reply JSON_parse message) as [r|e] eqn:Ep.
  2:{ left. exists e. split; [reflexivity|]. right. left. eauto. }
  destruct (project r) as [part|e] eqn:Ej.
  2:{ left. exists e. split; [reflexivity|]. right. left. eauto 10. }
  destruct (save_error w) as [e|] eqn:Es.
  { left. exists e. auto. }
  right. exists message, r, part. eexists.
  split; [reflexivity|]. split; [assumption|]. split; [assumption|].
  split; [reflexivity|]. split; [reflexivity|].
  destruct (update_error w) as [e|]; [left|right]; eauto.
Qed.

End WithParser.


(** X22: where the prototype substitutes its fallback report, the server
    fails.  For a reply from which no report can be parsed (no text
    item, no match, or a match that is not JSON), the route answers 500,
    saves nothing and takes no credit, while [performAIDiagnosis] run on
    the same reply returns the fallback report. *)
Theorem analyze_fails_where_prototype_falls_back
  (JSON_parse : string -> option json) (w : World) (user : User)
  (body : AnalyzeBody) (s : Store) (reply : string) (message : json)
  (vd : VehicleData) :
  incomplete body = false -> (0 < diagnosisCredits user)%Z ->
  messages_create w = CreateResolves message ->
  JSON_parse reply = Some message ->
  (forall r, parse_reply JSON_parse message <> Ok r) ->
  status (analyze JSON_parse w user body s).1 = 500%Z
  /\ (analyze JSON_parse w user body s).2 = s
  /\ performAIDiagnosis JSON_parse vd (FetchResolves reply)
     = Ok (getFallbackDiagnosis vd).
Proof.
  intros Hi Hc Em Hr Hf.
  pose proof (parse_reply_fails_try_block JSON_parse reply message Hr Hf)
    as Ht.
  split; [|split].
  - destruct (analyze_cases JSON_parse w user body s Hi Hc)
      as [(e & E & _)|(m & r & _ & _ & Em' & Ep & _)].
    + rewrite E. reflexivity.
    + rewrite Em in Em'. injection Em' as <-. exfalso. exact (Hf r Ep).
  - unfold analyze. rewrite Hi, Em.
    replace (diagnosisCredits user <=? 0)%Z with false
      by (symmetry; apply Z.leb_gt; lia).
    unfold_result.
    destruct (parse_reply JSON_parse message) as [r|e] eqn:Ep;
      [exfalso; exact (Hf r eq_refl)|reflexivity].
  - rewrite performAIDiagnosis_cases.
    destruct (try_block JSON_parse (FetchResolves reply)) as [[v|]|e] eqn:Et;
      [exfalso; exact (Ht v eq_refl)|reflexivity|reflexivity].
Qed.

Lemma analyze_fails_where_prototype_falls_back_witness :
  let w := {| messages_create :=
                CreateResolves (reply_with_text "I cannot tell.");
              save_error := None; update_error := None |} in
  let user := {| _id := "u1"; diagnosisCredits := 2 |} in
  let body := {| year := Some "2015"; make := Some "Honda";
                 model := Some "Civic";
                 symptomText := Some "grinding noise" |} in
  let s := {| users := {[ "u1" := 2%Z ]}; diagnoses := [] |} in
  status (analyze JsonParse.JSON_parse w user body s).1 = 500%Z
  /\ (analyze JsonParse.JSON_parse w user body s).2 = s
  /\ performAIDiagnosis JsonParse.JSON_parse Examples.civic
       (FetchResolves (Examples.body_of "I cannot tell."))
     = Ok (getFallbackDiagnosis Examples.civic).
Proof.
  apply (analyze_fails_where_prototype_falls_back JsonParse.JSON_parse
           {| messages_create :=
                CreateResolves (reply_with_text "I cannot tell.");
              save_error := None; update_error := None |}
           {| _id := "u1"; diagnosisCredits := 2 |}
           {| year := Some "2015"; make := Some "Honda";
              model := Some "Civic";
              symptomText := Some "grinding noise" |}
           {| users := {[ "u1" := 2%Z ]}; diagnoses := [] |}
           (Examples.body_of "I cannot tell.")
           (reply_with_text "I cannot tell.")
           Examples.civic);
    [reflexivity|cbn; lia|reflexivity|vm_compute; reflexivity|].
  intros r. vm_compute. discriminate.
Defined.

(** C2, counterexample: a symptom text of three spaces is empty after
    trimming, yet no code under the sources rejects it.  The Express
    route, whose whole path from the request to the generation call is
    among the sources, tests [!symptomText] only: for this text it never
    answers 400, whatever the collaborators do; it makes the generation
    call, answers 200 with the report of the reply and takes the credit,
    and when the call is rejected it answers 500 after the call.  The
    route handler of [POST /api/diagnose] likewise goes on to call the
    engine with that text, whatever the engine then answers. *)
Lemma analyze_accepts_blank_symptom :
  Text.trim "   " = ""
  /\ (let user := {| _id := "u1"; diagnosisCredits := 2 |} in
      let body := {| year := Some "2015"; make := Some "Honda";
                     model := Some "Civic"; symptomText := Some "   " |} in
      let s := {| users := {[ "u1" := 2%Z ]}; diagnoses := [] |} in
      (forall w, status (analyze JsonParse.JSON_parse w user body s).1
                 <> 400%Z)
      /\ (let w := {| messages_create :=
                        CreateResolves (reply_with_text Examples.citing_reply);
                      save_error := None; update_error := None |} in
          status (analyze JsonParse.JSON_parse w user body s).1 = 200%Z
          /\ reply_diagnosis (analyze JsonParse.JSON_parse w user body s).1
             = Some Examples.citing_report
          /\ users (analyze JsonParse.JSON_parse w user body s).2 !! "u1"
             = Some 1%Z)
      /\ (let w := {| messages_create := CreateRejects "overloaded";
                      save_error := None; update_error := None |} in
          analyze JsonParse.JSON_parse w user body s
          = (failed "overloaded", s)))
  /\ (forall engine,
        let out := Route.POST (Examples.world_with (Some "   ") engine true)
                     Examples.two_credits in
        existsb Route.is_diagnose out.2 = true
        /\ Route.status out.1.1 <> 400%Z).
Proof.
  split; [reflexivity|]. split.
  - cbv zeta. split; [|split].
    + intros w.
      match goal with
      | |- status (analyze _ w ?u ?b ?s).1 <> _ =>
          destruct (analyze_cases JsonParse.JSON_parse w u b s eq_refl
                      ltac:(cbn; lia))
            as [(e & E & _)|(? & ? & ? & ? & _ & _ & _ & _ & _ & H)]
      end.
      * rewrite E. discriminate.
      * destruct H as [(e & _ & E)|(_ & E)]; rewrite E; discriminate.
    + vm_compute. auto.
    + reflexivity.
  - intros [diag|e]; vm_compute; split; (reflexivity || discriminate).
Qed.

End ServerFacts.

(** ** Accounts *)

Module AuthFacts.
Import Auth.

Ltac unfold_result :=
  unfold mbind, result_bind, rbind, mret, result_ret, try_catch in *.

Lemma NoDup_snoc {A} (l : list A) (x : A) :
  List.NoDup l -> ~ In x l -> List.NoDup (l ++ [x]).
Proof.
  induction l as [|y l IH]; cbn; intros Hd Hx.
  - constructor; [intros []|constructor].
  - inversion Hd as [|? ? Hy Hl]; subst. constructor.
    + rewrite in_app_iff. cbn. intros [H|[H|[]]]; [auto|].
      apply Hx. left. congruence.
    + apply IH; [assumption|]. intros H. apply Hx. right. assumption.
Qed.

Section WithLibrary.

Variable lib : Library.

Lemma select_by_email_elem (w : World) (e : string)
  (accounts : list Account) (a : Account) :
  select_by_email w e accounts = Some a -> a ∈ accounts /\ email a = e.
Proof.
  unfold select_by_email. destruct (select_ok w); [|discriminate].
  destruct (List.filter _ accounts) as [|x [|y r]] eqn:E; try discriminate.
  intros H. injection H as <-.
  assert (Hin : In x (List.filter (fun a => String.eqb (email a) e) accounts))
    by (rewrite E; left; reflexivity).
  apply filter_In in Hin as [Hin He]. apply String.eqb_eq in He.
  rewrite list_elem_of_In. auto.
Qed.

(** A row to insert comes from a body with a string email that passed
    both validations, and whose lower-cased email the lookup did not
    find. *)
Lemma register_checks_row (w : World) (accounts : list Account)
  (row : Account) :
  register_checks lib w accounts = Ok (inr row) ->
  exists body em pw,
    request_json w = Ok body
    /\ get_prop body "email" = Ok (Some (JStr em))
    /\ get_prop body "password" = Ok (Some pw)
    /\ truthy (Some pw) = true
    /\ isValidEmail lib (JStr em) = Ok true
    /\ hashPassword lib pw = Ok (password_hash row)
    /\ select_by_email w (toLowerCase lib em) accounts = None
    /\ email row = toLowerCase lib em /\ id row = new_id w
    /\ credits row = 0%Z.
Proof.
  unfold register_checks. unfold_result.
  destruct (request_json w) as [body|]; [|discriminate].
  destruct (get_prop body "email") as [em|] eqn:Gem; [|discriminate].
  destruct (get_prop body "password") as [pw|] eqn:Gpw; [|discriminate].
  destruct (get_prop body "name") as [nm|]; [|discriminate].
  destruct (get_prop body "phone") as [ph|]; [|discriminate].
  destruct (truthy em) eqn:Tem; cbn; [|discriminate].
  destruct (truthy pw) eqn:Tpw; cbn; [|discriminate].
  destruct em as [em|]; [|discriminate].
  destruct pw as [pw|]; [|discriminate]. cbn.
  destruct (isValidEmail lib em) as [[|]|] eqn:Ev; cbn; try discriminate.
  destruct (isValidPassword lib pw) as [[[|] msg]|]; cbn; try discriminate.
  destruct em as [| | |s| |]; cbn; try discriminate.
  destruct (select_by_email w (toLowerCase lib s) accounts) eqn:Es;
    [discriminate|].
  destruct (hashPassword lib pw) as [h|] eqn:Eh; [|discriminate].
  intros H. injection H as <-. cbn.
  exists body, s, pw. repeat split; auto.
Qed.

Lemma insert_account_cases (w : World) (row : Account)
  (accounts : list Account) :
  insert_account w row accounts = (None, accounts)
  \/ (insert_account w row accounts = (Some row, (accounts ++ [row])%list)
      /\ forall a, a ∈ accounts -> email a <> email row).
Proof.
  unfold insert_account. destruct (insert_ok w); cbn; [|auto].
  destruct (existsb _ accounts) eqn:E; cbn; [auto|].
  right. split; [reflexivity|]. intros a Ha He.
  assert (existsb (fun a => String.eqb (email a) (email row)) accounts = true).
  { apply existsb_exists. exists a. rewrite <- list_elem_of_In.
    split; [assumption|]. now apply String.eqb_eq. }
  congruence.
Qed.

(** The outcomes of [register]. *)
Lemma register_cases (w : World) (accounts : list Account) :
  ((register lib w accounts).2 = accounts
   /\ status (register lib w accounts).1 <> 201%Z)
  \/ exists row,
       register_checks lib w accounts = Ok (inr row)
       /\ (register lib w accounts).2 = (accounts ++ [row])%list
       /\ (forall a, a ∈ accounts -> email a <> email row)
       /\ ((exists t u,
              generateToken lib row = Ok t /\ sanitizeUser lib row = Ok u
              /\ (register lib w accounts).1 = granted 201 t u)
           \/ status (register lib w accounts).1 = 500%Z).
Proof.
  unfold register.
  destruct (register_checks lib w accounts) as [[r|row]|e] eqn:E.
  - left. split; [reflexivity|]. cbn. revert E.
    unfold register_checks. unfold_result.
    repeat match goal with
           | |- context [match ?x with _ => _ end] =>
               destruct x; cbn; try discriminate
           end;
      intros H; injection H as <-; cbn; discriminate.
  - destruct (insert_account_cases w row accounts) as [Ei|[Ei Hn]];
      rewrite Ei.
    + left. split; [reflexivity|]. cbn. discriminate.
    + right. exists row. split; [reflexivity|]. unfold_result.
      destruct (generateToken lib row) as [t|]; cbn.
      * destruct (sanitizeUser lib row) as [u|]; cbn.
        -- split; [reflexivity|]. split; [assumption|]. left. eauto.
        -- split; [reflexivity|]. split; [assumption|]. right. reflexivity.
      * split; [reflexivity|]. split; [assumption|]. right. reflexivity.
  - left. split; [reflexivity|]. cbn. discriminate.
Qed.

(** X23: registration adds at most one account and never changes an
    existing one.  An account is added only for a body whose email is a
    string that passed the validation and whose lower-cased form the
    lookup did not find; the account holds that lower-cased email, the
    hash of the password, the id the database gave and no credits, and no
    earlier account has its email, so emails stay distinct.  A response
    of 201 always comes with such an account and carries its token. *)
Theorem register_adds_one_account_without_credits (w : World)
  (accounts : list Account) :
  let out := register lib w accounts in
  (out.2 = accounts
   \/ exists row body em pw,
        out.2 = (accounts ++ [row])%list
        /\ request_json w = Ok body
        /\ get_prop body "email" = Ok (Some (JStr em))
        /\ get_prop body "password" = Ok (Some pw)
        /\ isValidEmail lib (JStr em) = Ok true
        /\ email row = toLowerCase lib em
        /\ hashPassword lib pw = Ok (password_hash row)
        /\ id row = new_id w /\ credits row = 0%Z
        /\ forall a, a ∈ accounts -> email a <> email row)
  /\ (status out.1 = 201%Z ->
      exists row t,
        out.2 = (accounts ++ [row])%list
        /\ generateToken lib row = Ok t /\ token out.1 = Some t
        /\ success out.1 = true)
  /\ (List.NoDup (map email accounts) -> List.NoDup (map email out.2)).
Proof.
  cbv zeta.
  destruct (register_cases w accounts)
    as [[E Hs]|(row & Ec & E & Hn & Hr)].
  - rewrite E. split; [auto|]. split; [intros F; contradiction|auto].
  - destruct (register_checks_row w accounts row Ec)
      as (body & em & pw & Hb & Hem & Hpw & _ & Hv & Hh & _ & Hl & Hid & Hcr).
    split; [|split].
    + right. exists row, body, em, pw. rewrite E. repeat split; auto.
    + intros Hst. destruct Hr as [(t & u & Ht & Hu & Er)|Hr].
      * exists row, t. rewrite Er. auto.
      * rewrite Hr in Hst. discriminate.
    + intros Hd. rewrite E, map_app. cbn. apply NoDup_snoc; [assumption|].
      intros Hin. apply in_map_iff in Hin as (a & Ha & Hin).
      apply (Hn a); [now apply list_elem_of_In|assumption].
Qed.

Lemma filter_account_snoc (p : Account -> bool) (l : list Account)
  (x : Account) :
  List.filter p (l ++ [x]) = (List.filter p l ++ if p x then [x] else [])%list.
Proof.
  induction l as [|y l IH]; cbn; [destruct (p x); reflexivity|].
  rewrite IH. destruct (p y); reflexivity.
Qed.

Lemma filter_account_none (p : Account -> bool) (l : list Account) :
  (forall a, a ∈ l -> p a = false) -> List.filter p l = [].
Proof.
  induction l as [|y l IH]; intros H; cbn; [reflexivity|].
  rewrite (H y) by (left). apply IH. intros a Ha. apply H. now right.
Qed.

(** The outcomes of [login]. *)
Lemma login_cases (w : World) (accounts : list Account) :
  (status (login lib w accounts) <> 200%Z
   /\ status (login lib w accounts) <> 401%Z)
  \/ login lib w accounts = failure 401 (Some "Invalid email or password")
  \/ exists body em pw account t u,
       request_json w = Ok body
       /\ get_prop body "email" = Ok (Some (JStr em))
       /\ get_prop body "password" = Ok (Some pw)
       /\ select_by_email w (toLowerCase lib em) accounts = Some account
       /\ comparePassword lib pw (password_hash account) = Ok true
       /\ generateToken lib account = Ok t
       /\ sanitizeUser lib account = Ok u
       /\ login lib w accounts = granted 200 t u.
Proof.
  unfold login, login_body. unfold_result.
  destruct (request_json w) as [body|]; [|left; cbn; split; discriminate].
  destruct (get_prop body "email") as [em|] eqn:Gem;
    [|left; cbn; split; discriminate].
  destruct (get_prop body "password") as [pw|] eqn:Gpw;
    [|left; cbn; split; discriminate].
  destruct (truthy em) eqn:Tem; cbn; [|left; cbn; split; discriminate].
  destruct (truthy pw) eqn:Tpw; cbn; [|left; cbn; split; discriminate].
  destruct em as [[| | |s| |]|]; cbn; try (left; cbn; split; discriminate).
  destruct pw as [pw|]; [|discriminate].
  destruct (select_by_email w (toLowerCase lib s) accounts) as [account|] eqn:Es;
    [|right; left; reflexivity].
  cbn.
  destruct (comparePassword lib pw (password_hash account)) as [[|]|] eqn:Ec;
    cbn; [|right; left; reflexivity|left; cbn; split; discriminate].
  destruct (generateToken lib account) as [t|] eqn:Et;
    cbn; [|left; cbn; split; discriminate].
  destruct (sanitizeUser lib account) as [u|] eqn:Eu;
    cbn; [|left; cbn; split; discriminate].
  right. right. exists body, s, pw, account, t, u. repeat split; auto.
Qed.

(** X24: a login is granted only against a stored account: the answer is
    200 only when the body's email is a string whose lower-cased form is
    the email of exactly one account and the password matches that
    account's hash, and it then carries that account's token.  Every
    refusal with 401 is the same response, whether the email is unknown
    or the password is wrong. *)
Theorem login_needs_the_stored_password (w : World)
  (accounts : list Account) :
  let r := login lib w accounts in
  (status r = 200%Z ->
   exists body em pw account t,
     request_json w = Ok body
     /\ get_prop body "email" = Ok (Some (JStr em))
     /\ get_prop body "password" = Ok (Some pw)
     /\ account ∈ accounts /\ email account = toLowerCase lib em
     /\ comparePassword lib pw (password_hash account) = Ok true
     /\ generateToken lib account = Ok t /\ token r = Some t)
  /\ (status r = 401%Z ->
      r = failure 401 (Some "Invalid email or password"))
  /\ (forall body em pw,
        request_json w = Ok body ->
        get_prop body "email" = Ok (Some (JStr em)) -> em <> "" ->
        get_prop body "password" = Ok (Some pw) -> truthy (Some pw) = true ->
        (forall a, a ∈ accounts -> email a <> toLowerCase lib em) ->
        r = failure 401 (Some "Invalid email or password"))
  /\ (forall body em pw account,
        request_json w = Ok body ->
        get_prop body "email" = Ok (Some (JStr em)) -> em <> "" ->
        get_prop body "password" = Ok (Some pw) -> truthy (Some pw) = true ->
        select_by_email w (toLowerCase lib em) accounts = Some account ->
        comparePassword lib pw (password_hash account) = Ok false ->
        r = failure 401 (Some "Invalid email or password")).
Proof.
  cbv zeta. split; [|split; [|split]].
  - intros Hs.
    destruct (login_cases w accounts)
      as [[F _]|[E|(body & em & pw & a & t & u & Hb & He & Hp & Hsel & Hc
                     & Ht & Hu & E)]].
    + contradiction.
    + rewrite E in Hs. discriminate.
    + destruct (select_by_email_elem w _ accounts a Hsel) as [Hin Hem].
      exists body, em, pw, a, t. rewrite E. repeat split; auto.
  - intros Hs.
    destruct (login_cases w accounts) as [[_ F]|[E|(? & ? & ? & ? & ? & ? & H)]].
    + contradiction.
    + exact E.
    + destruct H as (_ & _ & _ & _ & _ & _ & _ & E). rewrite E in Hs.
      discriminate.
  - intros body em pw Hb He Hne Hp Ht Hnone.
    unfold login, login_body. unfold_result. rewrite Hb, He, Hp, Ht. cbn.
    apply String.eqb_neq in Hne. rewrite Hne. cbn.
    unfold select_by_email. rewrite filter_account_none.
    + destruct (select_ok w); reflexivity.
    + intros a Ha. apply String.eqb_neq. auto.
  - intros body em pw account Hb He Hne Hp Ht Hsel Hc.
    unfold login, login_body. unfold_result. rewrite Hb, He, Hp, Ht. cbn.
    apply String.eqb_neq in Hne. rewrite Hne. cbn.
    rewrite Hsel. cbn. rewrite Hc. reflexivity.
Qed.

(** X25: an account that was just registered is not refused at login.
    After a registration answered 201, take a login with the same body,
    under a lookup that works, with the library as it answers during the
    login: the same [toLowerCase], and a [comparePassword] that accepts a
    password against the hash the registration made of it.  The login
    finds the registered row and accepts the password: it is answered 200
    with the token and the user that the library then gives for that row,
    and 500 when the signing or the sanitizing throws; never 400 or 401.
    The token need not be the registration's. *)
Theorem login_after_register (lib2 : Library) (w1 w2 : World)
  (accounts : list Account) :
  status (register lib w1 accounts).1 = 201%Z ->
  request_json w2 = request_json w1 ->
  select_ok w2 = true ->
  (forall s, toLowerCase lib2 s = toLowerCase lib s) ->
  (forall pw h, hashPassword lib pw = Ok h ->
                comparePassword lib2 pw h = Ok true) ->
  exists row t u,
    (register lib w1 accounts).1 = granted 201 t u
    /\ (register lib w1 accounts).2 = (accounts ++ [row])%list
    /\ generateToken lib row = Ok t /\ sanitizeUser lib row = Ok u
    /\ login lib2 w2 (register lib w1 accounts).2
       = match generateToken lib2 row, sanitizeUser lib2 row with
         | Ok t', Ok u' => granted 200 t' u'
         | _, _ => failure 500 (Some "Login failed")
         end
    /\ status (login lib2 w2 (register lib w1 accounts).2) <> 400%Z
    /\ status (login lib2 w2 (register lib w1 accounts).2) <> 401%Z.
Proof.
  intros Hs Hreq Hsel Hlow Hcmp.
  destruct (register_cases w1 accounts)
    as [[_ F]|(row & Ec & E & Hn & Hr)]; [contradiction|].
  destruct Hr as [(t & u & Ht & Hu & Er)|Hr];
    [|rewrite Hr in Hs; discriminate].
  destruct (register_checks_row w1 accounts row Ec)
    as (body & em & pw & Hb & Hem & Hpw & Tpw & Hv & Hh & _ & Hl & _ & _).
  exists row, t, u. split; [exact Er|]. split; [exact E|].
  split; [exact Ht|]. split; [exact Hu|].
  assert (L : login lib2 w2 (register lib w1 accounts).2
              = match generateToken lib2 row, sanitizeUser lib2 row with
                | Ok t', Ok u' => granted 200 t' u'
                | _, _ => failure 500 (Some "Login failed")
                end).
  { rewrite E. unfold login, login_body. unfold_result.
    rewrite Hreq, Hb, Hem, Hpw, Tpw. cbn.
    assert (Tem : negb (em =? "")%string = true).
    { revert Ec. unfold register_checks. unfold_result.
      rewrite Hb, Hem, Hpw.
      destruct (get_prop body "name"); [|discriminate].
      destruct (get_prop body "phone"); [|discriminate].
      cbn. destruct (negb (em =? "")%string); [reflexivity|].
      cbn. discriminate. }
    rewrite Tem. cbn. rewrite Hlow.
    assert (Sel : select_by_email w2 (toLowerCase lib em) (accounts ++ [row])
                  = Some row).
    { unfold select_by_email. rewrite Hsel, filter_account_snoc.
      rewrite filter_account_none.
      - rewrite Hl, String.eqb_refl. reflexivity.
      - intros a Ha. apply String.eqb_neq. rewrite <- Hl. auto. }
    rewrite Sel. cbn. rewrite (Hcmp pw _ Hh). cbn.
    destruct (generateToken lib2 row); [|reflexivity].
    destruct (sanitizeUser lib2 row); reflexivity. }
  split; [exact L|]. rewrite L.
  destruct (generateToken lib2 row); [|split; discriminate].
  destruct (sanitizeUser lib2 row); split; discriminate.
Qed.

End WithLibrary.

Lemma login_after_register_witness :
  exists row t u,
    (register AuthExamples.stub_library AuthExamples.ann_signs_up []).1
    = granted 201 t u
    /\ (register AuthExamples.stub_library AuthExamples.ann_signs_up []).2
       = ([] ++ [row])%list
    /\ generateToken AuthExamples.stub_library row = Ok t
    /\ sanitizeUser AuthExamples.stub_library row = Ok u
    /\ login AuthExamples.later_library AuthExamples.ann_signs_up
         (register AuthExamples.stub_library AuthExamples.ann_signs_up []).2
       = match generateToken AuthExamples.later_library row,
               sanitizeUser AuthExamples.later_library row with
         | Ok t', Ok u' => granted 200 t' u'
         | _, _ => failure 500 (Some "Login failed")
         end
    /\ status
         (login AuthExamples.later_library AuthExamples.ann_signs_up
            (register AuthExamples.stub_library AuthExamples.ann_signs_up
               []).2) <> 400%Z
    /\ status
         (login AuthExamples.later_library AuthExamples.ann_signs_up
            (register AuthExamples.stub_library AuthExamples.ann_signs_up
               []).2) <> 401%Z.
Proof.
  apply (login_after_register AuthExamples.stub_library
           AuthExamples.later_library
           AuthExamples.ann_signs_up AuthExamples.ann_signs_up []);
    [vm_compute; reflexivity|reflexivity|reflexivity|reflexivity|].
  intros pw h H. cbn in *. rewrite H. now rewrite String.eqb_refl.
Defined.

End AuthFacts.

(** ** The client and the route together *)

Module ClientFacts.
Import Route Client RouteFacts.

Lemma POST_ok_has_diagnosis (w : World) (d : Database) :
  Route.success (POST w d).1.1
  && truthy (Route.diagnosis (POST w d).1.1) = true
  <-> Route.status (POST w d).1.1 = 200%Z.
Proof.
  pose proof (POST_run w d) as R. destruct R; cbn; split; try discriminate;
    reflexivity.
Qed.

(** X26: the client and the route end to end.  Without a token or a
    user the client goes to the sign-in screen, and with a balance it
    believes to be below one to the pricing screen, in both cases without
    sending anything.  Otherwise it shows the results screen exactly when
    the request was delivered and the route answered 200; it then holds
    the route's report and shows the route's [creditsRemaining] as the
    balance.  In every other case it returns to the symptoms screen with
    an error message, the route's own when there is one; and when the
    response is lost, the database is what the route left, so a credit
    may be gone although the client shows a failure. *)
Theorem submit_shows_results_only_when_served (net : Transport) (w : World)
  (st : State) (d : Database) :
  let out := handleSubmitDiagnosis net w st d in
  let served := POST (serving w (form_of st)) d in
  ((user st = None \/ not_str (token st) = true) ->
   out = (go_to "auth" st, d))
  /\ (forall u, user st = Some u -> not_str (token st) = false ->
      (out_of_credits u = true -> out = (go_to "pricing" st, d))
      /\ (out_of_credits u = false ->
          analyzing out.1 = false
          /\ (screen out.1 = "results" \/ screen out.1 = "symptoms")
          /\ (screen out.1 = "results" <->
              net = Delivered /\ Route.status served.1.1 = 200%Z)
          /\ (screen out.1 = "results" ->
              Client.diagnosis out.1 = Route.diagnosis served.1.1
              /\ Client.error out.1 = None
              /\ exists u',
                   user out.1 = Some u'
                   /\ credits u' = creditsRemaining served.1.1)
          /\ (screen out.1 = "symptoms" ->
              user out.1 = user st
              /\ Client.diagnosis out.1 = Client.diagnosis st
              /\ exists msg, Client.error out.1 = Some msg /\ msg <> ""
                 /\ (net = Delivered ->
                     forall e, Route.error served.1.1 = Some e -> e <> "" ->
                               msg = e))
          /\ (net = LostRequest -> out.2 = d)
          /\ (net <> LostRequest -> out.2 = served.1.2))).
Proof.
  cbv zeta. unfold handleSubmitDiagnosis. split.
  - intros [H|H].
    + rewrite H. reflexivity.
    + destruct (user st); [rewrite H|]; reflexivity.
  - intros u Hu Ht. rewrite Hu, Ht. split.
    + intros ->. reflexivity.
    + intros ->.
      pose proof (POST_ok_has_diagnosis (serving w (form_of st)) d) as Hok.
      destruct net; cbn [fst snd]; unfold received, failed, with_outcome.
      * destruct (Route.success _ && truthy _) eqn:E; cbn; rewrite ?Hu.
        -- split; [reflexivity|]. split; [auto|]. split.
           { split; [intros _; split; [reflexivity|now apply Hok]|reflexivity]. }
           split; [eauto|]. split; [discriminate|].
           split; [discriminate|reflexivity].
        -- split; [reflexivity|]. split; [auto|]. split.
           { split; [discriminate|]. intros [_ H]. apply Hok in H.
             congruence. }
           split; [discriminate|]. split.
           { intros _. split; [reflexivity|]. split; [reflexivity|].
             eexists. split; [reflexivity|]. split.
             - destruct (Route.error _) as [e|]; cbn; [|discriminate].
               destruct (String.eqb e "") eqn:Ee; [discriminate|].
               now apply String.eqb_neq.
             - intros _ e He Hne. rewrite He. cbn.
               apply String.eqb_neq in Hne. now rewrite Hne. }
           split; [discriminate|reflexivity].
      * cbn; rewrite ?Hu. split; [reflexivity|]. split; [auto|]. split.
        { split; [discriminate|]. intros [F _]. discriminate. }
        split; [discriminate|]. split.
        { intros _. split; [reflexivity|]. split; [reflexivity|].
          eexists. split; [reflexivity|]. split; discriminate. }
        split; [reflexivity|]. intros F. contradiction.
      * cbn; rewrite ?Hu. split; [reflexivity|]. split; [auto|]. split.
        { split; [discriminate|]. intros [F _]. discriminate. }
        split; [discriminate|]. split.
        { intros _. split; [reflexivity|]. split; [reflexivity|].
          eexists. split; [reflexivity|]. split; discriminate. }
        split; [discriminate|reflexivity].
Qed.

End ClientFacts.

(** ** Sequences of requests *)

Module SessionFacts.
Import Route RouteFacts Sessions Among.

(** One request and one user's balance. *)
Lemma POST_balance (w : World) (d : Database) (uid : string) (c : Z) :
  users d !! uid = Some c ->
  users (POST w d).1.2 !! uid
  = Some (if served_to uid w d && rpc_ok w then c - 1 else c)%Z
  /\ (served_to uid w d = true -> (1 <= c)%Z).
Proof.
  intros Hc. unfold served_to. pose proof (POST_run w d) as R.
  destruct R; cbn [fst snd];
    try (match goal with
         | H : getUserFromHeaders w = _ |- _ => rewrite H
         end; cbn; rewrite ?andb_false_r; cbn; split; [assumption|discriminate]).
  subst d' row. rewrite H. cbn.
  unfold after_insert, after_decrement, decrement_user_credits.
  destruct (String.eqb uid0 uid) eqn:Eu; cbn.
  - apply String.eqb_eq in Eu. subst uid0.
    assert (credits = c) by congruence. subst credits.
    split; [|auto]. rewrite Hc.
    replace (1 <=? c)%Z with true by (symmetry; apply Z.leb_le; lia).
    destruct (rpc_ok w), (insert_ok w); cbn; rewrite ?lookup_insert_eq; auto.
  - apply String.eqb_neq in Eu. split; [|discriminate].
    rewrite H1.
    replace (1 <=? credits)%Z with true by (symmetry; apply Z.leb_le; lia).
    destruct (rpc_ok w), (insert_ok w); cbn;
      rewrite ?lookup_insert_ne by assumption; assumption.
Qed.

Lemma after_insert_users (w : World) (row : DiagnosisRow) (d : Database) :
  users (after_insert w row d) = users d.
Proof. unfold after_insert. destruct (insert_ok w); reflexivity. Qed.

(** X27: requests handled one after another never give a user more
    diagnoses than credits, and requests that overlap can.  Over any
    sequence of requests, by whatever users, whose deduction calls work
    and each of which ends before the next begins, the number of
    requests of one user answered 200 is at most that user's balance at
    the start, and the balance at the end is the balance at the start
    less that number.  But of two requests of that user that each would
    be answered 200 alone, overlapped so that the second has passed its
    credit test when the first deducts, both are answered 200, and the
    balance ends at the balance less 2, or at 0 when the user had one
    credit: two diagnoses for one credit. *)
Theorem deliveries_never_exceed_credits (ws : list World) (d : Database)
  (uid : string) (c : Z) :
  users d !! uid = Some c -> (0 <= c)%Z ->
  Forall (fun w => rpc_ok w = true) ws ->
  (Z.of_nat (deliveries uid ws d) <= c)%Z
  /\ users (serve ws d) !! uid = Some (c - Z.of_nat (deliveries uid ws d))%Z
  /\ (forall w1 w2,
        getUserFromHeaders w1 = Some uid ->
        getUserFromHeaders w2 = Some uid ->
        rpc_ok w1 = true -> rpc_ok w2 = true ->
        status (POST w1 d).1.1 = 200%Z ->
        status (POST w2 d).1.1 = 200%Z ->
        status (overlapped w1 w2 d).1.1 = 200%Z
        /\ status (overlapped w1 w2 d).1.2 = 200%Z
        /\ diagnosis (overlapped w1 w2 d).1.1 = diagnosis (POST w1 d).1.1
        /\ diagnosis (overlapped w1 w2 d).1.2 = diagnosis (POST w2 d).1.1
        /\ users (overlapped w1 w2 d).2 !! uid
           = Some (if (2 <=? c)%Z then c - 2 else 0)%Z).
Proof.
  intros Hc0 Hpos0 Hall0. split; [|split].
  3:{ intros w1 w2 H1 H2 R1 R2 S1 S2. unfold overlapped. cbn [fst snd].
      split; [exact S1|].
      set (o1 := fun d0 : Database => (POST w1 d0).1.2).
      pose proof (RouteEffects.POST_among_cases w2 o1 id id d) as A.
      pose proof (RouteEffects.POST_among_cases w2 id id id d) as B.
      rewrite RouteEffects.POST_among_alone in B.
      destruct (post_head w2 {| db := d; trace := [] |}) as [[g|r0|e] st].
      - destruct A as (_ & Hu & _ & A). destruct B as (_ & _ & _ & B).
        cbv zeta in A, B. rewrite A, B. cbn [fst snd].
        split; [reflexivity|]. split; [reflexivity|].
        split; [reflexivity|].
        assert (g_user g = uid) by congruence. subst uid.
        unfold id. rewrite after_insert_users.
        destruct (RouteEffects.after_decrement_balance w2 (g_user g) (o1 d))
          as (Hb & _ & _).
        rewrite Hb. subst o1. cbn beta.
        destruct (POST_balance w1 d (g_user g) c Hc0) as [Hb1 Hc1].
        assert (Hserved : served_to (g_user g) w1 d = true).
        { unfold served_to. rewrite H1, String.eqb_refl, S1. reflexivity. }
        specialize (Hc1 Hserved). rewrite Hb1, Hserved, R1, R2. cbn.
        f_equal. destruct (2 <=? c)%Z eqn:L2;
          [apply Z.leb_le in L2|apply Z.leb_gt in L2].
        + replace (1 <=? c - 1)%Z with true
            by (symmetry; apply Z.leb_le; lia). lia.
        + replace (1 <=? c - 1)%Z with false
            by (symmetry; apply Z.leb_gt; lia). lia.
      - destruct B as (_ & Hn & B). rewrite B in S2. cbn in S2.
        contradiction.
      - destruct B as (_ & B). rewrite B in S2. cbn in S2. discriminate. }
  all: revert d c Hc0 Hpos0 Hall0.
  all: induction ws as [|w rest IH]; intros d c Hc Hpos Hall.
  - cbn. lia.
  - inversion Hall as [|? ? Hrpc Hrest]; subst.
    destruct (POST_balance w d uid c Hc) as [Hb H1]. rewrite Hrpc in Hb.
    rewrite andb_true_r in Hb. cbn [deliveries serve].
    destruct (served_to uid w d) eqn:Es.
    + specialize (H1 eq_refl).
      pose proof (IH _ _ Hb ltac:(lia) Hrest) as IH1. lia.
    + pose proof (IH _ _ Hb Hpos Hrest) as IH1. lia.
  - cbn. rewrite Hc. f_equal. lia.
  - inversion Hall as [|? ? Hrpc Hrest]; subst.
    destruct (POST_balance w d uid c Hc) as [Hb H1]. rewrite Hrpc in Hb.
    rewrite andb_true_r in Hb. cbn [deliveries serve].
    destruct (served_to uid w d) eqn:Es.
    + specialize (H1 eq_refl).
      rewrite (IH _ _ Hb ltac:(lia) Hrest). f_equal. lia.
    + rewrite (IH _ _ Hb Hpos Hrest). f_equal.
Qed.

Lemma deliveries_never_exceed_credits_witness :
  let w := Examples.world_with (Some "grinding noise when braking")
             (Ok Examples.brake_report) true in
  deliveries "u1" [w; w] one_credit = 1
  /\ (Z.of_nat (deliveries "u1" [w; w] one_credit) <= 1)%Z
  /\ users (serve [w; w] one_credit) !! "u1"
     = Some (1 - Z.of_nat (deliveries "u1" [w; w] one_credit))%Z
  /\ status (overlapped w w one_credit).1.1 = 200%Z
  /\ status (overlapped w w one_credit).1.2 = 200%Z
  /\ users (overlapped w w one_credit).2 !! "u1" = Some 0%Z.
Proof.
  cbv zeta. split; [vm_compute; reflexivity|].
  pose proof (deliveries_never_exceed_credits
           [Examples.world_with (Some "grinding noise when braking")
              (Ok Examples.brake_report) true;
            Examples.world_with (Some "grinding noise when braking")
              (Ok Examples.brake_report) true]
           one_credit "u1" 1 ltac:(vm_compute; reflexivity)
           ltac:(lia) ltac:(repeat constructor)) as (H1 & H2 & H3).
  split; [exact H1|]. split; [exact H2|].
  destruct (H3 (Examples.world_with (Some "grinding noise when braking")
                  (Ok Examples.brake_report) true)
               (Examples.world_with (Some "grinding noise when braking")
                  (Ok Examples.brake_report) true)
               eq_refl eq_refl eq_refl eq_refl
               ltac:(vm_compute; reflexivity) ltac:(vm_compute; reflexivity))
    as (A & B & _ & _ & C).
  split; [exact A|]. split; [exact B|]. exact C.
Defined.

End SessionFacts.
